(** * Save to Tracker: property translation, option matching and save flow

    A shallow embedding of the schema-driven form engine of the browser
    extension: the property formatters and parsers of [lib/notion-api.js]
    and, from the popup script, the location matcher, the field renderers,
    the payload builder, the AI fill of one field and the two save paths.

    Conventions of the embedding.
    - A JavaScript string is a Rocq [string]; each [ascii] stands for one
      code unit in the range U+0000..U+00FF.  Length, [slice] and [includes]
      work per code unit, as in JavaScript.  [toLowerCase], [trim] and the
      character classes of the regular expressions are written out for that
      range.
    - A JavaScript number is kept as the decimal literal it was read from
      (sign, digits, power of ten); the rounding to a double is not
      modelled.
    - A JavaScript object used as a dictionary is a [gmap] with string keys,
      a [Set] of strings a [gset].  An assignment [object[name] = value]
      inserts the key, except for the name [__proto__], for which it
      creates no key.
    - The DOM of a form group is reduced to what the script reads and writes:
      the data attributes and the values of the controls inside the group.
      A control keeps of an assigned value what the value sanitization of its
      type leaves (module [Dom]).  A group is one that [renderProperty]
      built for a column whose name has no markup in it. *)

From Stdlib Require Import String Ascii ZArith Lia Bool.
From Stdlib Require Import Sorted.
From stdpp Require Import gmap strings list.

Open Scope string_scope.

(* ===================================================================== *)
(** * JavaScript strings *)
(* ===================================================================== *)

Module JsString.

Definition code (c : ascii) : nat := nat_of_ascii c.

Definition between (lo hi n : nat) : bool := Nat.leb lo n && Nat.leb n hi.

(** [A-Z] *)
Definition is_upper_az (c : ascii) : bool := between 65 90 (code c).

(** Code units with a lower-case counterpart: A-Z, and U+00C0..U+00DE
    without the multiplication sign U+00D7. *)
Definition has_lower (c : ascii) : bool :=
  is_upper_az c
  || (between 192 222 (code c) && negb (Nat.eqb (code c) 215)).

Definition lower_char (c : ascii) : ascii :=
  if has_lower c then ascii_of_nat (code c + 32) else c.

Fixpoint map_units (f : ascii -> ascii) (s : string) : string :=
  match s with
  | EmptyString => EmptyString
  | String c t => String (f c) (map_units f t)
  end.

(** [s.toLowerCase()] *)
Definition toLowerCase (s : string) : string := map_units lower_char s.

(** White space and line terminators: TAB, LF, VT, FF, CR, SP, NBSP. *)
Definition is_space (c : ascii) : bool :=
  between 9 13 (code c) || Nat.eqb (code c) 32 || Nat.eqb (code c) 160.

Fixpoint trimStart (s : string) : string :=
  match s with
  | EmptyString => EmptyString
  | String c t => if is_space c then trimStart t else s
  end.

Fixpoint trimEnd (s : string) : string :=
  match s with
  | EmptyString => EmptyString
  | String c t =>
      match trimEnd t with
      | EmptyString => if is_space c then EmptyString else String c EmptyString
      | t' => String c t'
      end
  end.

(** [s.trim()] *)
Definition trim (s : string) : string := trimEnd (trimStart s).

(** [hay.includes(needle)] *)
Fixpoint includes (hay needle : string) : bool :=
  String.prefix needle hay
  || match hay with
     | EmptyString => false
     | String _ t => includes t needle
     end.

Fixpoint take (n : nat) (s : string) : string :=
  match n, s with
  | S n', String c t => String c (take n' t)
  | _, _ => EmptyString
  end.

Fixpoint drop (n : nat) (s : string) : string :=
  match n, s with
  | S n', String _ t => drop n' t
  | _, _ => s
  end.

(** [s.slice(i, j)] for indices [0 <= i <= j]; [j] may exceed the
    length. *)
Definition slice (i j : nat) (s : string) : string := take (j - i) (drop i s).

(** Every code unit of [s] satisfies [p]. *)
Fixpoint all_units (p : ascii -> bool) (s : string) : bool :=
  match s with
  | EmptyString => true
  | String c t => p c && all_units p t
  end.

(** JavaScript truthiness of a string: [''] is the only falsy one. *)
Definition truthy (s : string) : bool := negb (String.eqb s "").

(** [s || d] on strings. *)
Definition or_else (s d : string) : string := if truthy s then s else d.

End JsString.

(* ===================================================================== *)
(** * JavaScript numbers read from text *)
(* ===================================================================== *)

Module JsNumber.
Import JsString.

(** A number as [parseFloat] reads it: the value of [Finite neg m e] is
    [m * 10^e], negated when [neg]. *)
Inductive num : Type :=
| NaN
| Infinity (negative : bool)
| Finite (negative : bool) (mantissa : N) (exp10 : Z).

Definition is_digit (c : ascii) : bool := between 48 57 (code c).

Definition digit_value (c : ascii) : N := N.of_nat (code c - 48).

(** Longest run of decimal digits at the head of [s]: the value read on
    top of [acc], how many digits were read, and the rest. *)
Fixpoint read_digits (s : string) (acc : N) (count : nat) : N * nat * string :=
  match s with
  | String c t =>
      if is_digit c
      then read_digits t (10 * acc + digit_value c)%N (S count)
      else (acc, count, s)
  | EmptyString => (acc, count, s)
  end.

(** Optional sign: [true] for a minus. *)
Definition read_sign (s : string) : bool * string :=
  match s with
  | String "-" t => (true, t)
  | String "+" t => (false, t)
  | _ => (false, s)
  end.

(** Optional exponent part [e|E [+|-] digits]; it counts only when at
    least one digit follows. *)
Definition read_exponent (s : string) : Z :=
  match s with
  | String c t =>
      if Ascii.eqb c "e" || Ascii.eqb c "E"
      then let '(neg, t1) := read_sign t in
           let '(e, n, _) := read_digits t1 0%N 0 in
           match n with
           | O => 0%Z
           | S _ => if neg then (- Z.of_N e)%Z else Z.of_N e
           end
      else 0%Z
  | EmptyString => 0%Z
  end.

(** [parseFloat(s)]: leading white space is skipped, then the longest
    prefix that is a decimal literal is read; [NaN] when there is none. *)
Definition parseFloat (s : string) : num :=
  let '(neg, s1) := read_sign (trimStart s) in
  if String.prefix "Infinity" s1 then Infinity neg
  else
    let '(ip, n1, r1) := read_digits s1 0%N 0 in
    let '(m, n2, r2) :=
      match r1 with
      | String "." t => read_digits t ip 0
      | _ => (ip, 0, r1)
      end in
    match n1 + n2 with
    | O => NaN
    | S _ => Finite neg m (read_exponent r2 - Z.of_nat n2)
    end.

(** [parseFloat(x)] for a number [x]: [x] is printed and read back, which
    returns [x], negative zero excepted (it prints as [0]). *)
Definition parseFloat_number (x : num) : num :=
  match x with
  | Finite true 0%N e => Finite false 0%N e
  | _ => x
  end.

(** [JSON.stringify] of a number, as far as the payload is concerned:
    [NaN] and the infinities are written as [null]. *)
Definition json_number (x : num) : option num :=
  match x with
  | Finite _ _ _ => Some x
  | _ => None
  end.

End JsNumber.

(* ===================================================================== *)
(** * The regular expressions the popup uses *)
(* ===================================================================== *)

Module JsRegExp.
Import JsString.

(** The fragment of the pattern language that occurs in the script. *)
Inductive regex : Type :=
| Lit (s : string)                 (* a literal *)
| Chr (p : ascii -> bool)          (* one code unit of a class *)
| StarChr (p : ascii -> bool)      (* c*, greedy, for a class c *)
| Cat (r1 r2 : regex)              (* r1r2 *)
| Alt (r1 r2 : regex)              (* r1|r2 *)
| NotAhead (p : ascii -> bool)     (* (?!c) for a class c *)
| WordB                            (* \b *)
| Group (r : regex).               (* (r), capturing *)

(** [\w] *)
Definition is_word (c : ascii) : bool :=
  between 97 122 (code c) || between 65 90 (code c)
  || between 48 57 (code c) || Nat.eqb (code c) 95.

(** [.] : anything but a line terminator *)
Definition is_dot (c : ascii) : bool :=
  negb (Nat.eqb (code c) 10 || Nat.eqb (code c) 13).

(** A position of the matcher: the unit just before it, the text still
    ahead, and the captures made so far (latest first). *)
Record position : Type := Pos {
  before : option ascii;
  ahead : string;
  captures : list string
}.

(** Folding of the [i] flag: only A-Z and a-z are identified (a unit
    outside ASCII never folds onto an ASCII letter). *)
Definition fold_case (c : ascii) : ascii :=
  if is_upper_az c then ascii_of_nat (code c + 32) else c.

Definition unit_eqb (ignoreCase : bool) (a b : ascii) : bool :=
  if ignoreCase then Ascii.eqb (fold_case a) (fold_case b) else Ascii.eqb a b.

Fixpoint match_lit (ignoreCase : bool) (lit : string) (p : position) : list position :=
  match lit with
  | EmptyString => [p]
  | String a lit' =>
      match ahead p with
      | String b t =>
          if unit_eqb ignoreCase a b
          then match_lit ignoreCase lit' (Pos (Some b) t (captures p))
          else []
      | EmptyString => []
      end
  end.

(** Greedy star of a class: the longest run first, then the shorter
    ones, as backtracking would try them. *)
Fixpoint match_star (cls : ascii -> bool) (prev : option ascii) (s : string)
    (caps : list string) : list position :=
  match s with
  | String c t =>
      if cls c
      then match_star cls (Some c) t caps ++ [Pos prev s caps]
      else [Pos prev s caps]
  | EmptyString => [Pos prev s caps]
  end.

Definition word_before (p : position) : bool :=
  match before p with Some c => is_word c | None => false end.

Definition word_ahead (p : position) : bool :=
  match ahead p with String c _ => is_word c | EmptyString => false end.

(** All ways [r] matches at [p], in the order backtracking tries them. *)
Fixpoint run (ignoreCase : bool) (r : regex) (p : position) : list position :=
  match r with
  | Lit s => match_lit ignoreCase s p
  | Chr cls =>
      match ahead p with
      | String c t => if cls c then [Pos (Some c) t (captures p)] else []
      | EmptyString => []
      end
  | StarChr cls => match_star cls (before p) (ahead p) (captures p)
  | Cat r1 r2 => flat_map (run ignoreCase r2) (run ignoreCase r1 p)
  | Alt r1 r2 => run ignoreCase r1 p ++ run ignoreCase r2 p
  | NotAhead cls =>
      match ahead p with
      | String c _ => if cls c then [] else [p]
      | EmptyString => [p]
      end
  | WordB => if xorb (word_before p) (word_ahead p) then [p] else []
  | Group r' =>
      map (fun q =>
             Pos (before q) (ahead q)
                 (take (String.length (ahead p) - String.length (ahead q)) (ahead p)
                    :: captures q))
          (run ignoreCase r' p)
  end.

(** First match starting at the leftmost possible index. *)
Fixpoint search (ignoreCase : bool) (r : regex) (prev : option ascii) (s : string)
    : option position :=
  match run ignoreCase r (Pos prev s []) with
  | q :: _ => Some q
  | [] =>
      match s with
      | String c t => search ignoreCase r (Some c) t
      | EmptyString => None
      end
  end.

(** [/r/.test(s)] and [/r/i.test(s)] *)
Definition test (ignoreCase : bool) (r : regex) (s : string) : bool :=
  match search ignoreCase r None s with Some _ => true | None => false end.

(** [s.match(/r/)]: the captures of the first match, first group first. *)
Definition match_groups (ignoreCase : bool) (r : regex) (s : string)
    : option (list string) :=
  match search ignoreCase r None s with
  | Some q => Some (rev (captures q))
  | None => None
  end.

(** No unit ahead of the position is in A-Z. *)
Definition lower_ahead (p : position) : Prop :=
  all_units (fun c => negb (is_upper_az c)) (ahead p) = true.

End JsRegExp.

(* ===================================================================== *)
(** * The controls of the form: what a control keeps of a value *)
(* ===================================================================== *)

Module Dom.
Import JsString JsNumber.

(** The controls the renderers create and assign a [value] to: [input]
    elements of five types, and [textarea]. *)
Inductive Control : Type :=
| TextInput | UrlInput | EmailInput | TelInput | NumberInput | DateInput
| TextArea.

Fixpoint remove_units (p : ascii -> bool) (s : string) : string :=
  match s with
  | EmptyString => EmptyString
  | String c t => if p c then remove_units p t else String c (remove_units p t)
  end.

(** LF and CR *)
Definition is_line_break (c : ascii) : bool :=
  Nat.eqb (code c) 10 || Nat.eqb (code c) 13.

(** "Strip newlines" *)
Definition strip_newlines (s : string) : string := remove_units is_line_break s.

(** ASCII white space: TAB, LF, FF, CR, SP. *)
Definition is_blank (c : ascii) : bool :=
  Nat.eqb (code c) 9 || Nat.eqb (code c) 10 || Nat.eqb (code c) 12
  || Nat.eqb (code c) 13 || Nat.eqb (code c) 32.

Fixpoint strip_leading (s : string) : string :=
  match s with
  | EmptyString => EmptyString
  | String c t => if is_blank c then strip_leading t else s
  end.

Fixpoint strip_trailing (s : string) : string :=
  match s with
  | EmptyString => EmptyString
  | String c t =>
      match strip_trailing t with
      | EmptyString => if is_blank c then EmptyString else String c EmptyString
      | t' => String c t'
      end
  end.

(** "Strip leading and trailing ASCII whitespace" *)
Definition strip_blanks (s : string) : string := strip_trailing (strip_leading s).

(** "Normalize newlines": CR LF and a lone CR become LF. *)
Fixpoint normalize_newlines (s : string) : string :=
  match s with
  | EmptyString => EmptyString
  | String c t =>
      if Nat.eqb (code c) 13
      then String "010"
             match t with
             | String d t' => if Nat.eqb (code d) 10 then normalize_newlines t'
                              else normalize_newlines t
             | EmptyString => EmptyString
             end
      else String c (normalize_newlines t)
  end.

(** The exponent of a "valid floating-point number", if any, up to the
    end of the text. *)
Definition valid_exponent (s : string) : bool :=
  match s with
  | EmptyString => true
  | String c t =>
      (Ascii.eqb c "e" || Ascii.eqb c "E")
      && let '(_, t1) := read_sign t in
         let '(_, n, rest) := read_digits t1 0%N 0 in
         negb (Nat.eqb n 0) && String.eqb rest ""
  end.

(** A "valid floating-point number": an optional minus, then digits, or
    digits with a fraction, or a fraction alone, then an optional
    exponent. *)
Definition valid_float (s : string) : bool :=
  let s1 := match s with String "-" t => t | _ => s end in
  let '(_, n1, r1) := read_digits s1 0%N 0 in
  match r1 with
  | String "." t =>
      let '(_, n2, r2) := read_digits t 0%N 0 in
      negb (Nat.eqb n2 0) && valid_exponent r2
  | _ => negb (Nat.eqb n1 0) && valid_exponent r1
  end.

(** The least magnitude that rounds to no finite double. *)
Definition double_limit : N := (2 ^ 1024 - 2 ^ 970)%N.

(** The number read is one a double holds. *)
Definition fits_double (x : num) : bool :=
  match x with
  | Finite _ m e =>
      if (0 <=? e)%Z
      then (m * 10 ^ Z.to_N e <? double_limit)%N
      else (m <? double_limit * 10 ^ Z.to_N (- e))%N
  | _ => false
  end.

Definition two_digits (a b : ascii) : option nat :=
  if is_digit a && is_digit b
  then Some (10 * (code a - 48) + (code b - 48))
  else None.

Definition leap_year (y : N) : bool :=
  (N.eqb (y mod 4) 0 && negb (N.eqb (y mod 100) 0)) || N.eqb (y mod 400) 0.

Definition days_in_month (y : N) (m : nat) : nat :=
  match m with
  | 1 | 3 | 5 | 7 | 8 | 10 | 12 => 31
  | 4 | 6 | 9 | 11 => 30
  | 2 => if leap_year y then 29 else 28
  | _ => 0
  end.

(** A "valid date string": a year of four digits or more that is not zero,
    a month and a day of that month, of two digits each. *)
Definition valid_date (s : string) : bool :=
  let '(y, n, rest) := read_digits s 0%N 0 in
  Nat.leb 4 n && N.ltb 0 y
  && match rest with
     | String "-" (String m1 (String m2
         (String "-" (String d1 (String d2 EmptyString))))) =>
         match two_digits m1 m2, two_digits d1 d2 with
         | Some m, Some d =>
             Nat.leb 1 m && Nat.leb m 12
             && Nat.leb 1 d && Nat.leb d (days_in_month y m)
         | _, _ => false
         end
     | _ => false
     end.

(** The value sanitization of the control: what [control.value] reads
    after [control.value = v]. *)
Definition sanitize (control : Control) (v : string) : string :=
  match control with
  | TextInput | TelInput => strip_newlines v
  | UrlInput | EmailInput => strip_blanks (strip_newlines v)
  | NumberInput =>
      if valid_float v && fits_double (parseFloat v) then v else ""
  | DateInput => if valid_date v then v else ""
  | TextArea => normalize_newlines v
  end.

(** No unit of the text is a line break. *)
Definition single_line (s : string) : Prop :=
  all_units (fun c => negb (is_line_break c)) s = true.

End Dom.

(* ===================================================================== *)
(** * lib/notion-api.js: property formatters and parsers *)
(* ===================================================================== *)

Module NotionApi.
Import JsString JsNumber.

(** The property types with a formatter, a parser and a renderer. *)
Inductive ColumnType : Type :=
| title | rich_text | url | number | checkbox | select
| multi_select | date | email | phone_number | status.

#[export] Instance ColumnType_eq_dec : EqDecision ColumnType.
Proof. solve_decision. Defined.

(** One rich-text object.  A request carries [text.content]; the objects
    of a page returned by the store carry [plain_text] as well. *)
Record RichText : Type := {
  text_content : option string;
  plain_text : option string
}.

(** [{ text: { content: c } }] *)
Definition text_block (c : string) : RichText :=
  {| text_content := Some c; plain_text := None |}.

(** The value of one property, tagged by the key it is stored under;
    [None] is [null]. *)
Inductive Property : Type :=
| P_title (blocks : list RichText)
| P_rich_text (blocks : list RichText)
| P_url (u : option string)
| P_number (n : option num)
| P_checkbox (b : bool)
| P_select (name : option string)
| P_multi_select (names : list string)
| P_date (start : option string)
| P_email (e : option string)
| P_phone_number (p : option string)
| P_status (name : option string).

(** What the number formatter is handed and what the number parser gives
    back: a number, the text of an input, [null] or [undefined]. *)
Inductive NumberValue : Type :=
| NumUndefined
| NumNull
| Num (x : num)
| NumText (s : string).

(** The form values of a type: a string for the text-like controls and
    the two drop-downs, a boolean for a checkbox, the list of selected
    names for a tag picker. *)
Definition FormValue (ty : ColumnType) : Type :=
  match ty with
  | checkbox => bool
  | multi_select => list string
  | number => NumberValue
  | _ => string
  end.

(** [value || null] *)
Definition or_null (value : string) : option string :=
  if truthy value then Some value else None.

Definition MAX_CHARS : nat := 2000.

(** The loop of the rich-text formatter,
    [for (i = 0; i < content.length; i += max) blocks.push(...)],
    entered at index [i] with [blocks] already pushed.  [fuel] bounds the
    number of rounds. *)
Fixpoint rich_text_loop (max fuel : nat) (content : string) (i : nat)
    (blocks : list RichText) : list RichText :=
  match fuel with
  | O => blocks
  | S fuel' =>
      if Nat.ltb i (String.length content)
      then rich_text_loop max fuel' content (i + max)
             (blocks ++ [text_block (slice i (i + max) content)])
      else blocks
  end.

Module PropertyFormatters.

Definition title (value : string) : Property :=
  P_title [text_block (or_else value "")].

Definition rich_text (value : string) : Property :=
  let content := or_else value "" in
  let blocks := rich_text_loop MAX_CHARS (String.length content) content 0 [] in
  P_rich_text (match blocks with [] => [text_block ""] | _ => blocks end).

Definition url (value : string) : Property := P_url (or_null value).

Definition number (value : NumberValue) : Property :=
  P_number
    match value with
    | NumText "" => None
    | NumNull => None
    | NumText s => Some (parseFloat s)
    | Num x => Some (parseFloat_number x)
    | NumUndefined => Some NaN
    end.

Definition checkbox (value : bool) : Property := P_checkbox value.

Definition select (value : string) : Property := P_select (or_null value).

Definition multi_select (values : list string) : Property :=
  P_multi_select values.

Definition date (value : string) : Property := P_date (or_null value).

Definition email (value : string) : Property := P_email (or_null value).

Definition phone_number (value : string) : Property :=
  P_phone_number (or_null value).

Definition status (value : string) : Property := P_status (or_null value).

End PropertyFormatters.

(** [PropertyFormatters[type](value)] *)
Definition format (ty : ColumnType) : FormValue ty -> Property :=
  match ty with
  | title => PropertyFormatters.title
  | rich_text => PropertyFormatters.rich_text
  | url => PropertyFormatters.url
  | number => PropertyFormatters.number
  | checkbox => PropertyFormatters.checkbox
  | select => PropertyFormatters.select
  | multi_select => PropertyFormatters.multi_select
  | date => PropertyFormatters.date
  | email => PropertyFormatters.email
  | phone_number => PropertyFormatters.phone_number
  | status => PropertyFormatters.status
  end.

(** [x || ''] for a string that may be [null] or [undefined]. *)
Definition or_empty (x : option string) : string :=
  match x with Some s => or_else s "" | None => "" end.

(** [blocks?.[0]?.plain_text] *)
Definition first_plain_text (blocks : list RichText) : option string :=
  match blocks with
  | b :: _ => plain_text b
  | [] => None
  end.

(** A parser reads the key of its own type; on a property stored under
    another key that key is [undefined]. *)
Module PropertyParsers.

Definition title (property : Property) : string :=
  match property with
  | P_title blocks => or_empty (first_plain_text blocks)
  | _ => ""
  end.

Definition rich_text (property : Property) : string :=
  match property with
  | P_rich_text blocks => or_empty (first_plain_text blocks)
  | _ => ""
  end.

Definition url (property : Property) : string :=
  match property with P_url u => or_empty u | _ => "" end.

Definition number (property : Property) : NumberValue :=
  match property with
  | P_number (Some x) => Num x
  | P_number None => NumText ""
  | _ => NumUndefined
  end.

Definition checkbox (property : Property) : bool :=
  match property with P_checkbox b => b | _ => false end.

Definition select (property : Property) : string :=
  match property with P_select n => or_empty n | _ => "" end.

Definition multi_select (property : Property) : list string :=
  match property with P_multi_select names => names | _ => [] end.

Definition date (property : Property) : string :=
  match property with P_date d => or_empty d | _ => "" end.

Definition email (property : Property) : string :=
  match property with P_email e => or_empty e | _ => "" end.

Definition phone_number (property : Property) : string :=
  match property with P_phone_number p => or_empty p | _ => "" end.

Definition status (property : Property) : string :=
  match property with P_status n => or_empty n | _ => "" end.

End PropertyParsers.

(** [PropertyParsers[type](property)] *)
Definition parse (ty : ColumnType) : Property -> FormValue ty :=
  match ty with
  | title => PropertyParsers.title
  | rich_text => PropertyParsers.rich_text
  | url => PropertyParsers.url
  | number => PropertyParsers.number
  | checkbox => PropertyParsers.checkbox
  | select => PropertyParsers.select
  | multi_select => PropertyParsers.multi_select
  | date => PropertyParsers.date
  | email => PropertyParsers.email
  | phone_number => PropertyParsers.phone_number
  | status => PropertyParsers.status
  end.

(** Not part of the script, but what its parsers rely on: the store
    answers with rich-text objects that carry, as [plain_text], the content
    they were sent. *)
Definition stored_block (b : RichText) : RichText :=
  {| text_content := text_content b; plain_text := text_content b |}.

Definition stored (property : Property) : Property :=
  match property with
  | P_title blocks => P_title (map stored_block blocks)
  | P_rich_text blocks => P_rich_text (map stored_block blocks)
  | _ => property
  end.

(** The content of all blocks, in order. *)
Definition block_content (b : RichText) : string :=
  match text_content b with Some c => c | None => "" end.

Definition blocks_of (property : Property) : list RichText :=
  match property with
  | P_title blocks | P_rich_text blocks => blocks
  | _ => []
  end.

Definition concat_content (blocks : list RichText) : string :=
  foldr (fun b acc => block_content b +:+ acc) "" blocks.

(** A block with a content of at most [max] code units. *)
Definition block_fits (max : nat) (b : RichText) : Prop :=
  exists c, text_content b = Some c /\ String.length c <= max.

(** The form values that come back unchanged when they are formatted,
    stored and parsed: any string for the text-like types other than
    rich text, a string of at most 2000 code units for rich text, any
    boolean, any list of names, and for a number the empty input or a
    number other than negative zero. *)
Definition round_trips (ty : ColumnType) : FormValue ty -> Prop :=
  match ty return FormValue ty -> Prop with
  | rich_text => fun s => String.length s <= MAX_CHARS
  | number => fun v =>
      match v with
      | NumText s => s = ""
      | Num x => parseFloat_number x = x
      | NumNull | NumUndefined => False
      end
  | _ => fun _ => True
  end.

Fixpoint repeat_unit (c : ascii) (n : nat) : string :=
  match n with
  | O => EmptyString
  | S n' => String c (repeat_unit c n')
  end.

(** A text of 2001 code units. *)
Definition long_text : string := repeat_unit "a" 2001.

End NotionApi.

(* ===================================================================== *)
(** * The popup script: data *)
(* ===================================================================== *)

Module Popup.
Import JsString JsNumber JsRegExp Dom NotionApi.

(** One allowed option of a select, status or multi-select column. *)
Record SelectOption : Type := { name : string; color : string }.

(** A column of the database schema of a supported type (a column of any
    other type is rendered and parsed nowhere); [options] is
    [property.select?.options] (or [status], [multi_select]). *)
Record SchemaProperty : Type := {
  type : ColumnType;
  options : option (list SelectOption)
}.

(** What the page extraction hands to the popup; a missing field is the
    empty string. *)
Record TabInfo : Type := {
  tab_url : string;
  tab_title : string;
  roleName : string;
  companyName : string;
  location : string;
  selectedText : string
}.

(** A value of [existingPageData], as [parseNotionPage] stores it. *)
Inductive Parsed : Type :=
| ParsedText (s : string)
| ParsedBool (b : bool)
| ParsedList (l : list string)
| ParsedNumber (v : NumberValue).

Definition parsed_of (ty : ColumnType) : FormValue ty -> Parsed :=
  match ty with
  | checkbox => ParsedBool
  | multi_select => ParsedList
  | number => ParsedNumber
  | _ => ParsedText
  end.

(** [parseNotionPage(page, schema)]: every property of the page whose
    name is a column of the schema is parsed with the parser of the
    column's type; [values[name] = ...] keeps nothing under the name
    [__proto__]. *)
Definition parseNotionPage (page : gmap string Property)
    (schema : gmap string SchemaProperty) : gmap string Parsed :=
  delete "__proto__"
    (merge (fun property schemaProperty =>
              match property, schemaProperty with
              | Some p, Some sp => Some (parsed_of (type sp) (parse (type sp) p))
              | _, _ => None
              end)
           page schema).

(** A form group, as far as the script reads and writes it: the two data
    attributes and the results of the queries made inside the group. *)
Record FormGroup : Type := {
  propertyName : string;                 (* dataset.propertyName *)
  propertyType : ColumnType;             (* dataset.propertyType *)
  field_value : option string;           (* querySelector('input, textarea, select')?.value *)
  checkbox_checked : option bool;        (* querySelector('input[type="checkbox"]')?.checked *)
  hidden_values : option (list string);  (* the list kept as JSON in input[type="hidden"] *)
  select_options : option (list string); (* the option values of the select element *)
  tags : list (string * bool)            (* .tag.selectable: data-value, selected or not *)
}.

Definition text_group (n : string) (ty : ColumnType) (value : string) : FormGroup :=
  {| propertyName := n; propertyType := ty; field_value := Some value;
     checkbox_checked := None; hidden_values := None;
     select_options := None; tags := [] |}.

Definition select_group (n : string) (ty : ColumnType) (opts : list string)
    (value : string) : FormGroup :=
  {| propertyName := n; propertyType := ty; field_value := Some value;
     checkbox_checked := None; hidden_values := None;
     select_options := Some opts; tags := [] |}.

Definition checkbox_group (n : string) (checked : bool) : FormGroup :=
  {| propertyName := n; propertyType := checkbox; field_value := Some "on";
     checkbox_checked := Some checked; hidden_values := None;
     select_options := None; tags := [] |}.

(** A tag picker with its tags and the list kept in the hidden input (whose
    JSON text, which no query of the script reads as a plain value, is left
    out of [field_value]). *)
Definition tags_group (n : string) (ts : list (string * bool))
    (selected : list string) : FormGroup :=
  {| propertyName := n; propertyType := multi_select; field_value := None;
     checkbox_checked := None; hidden_values := Some selected;
     select_options := None; tags := ts |}.

(** [select.value = v]: the first option with that value becomes the
    selected one; with no such option nothing is selected and the value
    reads as ['']. *)
Definition assign_select (opts : list string) (v : string) : string :=
  if existsb (String.eqb v) opts then v else "".

(** An option of the given name, with the default colour. *)
Definition option_named (n : string) : SelectOption :=
  {| name := n; color := "default" |}.

(* =================================================================== *)
(** * Field-name heuristics *)
(* =================================================================== *)

Definition isLocationField (n : string) : bool :=
  let lowercaseName := toLowerCase n in
  includes lowercaseName "location" || includes lowercaseName "where"
  || includes lowercaseName "city" || includes lowercaseName "place".

Definition isCompanyField (n : string) : bool :=
  let lowercaseName := toLowerCase n in
  String.eqb lowercaseName "company" || String.eqb lowercaseName "company name"
  || includes lowercaseName "company"
  || String.eqb lowercaseName "organization" || String.eqb lowercaseName "employer".

Definition isCompanyNameField (n : string) : bool :=
  let lowercaseName := toLowerCase n in
  if includes lowercaseName "summary" || includes lowercaseName "description"
     || includes lowercaseName "about"
  then false
  else String.eqb lowercaseName "company" || String.eqb lowercaseName "company name"
       || String.eqb lowercaseName "organization" || String.eqb lowercaseName "employer".

Definition isRawJdField (n : string) : bool :=
  let lowercaseName := toLowerCase n in
  String.eqb lowercaseName "raw jd" || String.eqb lowercaseName "raw_jd"
  || String.eqb lowercaseName "rawjd"
  || String.eqb lowercaseName "raw job description"
  || String.eqb lowercaseName "raw_job_description"
  || includes lowercaseName "raw jd" || includes lowercaseName "raw_jd".

Definition isRoleField (n : string) : bool :=
  let lowercaseName := toLowerCase n in
  String.eqb lowercaseName "role" || String.eqb lowercaseName "role name"
  || String.eqb lowercaseName "job title" || String.eqb lowercaseName "position"
  || String.eqb lowercaseName "title"
  || includes lowercaseName "job title" || includes lowercaseName "position".

(* =================================================================== *)
(** * findBestLocationMatch *)
(* =================================================================== *)

(** [for (const option of options) if (p(option)) return option.name] *)
Definition first_option (p : SelectOption -> bool) (opts : list SelectOption)
    : option string :=
  name <$> List.find p opts.

(** [kw(?!\w)] *)
Definition not_in_word (kw : string) : regex := Cat (Lit kw) (NotAhead is_word).

(** The table of step 5; every pattern carries the [i] flag. *)
Definition cityStatePatterns : list (regex * list string) :=
  [ (* /san francisco|sf|bay area/i *)
    (Alt (Lit "san francisco") (Alt (Lit "sf") (Lit "bay area")),
     ["san francisco"; "sf"; "bay area"]);
    (* /new york|nyc|ny(?!\w)/i *)
    (Alt (Lit "new york") (Alt (Lit "nyc") (not_in_word "ny")),
     ["new york"; "nyc"; "ny"]);
    (* /los angeles|la(?!\w)/i *)
    (Alt (Lit "los angeles") (not_in_word "la"), ["los angeles"; "la"]);
    (* /washington.*dc|dc(?!\w)/i *)
    (Alt (Cat (Lit "washington") (Cat (StarChr is_dot) (Lit "dc")))
         (not_in_word "dc"),
     ["washington"; "dc"]);
    (* /boston|ma(?!\w)/i *)
    (Alt (Lit "boston") (not_in_word "ma"), ["boston"; "ma"]);
    (* /chicago|il(?!\w)/i *)
    (Alt (Lit "chicago") (not_in_word "il"), ["chicago"; "il"]);
    (* /seattle|wa(?!\w)/i *)
    (Alt (Lit "seattle") (not_in_word "wa"), ["seattle"; "wa"]);
    (* /austin|tx(?!\w)/i *)
    (Alt (Lit "austin") (not_in_word "tx"), ["austin"; "tx"]);
    (* /denver|co(?!\w)/i *)
    (Alt (Lit "denver") (not_in_word "co"), ["denver"; "co"]) ].

(** Step 5: the families in table order; a family whose pattern matches
    but whose keywords no option contains lets the next family try. *)
Fixpoint match_patterns (table : list (regex * list string)) (loc : string)
    (opts : list SelectOption) : option string :=
  match table with
  | [] => None
  | (pattern, keywords) :: rest =>
      if test true pattern loc
      then match first_option
                   (fun o => existsb (fun keyword => includes (toLowerCase (name o)) keyword)
                                     keywords)
                   opts with
           | Some n => Some n
           | None => match_patterns rest loc opts
           end
      else match_patterns rest loc opts
  end.

(** [/,\s*([A-Z]{2})\b/] *)
Definition stateRegex : regex :=
  Cat (Lit ",")
    (Cat (StarChr is_space)
       (Cat (Group (Cat (Chr is_upper_az) (Chr is_upper_az))) WordB)).

(** Step 6, on the lower-cased location as the script does. *)
Definition match_state (loc : string) (opts : list SelectOption) : option string :=
  match match_groups false stateRegex loc with
  | Some (st :: _) =>
      let state := toLowerCase st in
      first_option (fun o => includes (toLowerCase (name o)) state) opts
  | _ => None
  end.

Definition findBestLocationMatch (extractedLocation : string)
    (opts : list SelectOption) : option string :=
  if negb (truthy extractedLocation) || Nat.eqb (length opts) 0 then None
  else
    let loc := trim (toLowerCase extractedLocation) in
    (* 1. exact match *)
    match first_option (fun o => String.eqb (toLowerCase (name o)) loc) opts with
    | Some n => Some n
    | None =>
    (* 2. the option contains the extracted location *)
    match first_option (fun o => includes (toLowerCase (name o)) loc) opts with
    | Some n => Some n
    | None =>
    (* 3. the extracted location contains the option *)
    match first_option (fun o => includes loc (toLowerCase (name o))) opts with
    | Some n => Some n
    | None =>
    (* 4. remote *)
    match (if includes loc "remote"
           then first_option (fun o => includes (toLowerCase (name o)) "remote") opts
           else None) with
    | Some n => Some n
    | None =>
    (* 5. city and state families *)
    match match_patterns cityStatePatterns loc opts with
    | Some n => Some n
    | None =>
    (* 6. state abbreviation *)
    match_state loc opts
    end end end end end.

(** The matcher as section 4.3 of the specification words it, step by
    step in the order given there: (1) equality, (2) the option name is
    a substring of the free text, (3) the free text is a substring of an
    option name, (4) remote, (5) keyword families, (6) a [", XX"] state
    code of the free text, (7) no match. *)
Definition match_as_documented (freeText : string) (opts : list SelectOption)
    : option string :=
  if negb (truthy freeText) || Nat.eqb (length opts) 0 then None
  else
    let text := trim (toLowerCase freeText) in
    match first_option (fun o => String.eqb (toLowerCase (name o)) text) opts with
    | Some n => Some n
    | None =>
    match first_option (fun o => includes text (toLowerCase (name o))) opts with
    | Some n => Some n
    | None =>
    match first_option (fun o => includes (toLowerCase (name o)) text) opts with
    | Some n => Some n
    | None =>
    match (if includes text "remote"
           then first_option (fun o => includes (toLowerCase (name o)) "remote") opts
           else None) with
    | Some n => Some n
    | None =>
    match match_patterns cityStatePatterns text opts with
    | Some n => Some n
    | None =>
    match match_groups false stateRegex (trim freeText) with
    | Some (st :: _) =>
        first_option (fun o => includes (toLowerCase (name o)) (toLowerCase st)) opts
    | _ => None
    end end end end end end.

(** The order as it is in the script, worded as a list of strategies of
    which the first that answers wins.  A strategy is given the free text,
    lower-cased and trimmed, and the options. *)
Definition Strategy : Type := string -> list SelectOption -> option string.

(** The name of the first option, in the order of the list, whose
    lower-cased name passes a test. *)
Fixpoint first_named (passes : string -> bool) (opts : list SelectOption)
    : option string :=
  match opts with
  | [] => None
  | o :: rest =>
      if passes (toLowerCase (name o)) then Some (name o) else first_named passes rest
  end.

(** An option name equal to the free text. *)
Definition exact_match : Strategy :=
  fun text => first_named (fun lower => String.eqb lower text).

(** An option name that contains the free text. *)
Definition option_contains_text : Strategy :=
  fun text => first_named (fun lower => includes lower text).

(** An option name contained in the free text. *)
Definition text_contains_option : Strategy :=
  fun text => first_named (fun lower => includes text lower).

(** A free text that mentions [remote] and an option name that does. *)
Definition remote_rule : Strategy :=
  fun text opts =>
    if includes text "remote"
    then first_named (fun lower => includes lower "remote") opts
    else None.

(** One keyword family: its pattern is found in the free text and an
    option name contains one of its keywords. *)
Definition keyword_family (family : regex * list string) : Strategy :=
  fun text opts =>
    if test true (fst family) text
    then first_named
           (fun lower => existsb (fun keyword => includes lower keyword) (snd family))
           opts
    else None.

(** A state code after a comma in the text it is given, and an option name
    that contains it in lower case. *)
Definition state_code : Strategy :=
  fun text opts =>
    match match_groups false stateRegex text with
    | Some (st :: _) => first_named (fun lower => includes lower (toLowerCase st)) opts
    | _ => None
    end.

(** The first answer of a list of strategies, tried in the order of the
    list. *)
Fixpoint first_hit (strategies : list Strategy) (text : string)
    (opts : list SelectOption) : option string :=
  match strategies with
  | [] => None
  | strategy :: rest =>
      match strategy text opts with
      | Some n => Some n
      | None => first_hit rest text opts
      end
  end.

(** The six steps in the order of the script; the families of the fifth
    step are tried in the order of their table. *)
Definition steps_in_order : list Strategy :=
  [exact_match; option_contains_text; text_contains_option; remote_rule]
  ++ map keyword_family cityStatePatterns
  ++ [state_code].

Definition match_in_order (strategies : list Strategy) (freeText : string)
    (opts : list SelectOption) : option string :=
  if negb (truthy freeText) || Nat.eqb (length opts) 0 then None
  else first_hit strategies (trim (toLowerCase freeText)) opts.

(* =================================================================== *)
(** * Field renderers *)
(* =================================================================== *)

(** Zero and [NaN] are the falsy numbers. *)
Definition truthy_num (x : num) : bool :=
  match x with
  | NaN => false
  | Finite _ 0%N _ => false
  | _ => true
  end.

Definition truthy_parsed (x : Parsed) : bool :=
  match x with
  | ParsedText s => truthy s
  | ParsedBool b => b
  | ParsedList _ => true
  | ParsedNumber (Num n) => truthy_num n
  | ParsedNumber (NumText s) => truthy s
  | ParsedNumber _ => false
  end.

(** [existingData && existingData[name]]; [None] when falsy on either
    side of the [&&] for want of an object or of the key. *)
Definition existing_entry (existingData : option (gmap string Parsed))
    (n : string) : option Parsed :=
  existingData ≫= (fun values => values !! n).

Definition has_existing (existingData : option (gmap string Parsed))
    (n : string) : bool :=
  match existing_entry existingData n with
  | Some x => truthy_parsed x
  | None => false
  end.

(** [label.innerHTML] takes the name of the column as markup: a name
    without [<] adds no element to the group, and the control the renderer
    creates is the first one in it. *)
Definition no_markup (n : string) : Prop :=
  all_units (fun c => negb (Ascii.eqb c "<")) n = true.

Section Rendering.

(** How a number prints when it is assigned to the value of an input;
    left open. *)
Variable number_text : NumberValue -> string.

(** [input.value = x] stores [String(x)]. *)
Definition input_text (x : Parsed) : string :=
  match x with
  | ParsedText s => s
  | ParsedBool b => if b then "true" else "false"
  | ParsedList l => String.concat "," l
  | ParsedNumber v => number_text v
  end.

(** [(existingData && existingData[name]) || defaultValue] *)
Definition existing_or (existingData : option (gmap string Parsed))
    (n : string) (defaultValue : string) : string :=
  match existing_entry existingData n with
  | Some x => if truthy_parsed x then input_text x else defaultValue
  | None => defaultValue
  end.

Definition renderTitleField (n : string) (tab : TabInfo)
    (existingData : option (gmap string Parsed)) : FormGroup :=
  let defaultValue := or_else (tab_title tab) "" in
  let defaultValue :=
    if negb (has_existing existingData n)
    then if isRoleField n && truthy (roleName tab) then roleName tab
         else if isCompanyNameField n && truthy (companyName tab) then companyName tab
         else defaultValue
    else defaultValue in
  text_group n title (sanitize TextInput (existing_or existingData n defaultValue)).

(** The control of a rich-text field: an [input] of type [text] for a
    company-name column, a [textarea] otherwise. *)
Definition rich_text_control (n : string) : Control :=
  if isCompanyNameField n then TextInput else TextArea.

Definition renderRichTextField (n : string) (tabInfo : TabInfo)
    (existingData : option (gmap string Parsed)) : FormGroup :=
  let isCompanyName := isCompanyNameField n in
  let isRawJd := isRawJdField n in
  let defaultValue :=
    if negb (has_existing existingData n)
    then if isRoleField n && truthy (roleName tabInfo) then roleName tabInfo
         else if isCompanyName && truthy (companyName tabInfo) then companyName tabInfo
         else if isRawJd && truthy (selectedText tabInfo) then selectedText tabInfo
         else ""
    else "" in
  text_group n rich_text
    (sanitize (rich_text_control n) (existing_or existingData n defaultValue)).

Definition renderUrlField (n : string) (tab : TabInfo)
    (existingData : option (gmap string Parsed)) : FormGroup :=
  text_group n url
    (sanitize UrlInput (existing_or existingData n (or_else (tab_url tab) ""))).

(** [existingData[name] !== undefined && existingData[name] !== ''] *)
Definition is_set (x : Parsed) : bool :=
  match x with
  | ParsedText s => truthy s
  | ParsedNumber NumUndefined => false
  | ParsedNumber (NumText s) => truthy s
  | _ => true
  end.

Definition renderNumberField (n : string)
    (existingData : option (gmap string Parsed)) : FormGroup :=
  text_group n number
    match existing_entry existingData n with
    | Some x => if is_set x then sanitize NumberInput (input_text x) else ""
    | None => ""
    end.

(** [checkbox.checked = existingData[name]] keeps whether the value is
    truthy; a value that is [undefined] is not assigned, and not truthy
    either. *)
Definition renderCheckboxField (n : string)
    (existingData : option (gmap string Parsed)) : FormGroup :=
  checkbox_group n
    match existing_entry existingData n with
    | Some x => truthy_parsed x
    | None => false
    end.

(** [(existingData && existingData[name]) || []]: the list of an existing
    entry, the empty list for no entry or a falsy one.  For a truthy
    value that is no list (the parser of a multi-select column gives none)
    [new Set] and the hidden input hold no list of names: [None]. *)
Definition existingValues (existingData : option (gmap string Parsed))
    (n : string) : option (list string) :=
  match existing_entry existingData n with
  | Some (ParsedList l) => Some l
  | Some x => if truthy_parsed x then None else Some []
  | None => Some []
  end.

Definition renderMultiSelectField (n : string) (property : SchemaProperty)
    (existingData : option (gmap string Parsed)) : option FormGroup :=
  match existingValues existingData n with
  | Some existing =>
      let optionNames := match options property with
                         | Some opts => map name opts
                         | None => []
                         end in
      Some (tags_group n
              (map (fun v => (v, existsb (String.eqb v) existing)) optionNames)
              existing)
  | None => None
  end.

Section Dates.

(** [new Date(value)] followed by [toISOString().split('T')[0]];
    [None] for an invalid date.  Left open. *)
Variable iso_date : string -> option string.

(** The date field: a truthy existing text is read as a date and put in
    as its ISO date, or as it stands when it is no date; the control keeps
    it when it is a valid date string.  For a truthy value that is no text
    (the parser of a date column gives none) the date is not modelled:
    [None]. *)
Definition renderDateField (n : string)
    (existingData : option (gmap string Parsed)) : option FormGroup :=
  match existing_entry existingData n with
  | Some (ParsedText dateValue) =>
      Some (text_group n date
              (if truthy dateValue
               then sanitize DateInput
                      match iso_date dateValue with
                      | Some d => d
                      | None => dateValue
                      end
               else ""))
  | Some x => if truthy_parsed x then None else Some (text_group n date "")
  | None => Some (text_group n date "")
  end.

End Dates.

Definition renderEmailField (n : string)
    (existingData : option (gmap string Parsed)) : FormGroup :=
  text_group n email (sanitize EmailInput (existing_or existingData n "")).

Definition renderPhoneField (n : string)
    (existingData : option (gmap string Parsed)) : FormGroup :=
  text_group n phone_number (sanitize TelInput (existing_or existingData n "")).

(** The body shared by [renderSelectField] and [renderStatusField]:
    the empty option, the options of the schema, then the value to
    set, if any. *)
Definition render_choice (ty : ColumnType) (n : string) (property : SchemaProperty)
    (tabInfo : TabInfo) (existingData : option (gmap string Parsed)) : FormGroup :=
  let optionValues :=
    "" :: match options property with
          | Some opts => map name opts
          | None => []
          end in
  let valueToSet : option string :=
    if has_existing existingData n
    then input_text <$> existing_entry existingData n
    else
      match options property with
      | Some opts =>
          if isLocationField n && truthy (location tabInfo)
          then findBestLocationMatch (location tabInfo) opts
          else if isCompanyField n && truthy (companyName tabInfo)
          then first_option
                 (fun opt => String.eqb (toLowerCase (name opt))
                               (toLowerCase (companyName tabInfo)))
                 opts
          else None
      | None => None
      end in
  select_group n ty optionValues
    match valueToSet with
    | Some v => if truthy v then assign_select optionValues v else ""
    | None => ""
    end.

Definition renderSelectField := render_choice select.

Definition renderStatusField := render_choice status.

End Rendering.

(* =================================================================== *)
(** * getFieldValue and buildPayload *)
(* =================================================================== *)

(** [getFieldValue(group, type)] *)
Definition getFieldValue (group : FormGroup) (ty : ColumnType) : FormValue ty :=
  match ty return FormValue ty with
  | checkbox =>
      match checkbox_checked group with Some b => b | None => false end
  | multi_select =>
      match hidden_values group with Some l => l | None => [] end
  | number =>
      match field_value group with
      | Some "" => NumNull
      | Some val => Num (parseFloat val)
      | None => Num NaN
      end
  | _ =>
      match field_value group with Some v => or_else v "" | None => "" end
  end.

(** [value !== '' && value !== null && value !== undefined] *)
Definition has_value (ty : ColumnType) : FormValue ty -> bool :=
  match ty return FormValue ty -> bool with
  | checkbox => fun _ => true
  | multi_select => fun _ => true
  | number => fun v =>
      match v with
      | Num _ => true
      | NumText s => truthy s
      | NumNull | NumUndefined => false
      end
  | _ => fun v => truthy v
  end.

(** What one group contributes: the formatted value when there is one,
    the placeholder title for a title without one, nothing otherwise. *)
Definition payload_entry (ty : ColumnType) (value : FormValue ty) : option Property :=
  if has_value ty value then Some (format ty value)
  else
    match ty return FormValue ty -> option Property with
    | title => fun v => Some (PropertyFormatters.title (or_else v "Untitled"))
    | _ => fun _ => None
    end value.

(** [properties[name] = value]: the key is written, except that the
    assignment to [__proto__] creates no key. *)
Definition assign (n : string) (p : Property) (properties : gmap string Property)
    : gmap string Property :=
  if String.eqb n "__proto__" then properties else <[n := p]> properties.

Definition add_group (hiddenFields : gset string)
    (properties : gmap string Property) (group : FormGroup) : gmap string Property :=
  let n := propertyName group in
  if decide (n ∈ hiddenFields) then properties
  else
    let ty := propertyType group in
    match payload_entry ty (getFieldValue group ty) with
    | Some p => assign n p properties
    | None => properties
    end.

(** [buildPayload()] over the groups of the form, in document order. *)
Definition buildPayload (hiddenFields : gset string) (formGroups : list FormGroup)
    : gmap string Property :=
  foldl (add_group hiddenFields) ∅ formGroups.

(* =================================================================== *)
(** * fillFormField *)
(* =================================================================== *)

Definition with_field_value (g : FormGroup) (v : string) : FormGroup :=
  {| propertyName := propertyName g; propertyType := propertyType g;
     field_value := Some v; checkbox_checked := checkbox_checked g;
     hidden_values := hidden_values g; select_options := select_options g;
     tags := tags g |}.

Definition with_checked (g : FormGroup) (b : bool) : FormGroup :=
  {| propertyName := propertyName g; propertyType := propertyType g;
     field_value := field_value g; checkbox_checked := Some b;
     hidden_values := hidden_values g; select_options := select_options g;
     tags := tags g |}.

Definition with_tags (g : FormGroup) (ts : list (string * bool))
    (hidden : option (list string)) : FormGroup :=
  {| propertyName := propertyName g; propertyType := propertyType g;
     field_value := field_value g; checkbox_checked := checkbox_checked g;
     hidden_values := hidden; select_options := select_options g;
     tags := ts |}.

(** [a.toLowerCase() === b.toLowerCase()] *)
Definition same_ignoring_case (a b : string) : bool :=
  String.eqb (toLowerCase a) (toLowerCase b).

(** The control of a group that takes a text: the one the renderer of
    the type creates. *)
Definition text_control (ty : ColumnType) (n : string) : Control :=
  match ty with
  | rich_text => rich_text_control n
  | url => UrlInput
  | email => EmailInput
  | phone_number => TelInput
  | number => NumberInput
  | date => DateInput
  | _ => TextInput
  end.

(** A value of the object the answer of the AI is parsed into. *)
#[warnings="-register-all"]
Inductive JsValue : Type :=
| JString (s : string)
| JNumber (x : num)
| JBool (b : bool)
| JNull
| JArray (items : list JsValue)
| JObject.

Definition truthy_value (v : JsValue) : bool :=
  match v with
  | JString s => truthy s
  | JNumber x => truthy_num x
  | JBool b => b
  | JNull => false
  | JArray _ | JObject => true
  end.

(** How a call ends: it returns whether the field was filled, or it
    throws. *)
Inductive Completion : Type :=
| Returned (filled : bool)
| Thrown.

(** What [querySelector] finds for the selector built from a field name:
    the form group at an index, nothing (or an element that is no form
    group), or no answer because the selector is no selector. *)
Inductive Lookup : Type :=
| Found (index : nat)
| NotFound
| BadSelector.

(** The units that a quoted string of a selector does not take as they
    stand: the quote, the backslash, LF, FF, CR and NUL. *)
Definition is_selector_special (c : ascii) : bool :=
  Nat.eqb (code c) 34 || Nat.eqb (code c) 92 || Nat.eqb (code c) 10
  || Nat.eqb (code c) 12 || Nat.eqb (code c) 13 || Nat.eqb (code c) 0.

Definition plain_selector (fieldName : string) : bool :=
  all_units (fun c => negb (is_selector_special c)) fieldName.

(** The index of the first group of the name. *)
Fixpoint index_of (fieldName : string) (formFields : list FormGroup) : option nat :=
  match formFields with
  | [] => None
  | group :: rest =>
      if String.eqb (propertyName group) fieldName then Some 0
      else S <$> index_of fieldName rest
  end.

(** [values.some(v => v.toLowerCase() === tagValue.toLowerCase())]:
    [None] when a value that is no string is reached, on which
    [toLowerCase] is no function. *)
Fixpoint some_matches (values : list JsValue) (tagValue : string) : option bool :=
  match values with
  | [] => Some false
  | JString s :: rest =>
      if same_ignoring_case s tagValue then Some true
      else some_matches rest tagValue
  | _ :: _ => None
  end.

(** [tags.forEach(...)]: the tags afterwards and whether any was
    selected, [None] when the loop was left by a throw (the tags before
    the one it was thrown at have been dealt with). *)
Fixpoint select_tags (values : list JsValue) (ts : list (string * bool))
    : list (string * bool) * option bool :=
  match ts with
  | [] => ([], Some false)
  | t :: rest =>
      match some_matches values (fst t) with
      | None => (ts, None)
      | Some shouldSelect =>
          let '(rest', filled) := select_tags values rest in
          ((fst t, snd t || shouldSelect) :: rest', orb shouldSelect <$> filled)
      end
  end.

(** The [multi_select] case of [fillFormField], for values of any
    kind. *)
Definition fill_tags_with (group : FormGroup) (values : list JsValue)
    : FormGroup * Completion :=
  let '(ts, completion) := select_tags values (tags group) in
  match completion with
  | None => (with_tags group ts (hidden_values group), Thrown)
  | Some filled =>
      let hidden :=
        match hidden_values group with
        | Some old => if filled then Some (map fst (filter (fun t => snd t = true) ts))
                      else Some old
        | None => None
        end in
      (with_tags group ts hidden, Returned filled)
  end.

Section Fill.

(** [new Date(value)] followed by [toISOString().split('T')[0]];
    [None] for an invalid date.  Left open. *)
Variable iso_date : string -> option string.

(** The [switch] of [fillFormField] on one group, for a string
    [value]: the group afterwards and whether it counts as filled. *)
Definition fill_group (group : FormGroup) (value : string) : FormGroup * bool :=
  match propertyType group with
  | title | rich_text | url | email | phone_number =>
      match field_value group with
      | Some _ =>
          if truthy value
          then (with_field_value group
                  (sanitize (text_control (propertyType group) (propertyName group))
                     value),
                true)
          else (group, false)
      | None => (group, false)
      end
  | number =>
      match field_value group with
      | Some _ => (with_field_value group (sanitize NumberInput value), true)
      | None => (group, false)
      end
  | date =>
      match field_value group with
      | Some _ =>
          if truthy value
          then match iso_date value with
               | Some d => (with_field_value group (sanitize DateInput d), true)
               | None => (group, false)
               end
          else (group, false)
      | None => (group, false)
      end
  | checkbox =>
      match checkbox_checked group with
      | Some _ => (with_checked group (truthy value), true)
      | None => (group, false)
      end
  | select | status =>
      match select_options group with
      | Some opts =>
          if truthy value
          then match List.find (fun opt => same_ignoring_case opt value) opts with
               | Some m => (with_field_value group (assign_select opts m), true)
               | None => (group, false)
               end
          else (group, false)
      | None => (group, false)
      end
  | multi_select =>
      let shouldSelect (tagValue : string) := same_ignoring_case value tagValue in
      let filled := existsb (fun t => shouldSelect (fst t)) (tags group) in
      let ts := map (fun t => (fst t, snd t || shouldSelect (fst t))) (tags group) in
      let hidden :=
        match hidden_values group with
        | Some old => if filled then Some (map fst (filter (fun t => snd t = true) ts))
                      else Some old
        | None => None
        end in
      (with_tags group ts hidden, filled)
  end.

(** [String(value)] and the ISO date of [new Date(value)] for a value
    that is no string.  Left open. *)
Variable to_text : JsValue -> string.
Variable to_date : JsValue -> option string.

(** The [switch] of [fillFormField] on one group, for a value of any
    kind: a string goes through it as above; of the other values, a truthy
    one is put into a text control and the call then throws on
    [value.substring], one offered to a drop-down with options throws on
    [value.toLowerCase], and a list is matched against the tags value by
    value. *)
Definition fill_value (group : FormGroup) (value : JsValue) : FormGroup * Completion :=
  match value with
  | JString s => let '(group', filled) := fill_group group s in (group', Returned filled)
  | _ =>
      match propertyType group with
      | title | rich_text | url | email | phone_number =>
          match field_value group with
          | Some _ =>
              if truthy_value value
              then (with_field_value group
                      (sanitize (text_control (propertyType group) (propertyName group))
                         (to_text value)),
                    Thrown)
              else (group, Returned false)
          | None => (group, Returned false)
          end
      | number =>
          match field_value group, value with
          | Some _, JNull => (group, Returned false)
          | Some _, _ =>
              (with_field_value group (sanitize NumberInput (to_text value)),
               Returned true)
          | None, _ => (group, Returned false)
          end
      | date =>
          match field_value group with
          | Some _ =>
              if truthy_value value
              then match to_date value with
                   | Some d =>
                       (with_field_value group (sanitize DateInput d), Returned true)
                   | None => (group, Returned false)
                   end
              else (group, Returned false)
          | None => (group, Returned false)
          end
      | checkbox =>
          match checkbox_checked group with
          | Some _ => (with_checked group (truthy_value value), Returned true)
          | None => (group, Returned false)
          end
      | select | status =>
          match select_options group with
          | Some (_ :: _) =>
              if truthy_value value then (group, Thrown) else (group, Returned false)
          | _ => (group, Returned false)
          end
      | multi_select =>
          fill_tags_with group
            match value with
            | JArray items => items
            | _ => [value]
            end
      end
  end.

(** What the selector engine answers for a field name that the quoted
    string of the selector does not take as it stands, on the names of the
    groups of the form.  Left open. *)
Variable css_query : string -> list string -> Lookup.

(** [formFields.querySelector('.form-group[data-property-name="..."]')] *)
Definition querySelector (formFields : list FormGroup) (fieldName : string) : Lookup :=
  if plain_selector fieldName
  then match index_of fieldName formFields with
       | Some i => Found i
       | None => NotFound
       end
  else css_query fieldName (propertyName <$> formFields).

(** [fillFormField(fieldName, value)] on the groups of the form: the
    groups afterwards and how the call ends. *)
Definition fillFormField (formFields : list FormGroup) (fieldName : string)
    (value : JsValue) : list FormGroup * Completion :=
  match querySelector formFields fieldName with
  | Found i =>
      match formFields !! i with
      | Some group =>
          let '(group', completion) := fill_value group value in
          (<[i := group']> formFields, completion)
      | None => (formFields, Returned false)
      end
  | NotFound => (formFields, Returned false)
  | BadSelector => (formFields, Thrown)
  end.

End Fill.

(* =================================================================== *)
(** * Saving: handleSubmit and handleBackgroundSave *)
(* =================================================================== *)

Inductive ApiCall : Type :=
| createPage (properties : gmap string Property)
| updatePage (pageId : string) (properties : gmap string Property).

(** The promise of a call: resolved with a page whose [id] is given, or
    rejected with a message. *)
Inductive Response : Type :=
| Resolved (id : string)
| Rejected (message : string).

Inductive Screen : Type := FormScreen | SuccessScreen.

(** The state of the popup that saving reads and writes. *)
Record Session : Type := {
  hiddenFields : gset string;
  formFields : list FormGroup;
  existingPageId : option string;   (* [None] is [null] *)
  screen : Screen;
  viewPageHref : string
}.

(** [if (existingPageId)] *)
Definition editing (s : Session) : option string :=
  match existingPageId s with
  | Some id => if truthy id then Some id else None
  | None => None
  end.

(** [id.replace(/-/g, '')] *)
Fixpoint without_dashes (id : string) : string :=
  match id with
  | EmptyString => EmptyString
  | String c t => if Ascii.eqb c "-" then without_dashes t else String c (without_dashes t)
  end.

Definition notion_url (id : string) : string :=
  "https://notion.so/" +:+ without_dashes id.

(** [showSuccess(pageUrl)] *)
Definition showSuccess (s : Session) (pageUrl : string) : Session :=
  {| hiddenFields := hiddenFields s; formFields := formFields s;
     existingPageId := existingPageId s;
     screen := SuccessScreen; viewPageHref := pageUrl |}.

Definition with_existingPageId (s : Session) (id : string) : Session :=
  {| hiddenFields := hiddenFields s; formFields := formFields s;
     existingPageId := Some id;
     screen := screen s; viewPageHref := viewPageHref s |}.

(** What a save leaves behind: the session, the calls made to the store
    in order, and the error shown, if any: for a call that the store
    rejects its message, which the alert of the submit and the toast of
    the background save show after a prefix of their own. *)
Record Outcome : Type := {
  session : Session;
  calls : list ApiCall;
  shown_error : option string
}.

Section Saving.

(** The store, answering each call. *)
Variable notionApi : ApiCall -> Response.

(** [handleSubmit(e)] *)
Definition handleSubmit (s : Session) : Outcome :=
  let properties := buildPayload (hiddenFields s) (formFields s) in
  match editing s with
  | Some id =>
      let call := updatePage id properties in
      match notionApi call with
      | Resolved _ =>
          {| session := showSuccess s (notion_url id);
             calls := [call]; shown_error := None |}
      | Rejected message =>
          {| session := s; calls := [call]; shown_error := Some message |}
      end
  | None =>
      let call := createPage properties in
      match notionApi call with
      | Resolved id =>
          {| session := showSuccess s (notion_url id);
             calls := [call]; shown_error := None |}
      | Rejected message =>
          {| session := s; calls := [call]; shown_error := Some message |}
      end
  end.

(** [handleBackgroundSave()] *)
Definition handleBackgroundSave (s : Session) : Outcome :=
  let properties := buildPayload (hiddenFields s) (formFields s) in
  match editing s with
  | Some id =>
      let call := updatePage id properties in
      match notionApi call with
      | Resolved _ => {| session := s; calls := [call]; shown_error := None |}
      | Rejected message =>
          {| session := s; calls := [call]; shown_error := Some message |}
      end
  | None =>
      let call := createPage properties in
      match notionApi call with
      | Resolved id =>
          {| session := with_existingPageId s id;
             calls := [call]; shown_error := None |}
      | Rejected message =>
          {| session := s; calls := [call]; shown_error := Some message |}
      end
  end.

(** A save followed by another on the session the first one left. *)
Definition twice (save : Session -> Outcome) (s : Session) : Outcome :=
  let first := save s in
  let second := save (session first) in
  {| session := session second;
     calls := calls first ++ calls second;
     shown_error := shown_error second |}.

(** The quick-save shortcut: the form is shown again if it was hidden,
    then the submit handler runs. *)
Definition showForm (s : Session) : Session :=
  {| hiddenFields := hiddenFields s; formFields := formFields s;
     existingPageId := existingPageId s;
     screen := FormScreen; viewPageHref := viewPageHref s |}.

Definition quickSave (s : Session) : Outcome :=
  handleSubmit (match screen s with SuccessScreen => showForm s | FormScreen => s end).

End Saving.

End Popup.

(* ===================================================================== *)
(** * Sample data for the examples *)
(* ===================================================================== *)

Module Samples.
Import JsString JsNumber NotionApi Popup.

Definition acme_tab : TabInfo :=
  {| tab_url := "https://jobs.acme.test/123";
     tab_title := "Backend Engineer | Acme | LinkedIn";
     roleName := "Backend Engineer";
     companyName := "Acme";
     location := "Remote - San Francisco Bay Area";
     selectedText := "" |}.

Definition status_column : SchemaProperty :=
  {| type := select;
     options := Some [option_named "To Review"; option_named "Applied"] |}.

Definition location_column : SchemaProperty :=
  {| type := select;
     options := Some [option_named "Remote"; option_named "San Francisco"] |}.

(** A schema with a title column named [Role], and a stored row whose
    title is empty. *)
Definition role_schema : gmap string SchemaProperty :=
  {[ "Role" := {| type := title; options := None |} ]}.

Definition untitled_row : gmap string Property :=
  {[ "Role" := P_title [] ]}.

(** A popup on a new entry, with one title field filled in. *)
Definition new_entry : Session :=
  {| hiddenFields := ∅;
     formFields := [text_group "Name" title "Backend Engineer"];
     existingPageId := None;
     screen := FormScreen;
     viewPageHref := "" |}.

(** A store that accepts every call: a created page gets the id
    [1f2e-77], an updated page keeps its own. *)
Definition accepting_store (call : ApiCall) : Response :=
  match call with
  | createPage _ => Resolved "1f2e-77"
  | updatePage id _ => Resolved id
  end.

(** Stand-ins for the two operations left open. *)
Definition no_number_text (v : NumberValue) : string := "".

Definition no_date (s : string) : option string := None.

End Samples.

(* ===================================================================== *)
(** * The popup script: which fields are shown, and in which order *)
(* ===================================================================== *)

Module FormLayout.
Import JsString NotionApi Popup.

(** The entries of [schema.properties] as [Object.entries] lists them: the
    name of a column and its type, [None] for a type that is none of the
    supported ones. *)
Definition Entry : Type := (string * option ColumnType)%type.

Definition TYPE_PRIORITY (ty : ColumnType) : nat :=
  match ty with
  | title => 1
  | url => 2
  | select => 3
  | status => 4
  | multi_select => 5
  | rich_text => 6
  | number => 7
  | date => 8
  | checkbox => 9
  | email => 10
  | phone_number => 11
  end.

(** [TYPE_PRIORITY[prop.type]], as a condition *)
Definition supported (e : Entry) : bool :=
  match snd e with Some _ => true | None => false end.

(** [TYPE_PRIORITY[prop.type] || 100] *)
Definition priority (e : Entry) : nat :=
  match snd e with Some ty => TYPE_PRIORITY ty | None => 100 end.

(** The order of the sort: [a] may come before [b]. *)
Definition by_priority (a b : Entry) : Prop := priority a <= priority b.

(** [list.sort((a, b) => priority(a) - priority(b))]: the sort is stable,
    so its result is the one of inserting each entry, last first, before
    the first entry that does not come before it. *)
Fixpoint insert_entry (x : Entry) (l : list Entry) : list Entry :=
  match l with
  | [] => [x]
  | y :: l' =>
      if Nat.leb (priority x) (priority y) then x :: y :: l'
      else y :: insert_entry x l'
  end.

Definition sort_entries (l : list Entry) : list Entry :=
  foldr insert_entry [] l.

(** [new Map(visibleProps)]: a later entry of a name replaces an earlier
    one. *)
Definition props_map (l : list Entry) : gmap string (option ColumnType) :=
  foldl (fun m e => <[fst e := snd e]> m) ∅ l.

(** The visible properties of [renderForm]: not hidden, and of a supported
    type. *)
Definition visibleProps (hiddenFields : gset string) (properties : list Entry)
    : list Entry :=
  filter (fun e => (fst e ∉ hiddenFields) /\ supported e = true) properties.

(** The loop over [fieldOrder]: the names that are visible properties, in
    the order of [fieldOrder]. *)
Fixpoint ordered_by (hiddenFields : gset string)
    (propsMap : gmap string (option ColumnType)) (fieldOrder : list string)
    : list Entry :=
  match fieldOrder with
  | [] => []
  | n :: rest =>
      match propsMap !! n with
      | Some prop =>
          if bool_decide (n ∉ hiddenFields)
          then (n, prop) :: ordered_by hiddenFields propsMap rest
          else ordered_by hiddenFields propsMap rest
      | None => ordered_by hiddenFields propsMap rest
      end
  end.

(** [sortedProps] of [renderForm]: the fields rendered, in order (each one
    becomes a form group that carries its name). *)
Definition sortedProps (hiddenFields : gset string) (fieldOrder : list string)
    (properties : list Entry) : list Entry :=
  let visible := visibleProps hiddenFields properties in
  match fieldOrder with
  | [] => sort_entries visible
  | _ =>
      let ordered := ordered_by hiddenFields (props_map visible) fieldOrder in
      let seen : gset string := list_to_set (fst <$> ordered) in
      let remaining :=
        sort_entries (filter (fun e => fst e ∉ seen) visible) in
      ordered ++ remaining
  end.

(** The two preferences kept across sessions. *)
Record Preferences : Type := {
  hidden : gset string;
  order : list string
}.

(** [toggleFieldVisibility(fieldName)] on the preferences. *)
Definition toggleFieldVisibility (fieldName : string) (p : Preferences)
    : Preferences :=
  if bool_decide (fieldName ∈ hidden p)
  then {| hidden := hidden p ∖ {[fieldName]};
          order := if bool_decide (fieldName ∈ order p) then order p
                   else order p ++ [fieldName] |}
  else {| hidden := hidden p ∪ {[fieldName]};
          order := filter (fun n => n ≠ fieldName) (order p) |}.

(** [items.findIndex(item => item.dataset.fieldName === fieldName)] *)
Fixpoint findIndex (fieldName : string) (items : list string) : option nat :=
  match items with
  | [] => None
  | n :: rest =>
      if String.eqb n fieldName then Some 0
      else S <$> findIndex fieldName rest
  end.

(** The items at [k] and [k + 1] change places. *)
Fixpoint swap_at (k : nat) (items : list string) : list string :=
  match k, items with
  | O, a :: b :: rest => b :: a :: rest
  | S k', a :: rest => a :: swap_at k' rest
  | _, _ => items
  end.

(** [moveField(fieldName, direction)] on the names of the items of the
    customize list; [up] is [direction === 'up']. *)
Definition moveField (fieldName : string) (up : bool) (items : list string)
    : list string :=
  match findIndex fieldName items with
  | None => items
  | Some currentIndex =>
      if up
      then match currentIndex with
           | O => items
           | S newIndex => swap_at newIndex items
           end
      else if Nat.leb (length items) (currentIndex + 1) then items
           else swap_at currentIndex items
  end.

(** [findUrlField(schema)] *)
Definition findUrlField (properties : list Entry) : option string :=
  fst <$> List.find (fun e => bool_decide (snd e = Some url)) properties.

End FormLayout.

(* ===================================================================== *)
(** * The popup script: looking for an existing entry, filling from the AI *)
(* ===================================================================== *)

Module Reconcile.
Import JsString NotionApi Popup FormLayout.

(** A page of the store, as far as the popup reads it. *)
Record Page : Type := {
  page_id : string;
  page_properties : gmap string Property
}.

(** The answer to a database query: the pages found, or a failure. *)
Inductive QueryResponse : Type :=
| QueryResolved (results : list Page)
| QueryRejected.

(** The filter of a query: the URL property and the URL it must equal. *)
Definition Query : Type := (string * string)%type.

(** The supported columns of [schema.properties] in the order of
    [Object.entries]; the columns of other types are left out, no function
    below looks at them. *)
Definition Columns : Type := list (string * SchemaProperty).

Definition entries_of (columns : Columns) : list Entry :=
  (fun c => (fst c, Some (type (snd c)))) <$> columns.

Definition schema_of (columns : Columns) : gmap string SchemaProperty :=
  list_to_map columns.

(** [existingPageId] and [existingPageData] *)
Record Existing : Type := {
  existing_id : option string;
  existing_data : option (gmap string Parsed)
}.

Definition no_entry : Existing :=
  {| existing_id := None; existing_data := None |}.

Section Store.

(** [notionApi.queryDatabase], answering each filter. *)
Variable queryDatabase : Query -> QueryResponse.

(** [findPageByUrl(url, urlFieldName)]: the page found, if any, and the
    queries made. *)
Definition findPageByUrl (pageUrl urlFieldName : string) : option Page * list Query :=
  if negb (truthy pageUrl) || negb (truthy urlFieldName) then (None, [])
  else
    let q := (urlFieldName, pageUrl) in
    match queryDatabase q with
    | QueryResolved (first :: _) => (Some first, [q])
    | QueryResolved [] => (None, [q])
    | QueryRejected => (None, [q])
    end.

(** [checkForExistingEntry()], from the URL of the tab, the schema
    ([None] before it is loaded) and the state so far: the state
    afterwards and the queries made. *)
Definition checkForExistingEntry (pageUrl : string) (databaseSchema : option Columns)
    (before : Existing) : Existing * list Query :=
  match databaseSchema with
  | None => (before, [])
  | Some columns =>
      if negb (truthy pageUrl) then (before, [])
      else
        match findUrlField (entries_of columns) with
        | None => (before, [])
        | Some urlField =>
            if negb (truthy urlField) then (before, [])
            else
              match findPageByUrl pageUrl urlField with
              | (Some existingPage, queries) =>
                  ({| existing_id := Some (page_id existingPage);
                      existing_data :=
                        Some (parseNotionPage (page_properties existingPage)
                                (schema_of columns)) |},
                   queries)
              | (None, queries) => (no_entry, queries)
              end
        end
  end.

End Store.

(** The popup with the entry found put in place. *)
Definition with_existing (s : Session) (e : Existing) : Session :=
  {| hiddenFields := hiddenFields s; formFields := formFields s;
     existingPageId := existing_id e;
     screen := screen s; viewPageHref := viewPageHref s |}.

End Reconcile.

Module AiFields.
Import JsString NotionApi Popup.

(** The [multi_select] case of [fillFormField] for an array of names: the
    tags that match one of the values become selected, and when any did
    the hidden input takes the values of all selected tags. *)
Definition fill_tags (group : FormGroup) (values : list string) : FormGroup * bool :=
  let shouldSelect (tagValue : string) :=
    existsb (fun v => same_ignoring_case v tagValue) values in
  let filled := existsb (fun t => shouldSelect (fst t)) (tags group) in
  let ts := map (fun t => (fst t, snd t || shouldSelect (fst t))) (tags group) in
  let hidden :=
    match hidden_values group with
    | Some old => if filled then Some (map fst (filter (fun t => snd t = true) ts))
                  else Some old
    | None => None
    end in
  (with_tags group ts hidden, filled).

(** [errorMsg] and the toast of the [catch] of [handleAiInputSubmit]. *)
Definition error_toast (message : string) : string :=
  let errorMsg := or_else message "Unknown error occurred" in
  if String.eqb errorMsg "OPENAI_NOT_CONFIGURED"
  then "Please configure your OpenAI API key in settings"
  else if includes errorMsg "port closed"
  then "Connection error. Please try again."
  else if includes errorMsg "Invalid API key" || includes errorMsg "401"
  then "Invalid OpenAI API key. Check settings."
  else if Nat.ltb 50 (String.length errorMsg)
  then take 50 errorMsg +:+ "..."
  else errorMsg.

(** How the loop over the entries ends: with all entries dealt with, or at
    the entry [fillFormField] threw on. *)
Record Filling : Type := {
  filled_form : list FormGroup;
  filledCount : nat;
  thrown_at : option (string * JsValue)
}.

Section Fields.
Variable iso_date : string -> option string.
Variable to_text : JsValue -> string.
Variable to_date : JsValue -> option string.
Variable css_query : string -> list string -> Lookup.

(** [value !== null && value !== undefined && value !== ''], negated *)
Definition skipped (value : JsValue) : bool :=
  match value with
  | JNull => true
  | JString s => negb (truthy s)
  | _ => false
  end.

(** The loop of [handleAiInputSubmit] over the entries of the answer: an
    empty value is skipped, the others are handed to [fillFormField], the
    fields filled are counted, and a throw ends the loop. *)
Fixpoint fillFields (form : list FormGroup) (extractedFields : list (string * JsValue))
    (count : nat) : Filling :=
  match extractedFields with
  | [] => {| filled_form := form; filledCount := count; thrown_at := None |}
  | (fieldName, value) :: rest =>
      if skipped value then fillFields form rest count
      else
        match fillFormField iso_date to_text to_date css_query form fieldName value with
        | (form', Returned filled) =>
            fillFields form' rest (if filled then S count else count)
        | (form', Thrown) =>
            {| filled_form := form'; filledCount := count;
               thrown_at := Some (fieldName, value) |}
        end
  end.

Definition with_formFields (s : Session) (form : list FormGroup) : Session :=
  {| hiddenFields := hiddenFields s; formFields := form;
     existingPageId := existingPageId s;
     screen := screen s; viewPageHref := viewPageHref s |}.

(** The message of the error thrown while a field is filled with a
    value.  Left open. *)
Variable error_message : string -> JsValue -> string.

(** What follows the loop: with at least one field filled the form is
    saved in the background, and with none a toast says so; after a throw
    nothing is sent, whatever was filled, and the toast shows the error. *)
Definition fillAndSave (notionApi : ApiCall -> Response) (s : Session)
    (extractedFields : list (string * JsValue)) : Outcome * nat :=
  let filling := fillFields (formFields s) extractedFields 0 in
  let s' := with_formFields s (filled_form filling) in
  match thrown_at filling with
  | Some (fieldName, value) =>
      ({| session := s'; calls := [];
          shown_error := Some (error_toast (error_message fieldName value)) |},
       filledCount filling)
  | None =>
      match filledCount filling with
      | O => ({| session := s'; calls := [];
                 shown_error := Some "Couldn't extract any fields from the content" |},
              0)
      | S _ => (handleBackgroundSave notionApi s', filledCount filling)
      end
  end.

End Fields.

End AiFields.

(* ===================================================================== *)
(** * background/service-worker.js: the title of the tab, the page text *)
(* ===================================================================== *)

Module ServiceWorker.
Import JsString Popup.

(** [s.split(sep)] for a separator that is not empty, read from left to
    right: [current] is the part being read and [skip] the number of units
    of a separator just found that are still to be passed over. *)
Fixpoint split_from (sep s : string) (skip : nat) (current : string) : list string :=
  match s with
  | EmptyString => [current]
  | String c t =>
      match skip with
      | S k => split_from sep t k current
      | O =>
          if String.prefix sep s
          then current :: split_from sep t (String.length sep - 1) ""
          else split_from sep t 0 (current +:+ String c "")
      end
  end.

Definition split (sep s : string) : list string := split_from sep s 0 "".

(** The title parsing of [getActiveTabInfo]: [roleName] and
    [companyName] from the title of the tab. *)
Definition parseTitle (tabTitle : string) : string * string :=
  if truthy tabTitle && includes tabTitle " | "
  then match split " | " tabTitle with
       | role :: company :: _ => (trim role, trim company)
       | _ => (or_else tabTitle "", "")
       end
  else (or_else tabTitle "", "").

(** What [getActiveTabInfo] returns for a tab with the given URL and
    title, when the script run in the page found the given location and
    selected text (empty when it found none or could not run). *)
Definition getActiveTabInfo (url tabTitle extractedLocation selected : string)
    : TabInfo :=
  {| tab_url := or_else url "";
     tab_title := or_else tabTitle "";
     roleName := fst (parseTitle tabTitle);
     companyName := snd (parseTitle tabTitle);
     location := or_else extractedLocation "";
     selectedText := or_else selected "" |}.

(** No unit of the text is a vertical bar. *)
Definition no_bar (s : string) : Prop :=
  all_units (fun c => negb (Ascii.eqb c "|")) s = true.

#[warnings="-abstract-large-number"]
Definition maxLength : nat := 12000.

(** The truncation at the end of [extractContent]. *)
Definition truncate_to (max : nat) (mainContent : string) : string :=
  if Nat.ltb max (String.length mainContent)
  then take max mainContent +:+ "... [truncated]"
  else mainContent.

Definition truncateContent : string -> string := truncate_to maxLength.

End ServiceWorker.

(* ===================================================================== *)
(** * options/options.js: the database ID field *)
(* ===================================================================== *)

Module Options.
Import JsString JsRegExp.

(** [[a-zA-Z0-9-]] *)
Definition is_id_unit (c : ascii) : bool :=
  between 97 122 (code c) || between 65 90 (code c)
  || between 48 57 (code c) || Nat.eqb (code c) 45.

(** [[a-f0-9]], and the same class under the [i] flag. *)
Definition is_hex (c : ascii) : bool :=
  between 97 102 (code c) || between 48 57 (code c).

Definition is_hex_i (c : ascii) : bool := is_hex (fold_case c).

(** [s.replace(/[^c]/g, '')] for a class [c]: the units of the class
    are kept, the others dropped. *)
Fixpoint keep_units (cls : ascii -> bool) (s : string) : string :=
  match s with
  | EmptyString => EmptyString
  | String c t =>
      if cls c then String c (keep_units cls t) else keep_units cls t
  end.

(** [r{n}] *)
Fixpoint times (n : nat) (r : regex) : regex :=
  match n with
  | O => Lit ""
  | S k => Cat r (times k r)
  end.

(** [/([a-f0-9]{32})/i] *)
Definition idPattern : regex := Group (times 32 (Chr is_hex_i)).

(** The [input] listener of the database ID field: the new value of the
    field, from the text typed or pasted into it. *)
Definition autoFormatDatabaseId (input : string) : string :=
  let value := keep_units is_id_unit input in
  if includes value "notion"
  then match match_groups true idPattern value with
       | Some (id :: _) => id
       | _ => value
       end
  else value.

(** Whether a text begins with [n] units of a class, and with the 32
    hexadecimal digits of an ID. *)
Definition starts_with_run (n : nat) (cls : ascii -> bool) (s : string) : bool :=
  Nat.leb n (String.length s) && all_units cls (take n s).

Definition starts_with_id (s : string) : bool := starts_with_run 32 is_hex_i s.

End Options.

(* ===================================================================== *)
(** * lib/notion-api.js: the row of a sheet *)
(* ===================================================================== *)

Module Sheets.
Import JsString JsNumber NotionApi.





End Sheets.

(* ===================================================================== *)
(** * More sample data *)
(* ===================================================================== *)

Module Fixtures.
Import JsString JsNumber NotionApi Popup FormLayout Reconcile.

(** The supported columns of a database of jobs, in schema order. *)
Definition job_columns : Columns :=
  [("Name", {| type := title; options := None |});
   ("Secret", {| type := rich_text; options := None |});
   ("Link", {| type := url; options := None |})].

(** Its entries, with a column of a type that is not supported. *)
Definition job_entries : list Entry := entries_of job_columns ++ [("Files", None)].

Definition job_preferences : Preferences :=
  {| hidden := {["Secret"]}; order := ["Name"; "Link"] |}.

Definition job_url : string := "https://jobs.acme.test/123".

(** A row of the store for that URL, and a store that finds it. *)
Definition job_page : Page :=
  {| page_id := "1f2e-77";
     page_properties := {[ "Link" := P_url (Some job_url) ]} |}.

Definition one_row_store (q : Query) : QueryResponse := QueryResolved [job_page].

(** A form with a name and a link, and what the store returns for its
    payload. *)
Definition job_form : list FormGroup :=
  [text_group "Name" title "Engineer"; text_group "Link" url job_url].

Definition job_schema : gmap string SchemaProperty := schema_of job_columns.

Definition job_row : gmap string Property := stored <$> buildPayload ∅ job_form.

(** A store that rejects every call. *)
Definition rejecting_store (call : ApiCall) : Response := Rejected "Unauthorized".

(** Stand-ins for the operations that filling leaves open: [String(value)]
    as it is for a string, a boolean and [null]; no date read from a value
    that is no string; a selector engine that takes no selector built from
    a name with a quote or the like; and the message of the error thrown on
    a value without [substring]. *)
Definition text_of_value (value : JsValue) : string :=
  match value with
  | JString s => s
  | JBool true => "true"
  | JBool false => "false"
  | JNull => "null"
  | _ => ""
  end.

Definition no_date_of_value (value : JsValue) : option string := None.

Definition strict_query (fieldName : string) (names : list string) : Lookup :=
  BadSelector.

Definition substring_error (fieldName : string) (value : JsValue) : string :=
  "value.substring is not a function".

(** An answer of the AI with a boolean where a text is expected. *)
Definition boolean_answer : list (string * JsValue) := [("Name", JBool true)].

End Fixtures.

(* ===================================================================== *)
(** * Facts about the string operations *)
(* ===================================================================== *)

Module JsStringFacts.
Import JsString.

Lemma app_nil_l (t : string) : "" +:+ t = t.
Proof. reflexivity. Qed.

Lemma app_cons (c : ascii) (s t : string) :
  String c s +:+ t = String c (s +:+ t).
Proof. reflexivity. Qed.

Lemma app_empty_r (s : string) : s +:+ "" = s.
Proof.
  induction s as [|c s IH]; [reflexivity|]. now rewrite app_cons, IH.
Qed.

Lemma app_assoc (a b c : string) : (a +:+ b) +:+ c = a +:+ (b +:+ c).
Proof.
  induction a as [|x a IH]; [reflexivity|]. now rewrite !app_cons, IH.
Qed.

Lemma take_drop (n : nat) (s : string) : take n s +:+ drop n s = s.
Proof.
  revert s; induction n as [|n IH]; intros [|c s]; simpl; try reflexivity.
  now rewrite app_cons, IH.
Qed.

Lemma length_take_le (n : nat) (s : string) : String.length (take n s) <= n.
Proof.
  revert s; induction n as [|n IH]; intros [|c s]; simpl; try lia.
  specialize (IH s); lia.
Qed.

Lemma drop_drop (n m : nat) (s : string) : drop m (drop n s) = drop (n + m) s.
Proof.
  revert s; induction n as [|n IH]; intros s; simpl; [reflexivity|].
  destruct s as [|c s]; [now destruct m | apply IH].
Qed.

Lemma drop_beyond (n : nat) (s : string) : String.length s <= n -> drop n s = "".
Proof.
  revert s; induction n as [|n IH]; intros [|c s]; simpl; intros H;
    try reflexivity; try lia.
  apply IH; lia.
Qed.

Lemma slice_from (i max : nat) (s : string) :
  slice i (i + max) s = take max (drop i s).
Proof. unfold slice. now replace (i + max - i) with max by lia. Qed.

Lemma truthy_empty (s : string) : truthy s = false <-> s = "".
Proof.
  unfold truthy. rewrite negb_false_iff. apply String.eqb_eq.
Qed.

Lemma or_else_empty (s : string) : or_else s "" = s.
Proof.
  unfold or_else. destruct (truthy s) eqn:E; [reflexivity|].
  symmetry. now apply truthy_empty.
Qed.

Lemma or_else_truthy (s d : string) : truthy s = true -> or_else s d = s.
Proof. unfold or_else. now intros ->. Qed.

(** No code unit of a lower-cased string is in A-Z. *)
Lemma lower_char_not_upper (c : ascii) : is_upper_az (lower_char c) = false.
Proof. destruct c as [[] [] [] [] [] [] [] []]; reflexivity. Qed.

Lemma toLowerCase_no_upper (s : string) :
  all_units (fun c => negb (is_upper_az c)) (toLowerCase s) = true.
Proof.
  unfold toLowerCase.
  induction s as [|c s IH]; simpl; [reflexivity|].
  now rewrite lower_char_not_upper, IH.
Qed.

Lemma all_units_trimStart p s :
  all_units p s = true -> all_units p (trimStart s) = true.
Proof.
  induction s as [|c s IH]; simpl; [easy|].
  intros H. destruct (is_space c); [|exact H].
  apply andb_true_iff in H. now apply IH.
Qed.

Lemma all_units_trimEnd p s :
  all_units p s = true -> all_units p (trimEnd s) = true.
Proof.
  induction s as [|c s IH]; simpl; [easy|].
  intros H. apply andb_true_iff in H as [Hc Hs]. specialize (IH Hs).
  destruct (trimEnd s) as [|d t].
  - destruct (is_space c); simpl; [reflexivity | now rewrite Hc].
  - simpl in *. now rewrite Hc, IH.
Qed.

Lemma all_units_trim p s : all_units p s = true -> all_units p (trim s) = true.
Proof. intros H. now apply all_units_trimEnd, all_units_trimStart. Qed.

End JsStringFacts.

(* ===================================================================== *)
(** * Facts about what a control keeps *)
(* ===================================================================== *)

Module DomFacts.
Import JsString JsStringFacts JsNumber Dom.

Lemma strip_newlines_single_line (s : string) :
  single_line s -> strip_newlines s = s.
Proof.
  unfold single_line, strip_newlines.
  induction s as [|c s IH]; simpl; [reflexivity|].
  intros H. apply andb_true_iff in H as [Hc Hs].
  apply negb_true_iff in Hc. rewrite Hc. now rewrite IH.
Qed.

Lemma normalize_newlines_single_line (s : string) :
  single_line s -> normalize_newlines s = s.
Proof.
  unfold single_line.
  induction s as [|c s IH]; [reflexivity|].
  cbn [all_units]. intros H. apply andb_true_iff in H as [Hc Hs].
  apply negb_true_iff in Hc. unfold is_line_break in Hc.
  apply orb_false_iff in Hc as [_ Hcr].
  cbn [normalize_newlines]. rewrite Hcr. now rewrite IH.
Qed.

(** A text without line breaks is kept as it stands by a text or
    telephone input and by a text area, and stripped of the blanks at its
    ends by a URL or e-mail input. *)
Lemma sanitize_single_line (s : string) :
  single_line s ->
  sanitize TextInput s = s /\ sanitize TelInput s = s /\ sanitize TextArea s = s
  /\ sanitize UrlInput s = strip_blanks s
  /\ sanitize EmailInput s = strip_blanks s.
Proof.
  intros H. unfold sanitize.
  rewrite strip_newlines_single_line, normalize_newlines_single_line by exact H.
  now repeat split.
Qed.

Lemma sanitize_empty (control : Control) : sanitize control "" = "".
Proof. now destruct control. Qed.

End DomFacts.

(* ===================================================================== *)
(** * The rich-text formatter splits without loss *)
(* ===================================================================== *)

Module RichTextChunks.
Import JsString JsStringFacts NotionApi.

Lemma concat_content_cons (x : RichText) (blocks : list RichText) :
  concat_content (x :: blocks) = block_content x +:+ concat_content blocks.
Proof. reflexivity. Qed.

Lemma concat_content_snoc (blocks : list RichText) (b : RichText) :
  concat_content (blocks ++ [b]) = concat_content blocks +:+ block_content b.
Proof.
  induction blocks as [|x blocks IH].
  - change (block_content b +:+ "" = block_content b). apply app_empty_r.
  - rewrite <- app_comm_cons, !concat_content_cons, IH.
    symmetry. apply app_assoc.
Qed.

Section Loop.
Variable max : nat.
Hypothesis max_positive : 0 < max.

(** With enough rounds left, the loop entered at [i] appends exactly
    the text from [i] on. *)
Lemma loop_content (content : string) :
  forall fuel i blocks,
    String.length content - i <= fuel ->
    concat_content (rich_text_loop max fuel content i blocks)
    = concat_content blocks +:+ drop i content.
Proof.
  induction fuel as [|fuel IH]; intros i blocks Hfuel; simpl.
  - rewrite drop_beyond by lia. now rewrite app_empty_r.
  - destruct (Nat.ltb_spec i (String.length content)) as [Hlt|Hge].
    + rewrite IH by lia.
      rewrite concat_content_snoc, app_assoc. f_equal.
      unfold text_block, block_content; simpl.
      rewrite slice_from, <- drop_drop. apply take_drop.
    + rewrite drop_beyond by lia. now rewrite app_empty_r.
Qed.

Lemma loop_fits (content : string) :
  forall fuel i blocks,
    Forall (block_fits max) blocks ->
    Forall (block_fits max) (rich_text_loop max fuel content i blocks).
Proof.
  induction fuel as [|fuel IH]; intros i blocks Hb; simpl; [exact Hb|].
  destruct (Nat.ltb i (String.length content)); [|exact Hb].
  apply IH. apply Forall_app; split; [exact Hb|].
  constructor; [|constructor].
  exists (slice i (i + max) content). split; [reflexivity|].
  rewrite slice_from. apply length_take_le.
Qed.

(** A non-empty text gives at least one block. *)
Lemma loop_nonempty (content : string) (fuel : nat) :
  0 < String.length content ->
  rich_text_loop max (S fuel) content 0 [] <> [].
Proof.
  intros Hlen. simpl.
  destruct (Nat.ltb_spec 0 (String.length content)) as [_|H]; [|lia].
  clear Hlen. generalize (0 + max). intros i.
  generalize (text_block (slice 0 i content)). intros b.
  assert (G : forall f j bs, bs <> [] -> rich_text_loop max f content j bs <> []).
  { induction f as [|f IHf]; intros j bs Hbs; simpl; [exact Hbs|].
    destruct (Nat.ltb j (String.length content)); [|exact Hbs].
    apply IHf. now destruct bs. }
  apply G. discriminate.
Qed.

End Loop.

End RichTextChunks.

Module RichTextFormatter.
Import JsString JsStringFacts NotionApi RichTextChunks.

Lemma max_chars_positive : 0 < MAX_CHARS.
Proof. apply Nat.ltb_lt. reflexivity. Qed.

(** The blocks the formatter emits for [value]. *)
Lemma rich_text_blocks (value : string) :
  blocks_of (PropertyFormatters.rich_text value)
  = match rich_text_loop MAX_CHARS (String.length value) value 0 [] with
    | [] => [text_block ""]
    | blocks => blocks
    end.
Proof.
  unfold PropertyFormatters.rich_text. rewrite or_else_empty. simpl.
  now destruct (rich_text_loop MAX_CHARS (String.length value) value 0 []).
Qed.

(** C2: for every input string the rich-text formatter emits blocks of
    at most 2000 code units each whose contents, concatenated in order,
    are the input; it emits at least one block, and for the empty string
    exactly one block with empty content. *)
Theorem rich_text_splits_without_loss (value : string) :
  let blocks := blocks_of (PropertyFormatters.rich_text value) in
  concat_content blocks = value
  /\ Forall (block_fits 2000) blocks
  /\ 1 <= length blocks
  /\ (value = "" -> blocks = [text_block ""]).
Proof.
  cbv zeta. rewrite rich_text_blocks.
  pose proof (loop_content MAX_CHARS max_chars_positive value
                (String.length value) 0 []) as Hc.
  pose proof (loop_fits MAX_CHARS value (String.length value) 0 []
                (List.Forall_nil _)) as Hf.
  destruct (rich_text_loop MAX_CHARS (String.length value) value 0 [])
    as [|b blocks] eqn:E.
  - assert (Hv : value = "").
    { symmetry. apply Hc. lia. }
    subst value. repeat split.
    + constructor; [|constructor]. exists "". split; [reflexivity | simpl; lia].
    + simpl; lia.
  - repeat split.
    + rewrite Hc by lia. reflexivity.
    + exact Hf.
    + simpl; lia.
    + intros ->. discriminate E.
Qed.

(** A text of 5000 code units goes out as blocks of 2000, 2000 and 1000. *)
Example rich_text_5000 :
  map (fun b => String.length (block_content b))
      (blocks_of (PropertyFormatters.rich_text (repeat_unit "x" 5000)))
  = [2000; 2000; 1000].
Proof. vm_compute. reflexivity. Qed.

(** Later rounds of the loop leave the first block in place. *)
Lemma loop_keeps_head (max : nat) (content : string) :
  forall fuel i b bs,
    exists rest, rich_text_loop max fuel content i (b :: bs) = b :: rest.
Proof.
  induction fuel as [|fuel IH]; intros i b bs; simpl; [now exists bs|].
  destruct (Nat.ltb i (String.length content)); [|now exists bs].
  apply IH.
Qed.

(** The first block holds the first 2000 code units. *)
Lemma rich_text_first_block (value : string) :
  exists rest,
    blocks_of (PropertyFormatters.rich_text value)
    = text_block (take MAX_CHARS value) :: rest.
Proof.
  rewrite rich_text_blocks.
  destruct value as [|c value]; [now exists []|].
  cbn [String.length rich_text_loop].
  destruct (Nat.ltb_spec 0 (S (String.length value))) as [_|H]; [|lia].
  destruct (loop_keeps_head MAX_CHARS (String c value) (String.length value)
              (0 + MAX_CHARS)
              (text_block (slice 0 (0 + MAX_CHARS) (String c value))) [])
    as [rest Hrest].
  change ([] ++ [text_block (slice 0 (0 + MAX_CHARS) (String c value))])%list
    with [text_block (slice 0 (0 + MAX_CHARS) (String c value))].
  rewrite Hrest, slice_from. now exists rest.
Qed.

End RichTextFormatter.

(* ===================================================================== *)
(** * Formatting, then parsing *)
(* ===================================================================== *)

Module RoundTrip.
Import JsString JsStringFacts JsNumber NotionApi RichTextFormatter.

Lemma or_empty_or_null (s : string) : or_empty (or_null s) = s.
Proof.
  unfold or_null, or_empty. destruct (truthy s) eqn:E.
  - now apply or_else_truthy.
  - symmetry. now apply truthy_empty.
Qed.

Lemma take_all (n : nat) (s : string) : String.length s <= n -> take n s = s.
Proof.
  revert s; induction n as [|n IH]; intros [|c s]; simpl; intros H;
    try reflexivity; try lia.
  rewrite IH by lia. reflexivity.
Qed.

Lemma rich_text_is_blocks (value : string) :
  PropertyFormatters.rich_text value
  = P_rich_text (blocks_of (PropertyFormatters.rich_text value)).
Proof. reflexivity. Qed.

(** What comes back for rich text is the first block only: the first 2000
    code units of the text. *)
Lemma rich_text_parsed_back (value : string) :
  PropertyParsers.rich_text (stored (PropertyFormatters.rich_text value))
  = take MAX_CHARS value.
Proof.
  rewrite rich_text_is_blocks.
  destruct (rich_text_first_block value) as [rest ->].
  simpl. apply or_else_empty.
Qed.


(** The store changes nothing but titles and rich texts. *)
Lemma stored_other (ty : ColumnType) (v : FormValue ty) :
  ty <> title -> ty <> rich_text -> stored (format ty v) = format ty v.
Proof. destruct ty; intros H1 H2; try reflexivity; congruence. Qed.

(** C1, as stated, fails: a rich text of 2001 code units does not come back
    from its serialized form, neither parsed directly nor parsed from what
    the store returns for it, although its blocks together hold all of it;
    and a title parsed directly from its serialized form is empty. *)
Lemma round_trip_counterexample :
  parse rich_text (format rich_text long_text) <> long_text
  /\ parse rich_text (stored (format rich_text long_text)) <> long_text
  /\ concat_content (blocks_of (format rich_text long_text)) = long_text
  /\ parse title (format title "Engineer") <> "Engineer".
Proof.
  split; [|split; [|split]].
  - intros H. apply (f_equal String.length) in H. vm_compute in H. discriminate H.
  - intros H. apply (f_equal String.length) in H. vm_compute in H. discriminate H.
  - vm_compute. reflexivity.
  - intros H. vm_compute in H. discriminate H.
Qed.

(** C1, amended: for every supported type and every form value of the type,
    parsing what the store returns for the serialized value gives the value
    back, provided that a rich text has at most 2000 code units and that a
    number is the empty input or a number other than negative zero. *)
Theorem round_trip_through_store (ty : ColumnType) (v : FormValue ty) :
  round_trips ty v -> parse ty (stored (format ty v)) = v.
Proof.
  destruct ty; intros H.
  - (* title *)
    change (or_empty (Some (or_else v "")) = v).
    unfold or_empty. now rewrite !or_else_empty.
  - (* rich_text *)
    change (PropertyParsers.rich_text (stored (PropertyFormatters.rich_text v)) = v).
    rewrite rich_text_parsed_back. now apply take_all.
  - apply or_empty_or_null.
  - (* number *)
    destruct v as [| |x|s]; try contradiction.
    + simpl in *. now rewrite H.
    + simpl in H. subst s. reflexivity.
  - reflexivity.
  - apply or_empty_or_null.
  - reflexivity.
  - apply or_empty_or_null.
  - apply or_empty_or_null.
  - apply or_empty_or_null.
  - apply or_empty_or_null.
Qed.

Lemma round_trip_through_store_witness :
  round_trips rich_text "Backend Engineer"
  /\ parse rich_text (stored (format rich_text "Backend Engineer")) = "Backend Engineer".
Proof.
  assert (H : round_trips rich_text "Backend Engineer").
  { apply Nat.leb_le. reflexivity. }
  split; [exact H|].
  exact (round_trip_through_store rich_text "Backend Engineer" H).
Defined.

End RoundTrip.

(* ===================================================================== *)
(** * The number formatter *)
(* ===================================================================== *)

Module NumberFormatter.
Import JsString JsNumber NotionApi.

(** Text that starts with a letter has no numeric prefix, unless it spells
    [Infinity]. *)
Example parseFloat_of_words :
  parseFloat "abc" = NaN /\ parseFloat "twelve" = NaN /\ parseFloat "." = NaN
  /\ parseFloat "12abc" = Finite false 12 0.
Proof. repeat split. Qed.

(** C7, as stated, fails: the text [abc] is not parseable as a number, and
    what the formatter produces for it is [NaN], not [null]. *)
Lemma number_counterexample :
  parseFloat "abc" = NaN
  /\ PropertyFormatters.number (NumText "abc") = P_number (Some NaN)
  /\ PropertyFormatters.number (NumText "abc") <> P_number None.
Proof. split; [reflexivity|]. split; [reflexivity|]. discriminate. Qed.

(** C7, amended: on a string the number formatter is defined everywhere;
    it produces [null] exactly for the empty string, and for a non-empty
    string that has no numeric prefix it produces [NaN], which the JSON
    encoding of the request then writes as [null]. *)
Theorem number_formatter_on_text (s : string) :
  (PropertyFormatters.number (NumText s) = P_number None <-> s = "")
  /\ (s <> "" -> parseFloat s = NaN ->
      PropertyFormatters.number (NumText s) = P_number (Some NaN)
      /\ json_number NaN = None).
Proof.
  split.
  - destruct s as [|c s]; simpl; split; intros H;
      try reflexivity; discriminate H.
  - intros Hne Hnan. split; [|reflexivity].
    destruct s as [|c s]; [congruence|].
    unfold PropertyFormatters.number. now rewrite Hnan.
Qed.

Lemma number_formatter_on_text_witness :
  "abc" <> "" /\ parseFloat "abc" = NaN
  /\ PropertyFormatters.number (NumText "abc") = P_number (Some NaN).
Proof.
  assert (H1 : "abc" <> "") by discriminate.
  assert (H2 : parseFloat "abc" = NaN) by reflexivity.
  split; [exact H1|]. split; [exact H2|].
  exact (proj1 (proj2 (number_formatter_on_text "abc") H1 H2)).
Defined.

(** [null] and a number: the other two inputs of the formatter. *)
Lemma number_formatter_other_inputs (x : num) :
  PropertyFormatters.number NumNull = P_number None
  /\ PropertyFormatters.number (Num x) = P_number (Some (parseFloat_number x)).
Proof. split; reflexivity. Qed.

End NumberFormatter.

(* ===================================================================== *)
(** * The location matcher *)
(* ===================================================================== *)

Module Matcher.
Import JsString JsStringFacts JsRegExp NotionApi Popup.

Lemma first_option_is_option (p : SelectOption -> bool) (opts : list SelectOption)
    (n : string) :
  first_option p opts = Some n -> In n (map name opts).
Proof.
  unfold first_option. destruct (List.find p opts) as [o|] eqn:E; simpl; [|discriminate].
  intros [= <-]. apply List.find_some in E as [Hin _].
  now apply in_map.
Qed.

Lemma match_patterns_is_option (table : list (regex * list string)) (loc : string)
    (opts : list SelectOption) (n : string) :
  match_patterns table loc opts = Some n -> In n (map name opts).
Proof.
  induction table as [|[pattern keywords] rest IH]; simpl; [discriminate|].
  destruct (test true pattern loc); [|exact IH].
  destruct (first_option _ opts) as [m|] eqn:E; [|exact IH].
  intros [= <-]. eapply first_option_is_option, E.
Qed.

Lemma match_state_is_option (loc : string) (opts : list SelectOption) (n : string) :
  match_state loc opts = Some n -> In n (map name opts).
Proof.
  unfold match_state. destruct (match_groups false stateRegex loc) as [[|st ?]|];
    try discriminate.
  apply first_option_is_option.
Qed.

Create HintDb matcher.

#[local] Hint Resolve first_option_is_option match_patterns_is_option
  match_state_is_option : matcher.

(** One step of the chain: either it answers, with an option name, or the
    next step is asked. *)
Ltac step :=
  match goal with
  | |- context [match first_option ?p ?l with _ => _ end] =>
      let E := fresh "E" in
      destruct (first_option p l) eqn:E;
      [ intros [= <-]; eauto with matcher | ]
  | |- context [match match_patterns ?t ?s ?l with _ => _ end] =>
      let E := fresh "E" in
      destruct (match_patterns t s l) eqn:E;
      [ intros [= <-]; eauto with matcher | ]
  end.

Lemma findBestLocationMatch_is_option (extractedLocation : string)
    (opts : list SelectOption) (n : string) :
  findBestLocationMatch extractedLocation opts = Some n -> In n (map name opts).
Proof.
  unfold findBestLocationMatch.
  destruct (negb (truthy extractedLocation) || Nat.eqb (length opts) 0);
    [discriminate|].
  do 3 step.
  destruct (includes (trim (toLowerCase extractedLocation)) "remote").
  - step. step. eauto with matcher.
  - step. eauto with matcher.
Qed.

(** C10: for every free text and every list of options the matcher returns
    either nothing or the name of one of the options given; for an empty
    list of options and for an empty free text it returns nothing. *)
Theorem matcher_returns_an_option_or_nothing (extractedLocation : string)
    (opts : list SelectOption) :
  match findBestLocationMatch extractedLocation opts with
  | Some n => In n (map name opts)
  | None => True
  end
  /\ findBestLocationMatch extractedLocation [] = None
  /\ findBestLocationMatch "" opts = None.
Proof.
  split; [|split].
  - destruct (findBestLocationMatch extractedLocation opts) as [n|] eqn:E; [|exact I].
    now apply findBestLocationMatch_is_option with extractedLocation.
  - unfold findBestLocationMatch. simpl. now rewrite orb_true_r.
  - reflexivity.
Qed.

End Matcher.

Module MatcherOrder.
Import JsString JsStringFacts JsRegExp NotionApi Popup.

(** C4, as stated, fails: the documented order puts "the option name is a
    substring of the free text" before "the free text is a substring of an
    option name"; the script tries them the other way round, and the two
    orders disagree on the free text [New York] with the options [York]
    and [New York City]. *)
Lemma matcher_order_counterexample :
  findBestLocationMatch "New York" [option_named "York"; option_named "New York City"]
  = Some "New York City"
  /\ match_as_documented "New York" [option_named "York"; option_named "New York City"]
     = Some "York".
Proof. split; vm_compute; reflexivity. Qed.

Lemma first_named_first_option (passes : string -> bool) (opts : list SelectOption) :
  first_named passes opts = first_option (fun o => passes (toLowerCase (name o))) opts.
Proof.
  unfold first_option. induction opts as [|o opts IH]; [reflexivity|].
  cbn [first_named List.find]. now destruct (passes (toLowerCase (name o))).
Qed.

Lemma first_hit_app (front back : list Strategy) (text : string)
    (opts : list SelectOption) :
  first_hit (front ++ back) text opts
  = match first_hit front text opts with
    | Some n => Some n
    | None => first_hit back text opts
    end.
Proof.
  induction front as [|strategy front IH]; [reflexivity|].
  cbn [app first_hit]. rewrite IH. now destruct (strategy text opts).
Qed.

(** The loop over the table of families tries them as strategies, in the
    order of the table. *)
Lemma match_patterns_first_hit (table : list (regex * list string)) (text : string)
    (opts : list SelectOption) :
  match_patterns table text opts = first_hit (map keyword_family table) text opts.
Proof.
  induction table as [|[pattern keywords] table IH]; [reflexivity|].
  cbn [match_patterns map first_hit]. unfold keyword_family at 1. cbn [fst snd].
  rewrite first_named_first_option, IH.
  destruct (test true pattern text); [|reflexivity].
  now destruct (first_option _ opts).
Qed.

Lemma findBestLocationMatch_in_order (freeText : string) (opts : list SelectOption) :
  findBestLocationMatch freeText opts = match_in_order steps_in_order freeText opts.
Proof.
  unfold findBestLocationMatch, match_in_order, steps_in_order.
  destruct (negb (truthy freeText) || Nat.eqb (length opts) 0); [reflexivity|].
  cbv zeta. cbn [app first_hit]. rewrite first_hit_app.
  rewrite <- match_patterns_first_hit. cbn [first_hit].
  unfold exact_match, option_contains_text, text_contains_option, remote_rule,
    state_code, match_state.
  rewrite !first_named_first_option.
  repeat match goal with
         | |- context [match first_option ?p opts with _ => _ end] =>
             destruct (first_option p opts); [reflexivity|]
         end.
  destruct (includes (trim (toLowerCase freeText)) "remote").
  - destruct (first_option _ opts); [reflexivity|].
    destruct (match_patterns _ _ _); [reflexivity|].
    destruct (match_groups _ _ _) as [[|st ?]|]; try reflexivity.
    rewrite first_named_first_option. now destruct (first_option _ opts).
  - destruct (match_patterns _ _ _); [reflexivity|].
    destruct (match_groups _ _ _) as [[|st ?]|]; try reflexivity.
    rewrite first_named_first_option. now destruct (first_option _ opts).
Qed.

(** C4, amended: the matcher answers the four documented examples as
    documented, and it tries its strategies in this order, the first that
    answers winning: an option name equal to the free text (lower-cased and
    trimmed), an option name that contains it, an option name contained in
    it, the remote rule, the keyword families in the order of their table,
    the state code.  For every free text and every list of options its
    answer is the first answer of these strategies in this order, and
    nothing for an empty free text or an empty list.  In particular, when
    no option equals the free text and some option contains it, the first
    such option is returned, whatever options the free text itself
    contains. *)
Theorem matcher_examples_and_order :
  findBestLocationMatch "San Francisco, CA"
    [option_named "Remote"; option_named "San Francisco"; option_named "New York"]
  = Some "San Francisco"
  /\ findBestLocationMatch "SF Bay Area"
       [option_named "Remote"; option_named "San Francisco"; option_named "New York"]
     = Some "San Francisco"
  /\ findBestLocationMatch "fully remote role"
       [option_named "Remote"; option_named "Onsite"]
     = Some "Remote"
  /\ findBestLocationMatch "Berlin" [option_named "Remote"; option_named "San Francisco"]
     = None
  /\ (forall (freeText : string) (opts : list SelectOption),
       findBestLocationMatch freeText opts
       = match_in_order
           ([exact_match; option_contains_text; text_contains_option; remote_rule]
            ++ map keyword_family cityStatePatterns ++ [state_code])
           freeText opts)
  /\ forall (freeText : string) (opts : list SelectOption) (n : string),
       freeText <> "" ->
       first_option
         (fun o => String.eqb (toLowerCase (name o)) (trim (toLowerCase freeText))) opts
       = None ->
       first_option
         (fun o => includes (toLowerCase (name o)) (trim (toLowerCase freeText))) opts
       = Some n ->
       findBestLocationMatch freeText opts = Some n.
Proof.
  do 4 (split; [vm_compute; reflexivity|]).
  split; [exact findBestLocationMatch_in_order|].
  intros freeText opts n Hne Hexact Hcontains.
  unfold findBestLocationMatch.
  assert (Ht : truthy freeText = true).
  { destruct (truthy freeText) eqn:E; [reflexivity|].
    apply truthy_empty in E. contradiction. }
  rewrite Ht. simpl.
  destruct opts as [|o opts]; [discriminate Hcontains|].
  cbn [length Nat.eqb]. now rewrite Hexact, Hcontains.
Qed.

Lemma matcher_examples_and_order_witness :
  findBestLocationMatch "New York" [option_named "York"; option_named "New York City"]
  = Some "New York City".
Proof.
  apply (proj2 (proj2 (proj2 (proj2 (proj2 matcher_examples_and_order))))).
  - discriminate.
  - reflexivity.
  - reflexivity.
Defined.

End MatcherOrder.

Module StateCode.
Import JsString JsStringFacts JsRegExp NotionApi Popup.

Lemma lower_ahead_tail (prev prev' : option ascii) (c : ascii) (t : string)
    (caps caps' : list string) :
  lower_ahead (Pos prev (String c t) caps) -> lower_ahead (Pos prev' t caps').
Proof.
  unfold lower_ahead; simpl. intros H. now apply andb_true_iff in H.
Qed.

Lemma match_lit_lower (ic : bool) (lit : string) :
  forall p, lower_ahead p -> Forall lower_ahead (match_lit ic lit p).
Proof.
  induction lit as [|a lit IH]; intros [prev s caps] Hp; simpl.
  - now constructor.
  - destruct s as [|b t]; [constructor|].
    destruct (unit_eqb ic a b); [|constructor].
    apply IH. eapply lower_ahead_tail, Hp.
Qed.

Lemma match_star_lower (cls : ascii -> bool) (caps : list string) :
  forall s prev, lower_ahead (Pos prev s caps) ->
                 Forall lower_ahead (match_star cls prev s caps).
Proof.
  induction s as [|c t IH]; intros prev Hp; simpl.
  - now constructor.
  - destruct (cls c).
    + apply Forall_app; split.
      * apply IH. eapply lower_ahead_tail, Hp.
      * now constructor.
    + now constructor.
Qed.

(** Matching only moves forward in the text, so it stays in text without
    upper-case letters. *)
Lemma run_lower (ic : bool) (r : regex) :
  forall p, lower_ahead p -> Forall lower_ahead (run ic r p).
Proof.
  induction r as [s|cls|cls|r1 IH1 r2 IH2|r1 IH1 r2 IH2|cls| |r IH];
    intros p Hp; simpl.
  - now apply match_lit_lower.
  - destruct p as [prev [|c t] caps]; simpl; [constructor|].
    destruct (cls c); [|constructor].
    constructor; [|constructor]. eapply lower_ahead_tail, Hp.
  - destruct p as [prev s caps]. now apply match_star_lower.
  - specialize (IH1 p Hp). induction IH1 as [|q qs Hq _ IHqs]; simpl; [constructor|].
    apply Forall_app; split; [now apply IH2 | exact IHqs].
  - apply Forall_app; split; auto.
  - destruct (ahead p) as [|c t]; [now constructor|].
    destruct (cls c); [constructor | now constructor].
  - destruct (xorb _ _); [now constructor | constructor].
  - specialize (IH p Hp). induction IH as [|q qs Hq _ IHqs]; simpl; constructor; auto.
Qed.

Lemma flat_map_nothing {A B : Type} (f : A -> list B) (P : A -> Prop) (l : list A) :
  (forall a, P a -> f a = []) -> Forall P l -> flat_map f l = [].
Proof.
  intros Hf Hl. induction Hl as [|a l Ha _ IH]; simpl; [reflexivity|].
  now rewrite (Hf a Ha), IH.
Qed.

(** The capture [([A-Z]{2})] finds nothing in such text. *)
Lemma two_capitals_fail (p : position) :
  lower_ahead p ->
  run false (Cat (Group (Cat (Chr is_upper_az) (Chr is_upper_az))) WordB) p = [].
Proof.
  intros Hp. destruct p as [prev [|c t] caps]; [reflexivity|].
  unfold lower_ahead in Hp; simpl in Hp. apply andb_true_iff in Hp as [Hc _].
  apply negb_true_iff in Hc. simpl. now rewrite Hc.
Qed.

Lemma stateRegex_fails (p : position) :
  lower_ahead p -> run false stateRegex p = [].
Proof.
  intros Hp. unfold stateRegex.
  change (flat_map
            (run false (Cat (StarChr is_space)
                          (Cat (Group (Cat (Chr is_upper_az) (Chr is_upper_az))) WordB)))
            (run false (Lit ",") p) = []).
  apply flat_map_nothing with (P := lower_ahead); [|now apply run_lower].
  intros q Hq.
  change (flat_map
            (run false (Cat (Group (Cat (Chr is_upper_az) (Chr is_upper_az))) WordB))
            (run false (StarChr is_space) q) = []).
  apply flat_map_nothing with (P := lower_ahead); [|now apply run_lower].
  apply two_capitals_fail.
Qed.

Lemma search_stateRegex_fails (s : string) :
  forall prev, all_units (fun c => negb (is_upper_az c)) s = true ->
               search false stateRegex prev s = None.
Proof.
  induction s as [|c t IH]; intros prev Hs.
  - reflexivity.
  - cbn [search]. rewrite stateRegex_fails by exact Hs.
    apply IH. simpl in Hs. now apply andb_true_iff in Hs.
Qed.

(** The state step never answers: the location it is given has been
    lower-cased, and its pattern asks for two capital letters. *)
Lemma match_state_never_answers (extractedLocation : string)
    (opts : list SelectOption) :
  match_state (trim (toLowerCase extractedLocation)) opts = None.
Proof.
  unfold match_state, match_groups.
  rewrite search_stateRegex_fails; [reflexivity|].
  apply all_units_trim, toLowerCase_no_upper.
Qed.

(** C9, on the code: the free text [Salem, OR] ends in a state code, no
    earlier step answers, the option [Oregon] contains the code, and still
    the matcher returns nothing, where the documented step 6 returns the
    option. *)
Theorem state_code_is_not_matched :
  match_groups false stateRegex "Salem, OR" = Some ["OR"]
  /\ includes (toLowerCase "Oregon") (toLowerCase "OR") = true
  /\ findBestLocationMatch "Salem, OR" [option_named "Oregon"] = None
  /\ match_as_documented "Salem, OR" [option_named "Oregon"] = Some "Oregon".
Proof. repeat split. Qed.

End StateCode.

(* ===================================================================== *)
(** * The payload builder *)
(* ===================================================================== *)

Module Payload.
Import JsString JsStringFacts JsNumber NotionApi Popup.

Lemma assign_other (k n : string) (p : Property) (properties : gmap string Property) :
  n <> k -> assign k p properties !! n = properties !! n.
Proof.
  intros Hne. unfold assign. destruct (String.eqb k "__proto__"); [reflexivity|].
  now rewrite lookup_insert_ne by congruence.
Qed.

Lemma assign_own (k : string) (p : Property) (properties : gmap string Property) :
  k <> "__proto__" -> assign k p properties !! k = Some p.
Proof.
  intros Hk. unfold assign. destruct (String.eqb_spec k "__proto__"); [contradiction|].
  apply lookup_insert_eq.
Qed.

(** No assignment creates the key [__proto__]. *)
Lemma assign_proto (k : string) (p : Property) (properties : gmap string Property) :
  assign k p properties !! "__proto__" = properties !! "__proto__".
Proof.
  unfold assign. destruct (String.eqb_spec k "__proto__") as [->|Hne]; [reflexivity|].
  now rewrite lookup_insert_ne.
Qed.

Section Builder.
Variable hidden : gset string.

(** A group leaves the entries of other names alone. *)
Lemma add_group_other (properties : gmap string Property) (group : FormGroup)
    (n : string) :
  n <> propertyName group ->
  add_group hidden properties group !! n = properties !! n.
Proof.
  intros Hne. unfold add_group.
  destruct (decide (propertyName group ∈ hidden)); [reflexivity|].
  destruct (payload_entry _ _); [|reflexivity].
  now apply assign_other.
Qed.

(** A hidden name is never written. *)
Lemma add_group_hidden (properties : gmap string Property) (group : FormGroup)
    (n : string) :
  n ∈ hidden -> add_group hidden properties group !! n = properties !! n.
Proof.
  intros Hn. destruct (decide (n = propertyName group)) as [->|Hne].
  - unfold add_group. now destruct (decide (propertyName group ∈ hidden)).
  - now apply add_group_other.
Qed.

(** Nor is the name [__proto__]. *)
Lemma add_group_proto (properties : gmap string Property) (group : FormGroup) :
  add_group hidden properties group !! "__proto__" = properties !! "__proto__".
Proof.
  unfold add_group.
  destruct (decide (propertyName group ∈ hidden)); [reflexivity|].
  destruct (payload_entry _ _); [|reflexivity].
  apply assign_proto.
Qed.

Lemma foldl_hidden (groups : list FormGroup) (n : string) :
  n ∈ hidden ->
  forall properties,
    foldl (add_group hidden) properties groups !! n = properties !! n.
Proof.
  intros Hn. induction groups as [|g groups IH]; intros properties; simpl.
  - reflexivity.
  - rewrite IH. now apply add_group_hidden.
Qed.

Lemma foldl_proto (groups : list FormGroup) :
  forall properties,
    foldl (add_group hidden) properties groups !! "__proto__"
    = properties !! "__proto__".
Proof.
  induction groups as [|g groups IH]; intros properties; simpl.
  - reflexivity.
  - rewrite IH. apply add_group_proto.
Qed.

Lemma foldl_other (groups : list FormGroup) (n : string) :
  n ∉ propertyName <$> groups ->
  forall properties,
    foldl (add_group hidden) properties groups !! n = properties !! n.
Proof.
  induction groups as [|g groups IH]; intros Hn properties; simpl.
  - reflexivity.
  - simpl in Hn. apply not_elem_of_cons in Hn as [Hne Hrest].
    rewrite IH by exact Hrest. now apply add_group_other.
Qed.

(** With distinct names, the entry of a visible group of a name other
    than [__proto__] is what the group itself contributes. *)
Lemma foldl_entry (groups : list FormGroup) (group : FormGroup) :
  NoDup (propertyName <$> groups) ->
  group ∈ groups ->
  propertyName group ∉ hidden ->
  propertyName group <> "__proto__" ->
  forall properties,
    foldl (add_group hidden) properties groups !! propertyName group
    = match payload_entry (propertyType group)
              (getFieldValue group (propertyType group)) with
      | Some p => Some p
      | None => properties !! propertyName group
      end.
Proof.
  induction groups as [|g groups IH]; intros Hnd Hin Hvis Hown properties.
  - now apply elem_of_nil in Hin.
  - simpl in Hnd. apply NoDup_cons in Hnd as [Hfresh Hnd].
    apply elem_of_cons in Hin as [->|Hin]; simpl.
    + rewrite foldl_other by exact Hfresh.
      unfold add_group. destruct (decide (propertyName g ∈ hidden)); [contradiction|].
      destruct (payload_entry _ _); [|reflexivity].
      now apply assign_own.
    + rewrite IH by assumption.
      destruct (payload_entry _ _); [reflexivity|].
      apply add_group_other. intros Heq. apply Hfresh. rewrite <- Heq.
      now apply list_elem_of_fmap_2.
Qed.

Lemma buildPayload_entry (groups : list FormGroup) (group : FormGroup) :
  NoDup (propertyName <$> groups) ->
  group ∈ groups ->
  propertyName group ∉ hidden ->
  propertyName group <> "__proto__" ->
  buildPayload hidden groups !! propertyName group
  = payload_entry (propertyType group) (getFieldValue group (propertyType group)).
Proof.
  intros Hnd Hin Hvis Hown. unfold buildPayload.
  rewrite foldl_entry by assumption.
  destruct (payload_entry _ _); [reflexivity | apply lookup_empty].
Qed.

End Builder.

(** What a title group contributes: its text, or the placeholder. *)
Lemma title_entry (value : string) :
  payload_entry title value = Some (P_title [text_block (or_else value "Untitled")]).
Proof.
  unfold payload_entry, has_value, or_else. destruct (truthy value) eqn:E; simpl.
  - unfold PropertyFormatters.title, or_else. now rewrite E.
  - reflexivity.
Qed.

(** C3, as stated, fails: a tag picker with no tag selected and an
    unchecked checkbox are non-title fields with nothing set, and both are
    keys of the payload, with the empty list and [false]. *)
Lemma payload_counterexample :
  let groups := [tags_group "Skills" [("Rocq", false)] [];
                 checkbox_group "Applied" false] in
  buildPayload ∅ groups !! "Skills" = Some (P_multi_select [])
  /\ buildPayload ∅ groups !! "Applied" = Some (P_checkbox false).
Proof. split; vm_compute; reflexivity. Qed.

(** C3, amended: a name in the hidden set is never a key of the payload,
    and no more is the name [__proto__], which the assignment to the
    payload object does not create.  For groups of distinct names, a group
    that is not hidden and not named [__proto__] has exactly the entry it
    contributes itself: a title group is always a key, with its text or,
    when that is empty, the placeholder [Untitled]; a checkbox and a tag
    picker are always keys, with their state even when it is [false] or
    the empty list; a number group with an empty input, and a group of any
    other type whose control holds the empty string, is not a key. *)
Theorem payload_keys (hidden : gset string) (groups : list FormGroup) :
  (forall n, n ∈ hidden -> buildPayload hidden groups !! n = None)
  /\ buildPayload hidden groups !! "__proto__" = None
  /\ (NoDup (propertyName <$> groups) ->
      forall group, group ∈ groups -> propertyName group ∉ hidden ->
        propertyName group <> "__proto__" ->
        let found := buildPayload hidden groups !! propertyName group in
        found = payload_entry (propertyType group)
                  (getFieldValue group (propertyType group))
        /\ (propertyType group = title ->
            found = Some (P_title
                            [text_block (or_else (getFieldValue group title) "Untitled")]))
        /\ (propertyType group = checkbox ->
            found = Some (P_checkbox (getFieldValue group checkbox)))
        /\ (propertyType group = multi_select ->
            found = Some (P_multi_select (getFieldValue group multi_select)))
        /\ (propertyType group <> title ->
            propertyType group <> checkbox ->
            propertyType group <> multi_select ->
            field_value group = Some "" -> found = None)).
Proof.
  split; [|split].
  - intros n Hn. unfold buildPayload. rewrite foldl_hidden by exact Hn.
    apply lookup_empty.
  - unfold buildPayload. rewrite foldl_proto. apply lookup_empty.
  - intros Hnd group Hin Hvis Hown found. subst found.
    rewrite (buildPayload_entry hidden groups group Hnd Hin Hvis Hown).
    split; [reflexivity|].
    destruct group as [n ty fv cc hv so ts]; simpl in *.
    repeat split.
    + intros ->. apply title_entry.
    + intros ->. reflexivity.
    + intros ->. reflexivity.
    + intros H1 H2 H3 ->. destruct ty; try reflexivity; congruence.
Qed.

Lemma payload_keys_witness :
  let groups := [text_group "Name" title ""; text_group "Notes" rich_text "";
                 text_group "Secret" url "https://example.test";
                 text_group "__proto__" title "Engineer"] in
  buildPayload {["Secret"]} groups !! "Name"
  = Some (P_title [text_block "Untitled"])
  /\ buildPayload {["Secret"]} groups !! "Notes" = None
  /\ buildPayload {["Secret"]} groups !! "Secret" = None
  /\ buildPayload {["Secret"]} groups !! "__proto__" = None.
Proof.
  intros groups.
  assert (Hnd : NoDup (propertyName <$> groups)).
  { apply (bool_decide_unpack (NoDup (propertyName <$> groups))). vm_compute. exact I. }
  assert (Hvis1 : "Name" ∉ ({["Secret"]} : gset string)) by set_solver.
  assert (Hvis2 : "Notes" ∉ ({["Secret"]} : gset string)) by set_solver.
  destruct (payload_keys {["Secret"]} groups) as (Hhidden & Hproto & Hvisible).
  split; [|split; [|split]].
  - apply (Hvisible Hnd (text_group "Name" title ""));
      [apply list_elem_of_here | exact Hvis1 | discriminate | reflexivity].
  - apply (Hvisible Hnd (text_group "Notes" rich_text ""));
      [apply list_elem_of_further, list_elem_of_here | exact Hvis2 | discriminate
      | discriminate | discriminate | discriminate | reflexivity].
  - apply Hhidden. now apply elem_of_singleton.
  - exact Hproto.
Defined.

End Payload.

(* ===================================================================== *)
(** * Saving *)
(* ===================================================================== *)

Module Saving.
Import JsString JsStringFacts NotionApi Popup Samples.

Section Store.
Variable notionApi : ApiCall -> Response.

(** A submit makes exactly one call: an update of the existing page when
    there is one, a creation otherwise. *)
Lemma handleSubmit_one_call (s : Session) :
  calls (handleSubmit notionApi s)
  = [match editing s with
     | Some id => updatePage id (buildPayload (hiddenFields s) (formFields s))
     | None => createPage (buildPayload (hiddenFields s) (formFields s))
     end].
Proof.
  unfold handleSubmit. destruct (editing s) as [id|].
  - now destruct (notionApi _).
  - now destruct (notionApi _).
Qed.

(** A submit never changes which page, if any, is being edited, nor the
    form. *)
Lemma handleSubmit_keeps_mode (s : Session) :
  existingPageId (session (handleSubmit notionApi s)) = existingPageId s
  /\ formFields (session (handleSubmit notionApi s)) = formFields s
  /\ hiddenFields (session (handleSubmit notionApi s)) = hiddenFields s.
Proof.
  unfold handleSubmit. destruct (editing s) as [id|].
  - now destruct (notionApi _).
  - now destruct (notionApi _).
Qed.

(** So a second submit on a new entry creates a second page. *)
Lemma second_submit_creates_again (s : Session) :
  editing s = None ->
  calls (twice (handleSubmit notionApi) s)
  = [createPage (buildPayload (hiddenFields s) (formFields s));
     createPage (buildPayload (hiddenFields s) (formFields s))].
Proof.
  intros Hnew. unfold twice; simpl.
  destruct (handleSubmit_keeps_mode s) as (Hid & Hform & Hhidden).
  rewrite !handleSubmit_one_call.
  assert (He : editing (session (handleSubmit notionApi s)) = None).
  { unfold editing in *. now rewrite Hid. }
  now rewrite He, Hnew, Hform, Hhidden.
Qed.

(** The background save does move to the created page, and its second
    round is an update of that page. *)
Lemma second_background_save_updates (s : Session) (id : string) :
  editing s = None ->
  notionApi (createPage (buildPayload (hiddenFields s) (formFields s))) = Resolved id ->
  truthy id = true ->
  calls (twice (handleBackgroundSave notionApi) s)
  = [createPage (buildPayload (hiddenFields s) (formFields s));
     updatePage id (buildPayload (hiddenFields s) (formFields s))].
Proof.
  intros Hnew Hcreated Hid. unfold twice, handleBackgroundSave.
  rewrite Hnew, Hcreated. simpl.
  unfold editing at 1. simpl. rewrite Hid.
  now destruct (notionApi (updatePage id _)).
Qed.

End Store.

(** C5, on the code: on a new entry the submit handler issues one
    [createPage] call and, the store having accepted it, still holds no
    page id; a second submit from the same popup, here through the
    quick-save shortcut, issues [createPage] again.  The background save,
    from the same state, follows its creation with an update of the page
    created. *)
Theorem second_submit_duplicates :
  let properties := buildPayload ∅ (formFields new_entry) in
  let first := handleSubmit accepting_store new_entry in
  calls first = [createPage properties]
  /\ shown_error first = None
  /\ existingPageId (session first) = None
  /\ calls (quickSave accepting_store (session first)) = [createPage properties]
  /\ calls (twice (handleBackgroundSave accepting_store) new_entry)
     = [createPage properties; updatePage "1f2e-77" properties].
Proof. repeat split. Qed.

(** An existing entry is updated under its own id, once. *)
Example submit_on_existing_entry (s : Session) (id : string) :
  existingPageId s = Some id -> truthy id = true ->
  calls (handleSubmit accepting_store s)
  = [updatePage id (buildPayload (hiddenFields s) (formFields s))].
Proof.
  intros Hid Ht. rewrite handleSubmit_one_call.
  unfold editing. now rewrite Hid, Ht.
Qed.

End Saving.

(* ===================================================================== *)
(** * Rendering over an existing row *)
(* ===================================================================== *)

Module Rendering.
Import JsString JsStringFacts Dom NotionApi Popup Samples.

(** C6, as stated, fails: the stored row has an entry for [Role], the empty
    title, and the title field is rendered with the role name taken from
    the page, not with the parsed existing value; the same for a URL
    field whose existing value is empty. *)
Lemma existing_empty_counterexample :
  let existingData := parseNotionPage untitled_row role_schema in
  existingData !! "Role" = Some (ParsedText "")
  /\ field_value (renderTitleField no_number_text "Role" acme_tab (Some existingData))
     = Some "Backend Engineer"
  /\ field_value (renderUrlField no_number_text "Link" acme_tab
                    (Some {[ "Link" := ParsedText "" ]}))
     = Some "https://jobs.acme.test/123".
Proof. repeat split. Qed.

(** Without an existing row: the location drop-down takes the option the
    matcher finds, the status drop-down stays unset, and the payload has
    the location and no status. *)
Example new_entry_choices :
  let form := [renderSelectField no_number_text "Status" status_column acme_tab None;
               renderSelectField no_number_text "Location" location_column acme_tab None] in
  field_value <$> form = [Some ""; Some "Remote"]
  /\ buildPayload ∅ form !! "Location" = Some (P_select (Some "Remote"))
  /\ buildPayload ∅ form !! "Status" = None.
Proof. repeat split. Qed.

Section Existing.
Variable number_text : NumberValue -> string.
Variable n : string.
Variable tab : TabInfo.
Variable values : gmap string Parsed.

Lemma existing_or_text (s defaultValue : string) :
  values !! n = Some (ParsedText s) ->
  existing_or number_text (Some values) n defaultValue
  = if truthy s then s else defaultValue.
Proof. intros H. unfold existing_or, existing_entry. simpl. now rewrite H. Qed.

Lemma has_existing_text (s : string) :
  values !! n = Some (ParsedText s) -> has_existing (Some values) n = truthy s.
Proof. intros H. unfold has_existing, existing_entry. simpl. now rewrite H. Qed.

Lemma existing_or_none (defaultValue : string) :
  existing_or number_text None n defaultValue = defaultValue.
Proof. reflexivity. Qed.

Lemma assign_select_member (opts : list string) (v : string) :
  In v opts -> assign_select opts v = v.
Proof.
  intros Hin. unfold assign_select.
  replace (existsb (String.eqb v) opts) with true; [reflexivity|].
  symmetry. apply existsb_exists. exists v. split; [exact Hin | apply String.eqb_refl].
Qed.

End Existing.

(** C6, amended: with an existing row, a field whose column has a parsed
    value in the row is rendered from that value, whatever the signals
    say, unless the value is the empty string.  A text that is not empty
    is put into a title, rich-text, URL, e-mail or phone field, which
    keeps of it what its control keeps (all of it when it has no line
    break, but for the blanks at the ends in a URL or e-mail field), into
    a date field as its ISO date, and into a select or status field when
    it is one of the options of the column.  A number, zero included, is
    put into a number field as its text; a boolean, [false] included, is
    the state of a checkbox; a list of names, the empty list included, is
    the list of a tag picker, whose tags of these names are selected.  The
    empty string counts as no value: every field is then rendered exactly
    as it is without an existing row, and so is a number field for the
    empty text that stands for no number.  The name of the column has no
    markup in it. *)
Theorem existing_value_wins_unless_empty (number_text : NumberValue -> string)
    (iso_date : string -> option string) (n : string) (tab : TabInfo)
    (values : gmap string Parsed) :
  no_markup n ->
  let existingData := Some values in
  (forall s, values !! n = Some (ParsedText s) -> s <> "" ->
     field_value (renderTitleField number_text n tab existingData)
     = Some (sanitize TextInput s)
     /\ field_value (renderRichTextField number_text n tab existingData)
        = Some (sanitize (rich_text_control n) s)
     /\ field_value (renderUrlField number_text n tab existingData)
        = Some (sanitize UrlInput s)
     /\ field_value (renderEmailField number_text n existingData)
        = Some (sanitize EmailInput s)
     /\ field_value (renderPhoneField number_text n existingData)
        = Some (sanitize TelInput s)
     /\ renderDateField iso_date n existingData
        = Some (text_group n date
                  (sanitize DateInput
                     match iso_date s with Some d => d | None => s end))
     /\ (forall ty property opts,
          options property = Some opts -> In s (map name opts) ->
          field_value (render_choice number_text ty n property tab existingData)
          = Some s)
     /\ (single_line s ->
         field_value (renderTitleField number_text n tab existingData) = Some s
         /\ field_value (renderRichTextField number_text n tab existingData) = Some s
         /\ field_value (renderPhoneField number_text n existingData) = Some s
         /\ field_value (renderUrlField number_text n tab existingData)
            = Some (strip_blanks s)
         /\ field_value (renderEmailField number_text n existingData)
            = Some (strip_blanks s)))
  /\ (forall x, values !! n = Some (ParsedNumber (Num x)) ->
      field_value (renderNumberField number_text n existingData)
      = Some (sanitize NumberInput (number_text (Num x))))
  /\ (forall b, values !! n = Some (ParsedBool b) ->
      checkbox_checked (renderCheckboxField n existingData) = Some b)
  /\ (forall l property, values !! n = Some (ParsedList l) ->
      exists group,
        renderMultiSelectField n property existingData = Some group
        /\ hidden_values group = Some l
        /\ tags group
           = map (fun v => (v, existsb (String.eqb v) l))
               match options property with
               | Some opts => map name opts
               | None => []
               end)
  /\ (values !! n = Some (ParsedText "") ->
      renderTitleField number_text n tab existingData
      = renderTitleField number_text n tab None
      /\ renderRichTextField number_text n tab existingData
         = renderRichTextField number_text n tab None
      /\ renderUrlField number_text n tab existingData
         = renderUrlField number_text n tab None
      /\ renderEmailField number_text n existingData
         = renderEmailField number_text n None
      /\ renderPhoneField number_text n existingData
         = renderPhoneField number_text n None
      /\ renderNumberField number_text n existingData
         = renderNumberField number_text n None
      /\ renderCheckboxField n existingData = renderCheckboxField n None
      /\ renderDateField iso_date n existingData = renderDateField iso_date n None
      /\ (forall property,
          renderMultiSelectField n property existingData
          = renderMultiSelectField n property None)
      /\ (forall ty property,
          render_choice number_text ty n property tab existingData
          = render_choice number_text ty n property tab None))
  /\ (values !! n = Some (ParsedNumber (NumText "")) ->
      renderNumberField number_text n existingData
      = renderNumberField number_text n None).
Proof.
  intros _ existingData. subst existingData.
  split; [|split; [|split; [|split; [|split]]]].
  6: { intros Hentry. unfold renderNumberField, existing_entry. simpl.
       now rewrite Hentry. }
  - intros s Hentry Hne.
    assert (Ht : truthy s = true).
    { destruct (truthy s) eqn:E; [reflexivity|].
      apply truthy_empty in E. contradiction. }
    pose proof (has_existing_text n values s Hentry) as Hhas. rewrite Ht in Hhas.
    assert (Hor : forall d, existing_or number_text (Some values) n d = s).
    { intros d. rewrite (existing_or_text number_text n values s d Hentry).
      now rewrite Ht. }
    assert (H1 : field_value (renderTitleField number_text n tab (Some values))
                 = Some (sanitize TextInput s)).
    { unfold renderTitleField. cbn [field_value text_group]. now rewrite Hor. }
    assert (H2 : field_value (renderRichTextField number_text n tab (Some values))
                 = Some (sanitize (rich_text_control n) s)).
    { unfold renderRichTextField. cbn [field_value text_group]. now rewrite Hor. }
    assert (H3 : field_value (renderUrlField number_text n tab (Some values))
                 = Some (sanitize UrlInput s)).
    { unfold renderUrlField. cbn [field_value text_group]. now rewrite Hor. }
    assert (H4 : field_value (renderEmailField number_text n (Some values))
                 = Some (sanitize EmailInput s)).
    { unfold renderEmailField. cbn [field_value text_group]. now rewrite Hor. }
    assert (H5 : field_value (renderPhoneField number_text n (Some values))
                 = Some (sanitize TelInput s)).
    { unfold renderPhoneField. cbn [field_value text_group]. now rewrite Hor. }
    do 5 (split; [assumption|]).
    split; [|split].
    + unfold renderDateField, existing_entry. simpl. rewrite Hentry. now rewrite Ht.
    + intros ty property opts Hopts Hin.
      unfold render_choice. rewrite Hhas, Hopts.
      unfold existing_entry; simpl. rewrite Hentry; simpl. rewrite Ht.
      f_equal. apply assign_select_member. now right.
    + intros Hline.
      destruct (DomFacts.sanitize_single_line s Hline) as (E1 & E2 & E3 & E4 & E5).
      rewrite H1, H2, H3, H4, H5, E1, E2, E4, E5.
      split; [reflexivity|]. split; [|now repeat split].
      f_equal. unfold rich_text_control.
      destruct (isCompanyNameField n); assumption.
  - intros x Hentry. unfold renderNumberField, existing_entry. simpl.
    now rewrite Hentry.
  - intros b Hentry. unfold renderCheckboxField, existing_entry. simpl.
    now rewrite Hentry.
  - intros l property Hentry. eexists.
    unfold renderMultiSelectField, existingValues, existing_entry. simpl.
    rewrite Hentry. split; [reflexivity|]. split; reflexivity.
  - intros Hentry.
    pose proof (has_existing_text n values "" Hentry) as Hhas. simpl in Hhas.
    assert (Hor : forall d, existing_or number_text (Some values) n d = d).
    { intros d. now rewrite (existing_or_text number_text n values "" d Hentry). }
    repeat split.
    + unfold renderTitleField. now rewrite Hhas, Hor.
    + unfold renderRichTextField. now rewrite Hhas, Hor.
    + unfold renderUrlField. now rewrite Hor.
    + unfold renderEmailField. now rewrite Hor.
    + unfold renderPhoneField. now rewrite Hor.
    + unfold renderNumberField, existing_entry. simpl. now rewrite Hentry.
    + unfold renderCheckboxField, existing_entry. simpl. now rewrite Hentry.
    + unfold renderDateField, existing_entry. simpl. now rewrite Hentry.
    + intros property. unfold renderMultiSelectField, existingValues, existing_entry.
      simpl. now rewrite Hentry.
    + intros ty property. unfold render_choice. now rewrite Hhas.
Qed.

Lemma existing_value_wins_unless_empty_witness :
  field_value (renderTitleField no_number_text "Role" acme_tab
                 (Some {[ "Role" := ParsedText "Staff Engineer" ]}))
  = Some "Staff Engineer"
  /\ checkbox_checked (renderCheckboxField "Applied"
                         (Some {[ "Applied" := ParsedBool false ]}))
     = Some false.
Proof.
  split.
  - assert (Hentry : ({[ "Role" := ParsedText "Staff Engineer" ]} : gmap string Parsed)
                       !! "Role" = Some (ParsedText "Staff Engineer")).
    { apply lookup_singleton_eq. }
    assert (Hne : "Staff Engineer" <> "") by discriminate.
    assert (Hname : no_markup "Role") by reflexivity.
    destruct (existing_value_wins_unless_empty no_number_text no_date "Role" acme_tab
                {[ "Role" := ParsedText "Staff Engineer" ]} Hname) as (Htext & _).
    destruct (Htext "Staff Engineer" Hentry Hne) as (_ & _ & _ & _ & _ & _ & _ & Hline).
    apply Hline. reflexivity.
  - assert (Hname : no_markup "Applied") by reflexivity.
    destruct (existing_value_wins_unless_empty no_number_text no_date "Applied"
                acme_tab {[ "Applied" := ParsedBool false ]} Hname)
      as (_ & _ & Hbool & _).
    apply Hbool. apply lookup_singleton_eq.
Defined.

End Rendering.

(* ===================================================================== *)
(** * Filling a select or status field from the AI response *)
(* ===================================================================== *)

Module AiFill.
Import JsString JsStringFacts NotionApi Popup Samples Rendering.



Lemma find_nothing {A : Type} (p : A -> bool) (l : list A) :
  (forall x, In x l -> p x = false) -> List.find p l = None.
Proof.
  induction l as [|a l IH]; intros H; simpl; [reflexivity|].
  rewrite (H a) by now left. apply IH. intros x Hx. apply H. now right.
Qed.


Section OneGroup.
Variable iso_date : string -> option string.


End OneGroup.



Section WholeForm.
Variable iso_date : string -> option string.
Variable to_text : JsValue -> string.
Variable to_date : JsValue -> option string.
Variable css_query : string -> list string -> Lookup.

Lemma index_of_found (fieldName : string) (form : list FormGroup) (i : nat) :
  index_of fieldName form = Some i ->
  exists group, form !! i = Some group /\ propertyName group = fieldName.
Proof.
  revert i. induction form as [|g form IH]; intros i; simpl; [discriminate|].
  destruct (String.eqb_spec (propertyName g) fieldName) as [Heq|Hne].
  - intros [= <-]. now exists g.
  - destruct (index_of fieldName form) as [k|]; simpl; [|discriminate].
    intros [= <-]. now apply IH.
Qed.

Lemma index_of_first (before_it after_it : list FormGroup) (group : FormGroup) :
  Forall (fun g => propertyName g <> propertyName group) before_it ->
  index_of (propertyName group) (before_it ++ group :: after_it)%list
  = Some (length before_it).
Proof.
  induction 1 as [|g0 rest Hne _ IH]; simpl.
  - now rewrite String.eqb_refl.
  - destruct (String.eqb_spec (propertyName g0) (propertyName group)); [contradiction|].
    now rewrite IH.
Qed.

(** On the whole form, the group filled is the first one of the name,
    for a name that the selector takes as it stands. *)
Lemma fillFormField_first_group (before_it after_it : list FormGroup)
    (group : FormGroup) (value : JsValue) :
  plain_selector (propertyName group) = true ->
  Forall (fun g => propertyName g <> propertyName group) before_it ->
  fillFormField iso_date to_text to_date css_query
    (before_it ++ group :: after_it)%list (propertyName group) value
  = ((before_it ++ fst (fill_value iso_date to_text to_date group value)
                :: after_it)%list,
     snd (fill_value iso_date to_text to_date group value)).
Proof.
  intros Hplain Hfirst. unfold fillFormField, querySelector.
  rewrite Hplain, (index_of_first before_it after_it group Hfirst).
  rewrite list_lookup_middle by reflexivity.
  destruct (fill_value iso_date to_text to_date group value) as [group' completion].
  cbn [fst snd]. f_equal.
  rewrite insert_app_r_alt by lia. now rewrite Nat.sub_diag.
Qed.

(** On the whole form, the fill touches the first group of the name only. *)
Lemma fillFormField_other_groups (form : list FormGroup) (fieldName : string)
    (value : JsValue) :
  plain_selector fieldName = true ->
  length (fst (fillFormField iso_date to_text to_date css_query form fieldName value))
  = length form
  /\ forall i g, form !! i = Some g -> propertyName g <> fieldName ->
                 fst (fillFormField iso_date to_text to_date css_query
                        form fieldName value) !! i = Some g.
Proof.
  intros Hplain. unfold fillFormField, querySelector. rewrite Hplain.
  destruct (index_of fieldName form) as [k|] eqn:Ek; [|now split].
  destruct (index_of_found fieldName form k Ek) as (group & Hk & Hname).
  rewrite Hk.
  destruct (fill_value iso_date to_text to_date group value) as [group' completion].
  cbn [fst]. split; [apply length_insert|].
  intros i g Hg Hne. destruct (decide (i = k)) as [->|Hik].
  - rewrite Hk in Hg. injection Hg as <-. contradiction.
  - now rewrite list_lookup_insert_ne.
Qed.

End WholeForm.

End AiFill.

(* ===================================================================== *)
(** * More facts about the string operations *)
(* ===================================================================== *)

Module TextFacts.
Import JsString JsStringFacts.

Lemma truthy_true (s : string) : s <> "" -> truthy s = true.
Proof. destruct s; [contradiction | reflexivity]. Qed.

Lemma truthy_not_empty (s : string) : truthy s = true -> s <> "".
Proof. intros H ->. discriminate H. Qed.

Lemma includes_empty (s : string) : includes s "" = true.
Proof. destruct s; reflexivity. Qed.

Lemma prefix_app (a b : string) : String.prefix a (a +:+ b) = true.
Proof.
  induction a as [|c a IH]; [now destruct b|].
  rewrite app_cons. simpl. destruct (ascii_dec c c); [apply IH | contradiction].
Qed.

Lemma prefix_cons (a b : ascii) (s t : string) :
  String.prefix (String a s) (String b t)
  = if ascii_dec a b then String.prefix s t else false.
Proof. reflexivity. Qed.

(** A separator is found where it stands. *)
Lemma includes_after (r sep rest : string) :
  includes (r +:+ sep +:+ rest) sep = true.
Proof.
  induction r as [|c r IH].
  - rewrite app_nil_l.
    assert (H : forall hay, String.prefix sep hay = true -> includes hay sep = true).
    { intros [|d hay] Hp; simpl; simpl in Hp; rewrite Hp; reflexivity. }
    apply H, prefix_app.
  - rewrite app_cons. simpl. rewrite IH. apply orb_true_r.
Qed.

Lemma length_app (a b : string) :
  String.length (a +:+ b) = String.length a + String.length b.
Proof.
  induction a as [|c a IH]; [reflexivity|]. rewrite app_cons. simpl. now rewrite IH.
Qed.

Lemma length_take_exact (n : nat) (s : string) :
  n <= String.length s -> String.length (take n s) = n.
Proof.
  revert s. induction n as [|n IH]; intros [|c s]; simpl; intros H;
    try reflexivity; try lia.
  rewrite IH by lia. reflexivity.
Qed.

Lemma take_app_exact (a b : string) : take (String.length a) (a +:+ b) = a.
Proof.
  induction a as [|c a IH].
  - now destruct b.
  - rewrite app_cons. simpl. now rewrite IH.
Qed.

Lemma length_drop (n : nat) (s : string) :
  String.length (drop n s) = String.length s - n.
Proof.
  revert s. induction n as [|n IH]; intros [|c s]; simpl; try reflexivity.
  apply IH.
Qed.

End TextFacts.

(* ===================================================================== *)
(** * The fields shown and their order *)
(* ===================================================================== *)

Module FormLayoutFacts.
Import JsString NotionApi Popup FormLayout Fixtures.
#[local] Open Scope list_scope.

Lemma insert_entry_perm (x : Entry) (l : list Entry) :
  insert_entry x l ≡ₚ x :: l.
Proof.
  induction l as [|y l IH]; simpl; [reflexivity|].
  destruct (Nat.leb (priority x) (priority y)); [reflexivity|].
  rewrite IH. apply Permutation_swap.
Qed.

Lemma sort_entries_perm (l : list Entry) : sort_entries l ≡ₚ l.
Proof.
  induction l as [|x l IH]; simpl; [reflexivity|].
  rewrite insert_entry_perm. now rewrite IH.
Qed.

Lemma insert_entry_sorted (x : Entry) (l : list Entry) :
  StronglySorted by_priority l -> StronglySorted by_priority (insert_entry x l).
Proof.
  induction l as [|y l IH]; intros Hs; simpl.
  - constructor; constructor.
  - apply StronglySorted_inv in Hs as [Hl Hy].
    destruct (Nat.leb_spec (priority x) (priority y)) as [Hle|Hgt].
    + constructor.
      * now constructor.
      * constructor; [exact Hle|].
        eapply Forall_impl; [exact Hy|].
        intros z Hz. unfold by_priority in *. lia.
    + constructor; [now apply IH|].
      rewrite insert_entry_perm. constructor; [|exact Hy].
      unfold by_priority. lia.
Qed.

Lemma sort_entries_sorted (l : list Entry) :
  StronglySorted by_priority (sort_entries l).
Proof.
  induction l as [|x l IH]; simpl; [constructor|].
  now apply insert_entry_sorted.
Qed.

(** Inserting an entry leaves the entries of any one priority in the order
    they had, the new one in front of its equals. *)
Lemma insert_entry_stable (p : nat) (x : Entry) (l : list Entry) :
  StronglySorted by_priority l ->
  filter (fun e => priority e = p) (insert_entry x l)
  = filter (fun e => priority e = p) (x :: l).
Proof.
  induction l as [|y l IH]; intros Hs; simpl; [reflexivity|].
  apply StronglySorted_inv in Hs as [Hl Hy].
  destruct (Nat.leb_spec (priority x) (priority y)) as [Hle|Hgt]; [reflexivity|].
  rewrite filter_cons, (IH Hl), !filter_cons.
  destruct (decide (priority y = p)) as [Ey|Ny];
    destruct (decide (priority x = p)) as [Ex|Nx]; try reflexivity.
  lia.
Qed.

Lemma sort_entries_stable (p : nat) (l : list Entry) :
  filter (fun e => priority e = p) (sort_entries l)
  = filter (fun e => priority e = p) l.
Proof.
  induction l as [|x l IH]; simpl; [reflexivity|].
  rewrite insert_entry_stable by apply sort_entries_sorted.
  rewrite !filter_cons, IH. reflexivity.
Qed.

(** What the map built from a list holds comes from the list. *)
Lemma props_map_member (l : list Entry) (n : string) (v : option ColumnType) :
  props_map l !! n = Some v -> (n, v) ∈ l.
Proof.
  unfold props_map.
  assert (G : forall (m : gmap string (option ColumnType)),
             foldl (fun m e => <[fst e := snd e]> m) m l !! n = Some v ->
             m !! n = Some v \/ (n, v) ∈ l).
  { induction l as [|[k w] l IH]; intros m H; simpl in *; [now left|].
    destruct (IH _ H) as [Hm|Hin].
    - destruct (decide (k = n)) as [->|Hne].
      + rewrite lookup_insert_eq in Hm. injection Hm as ->. right. left.
      + rewrite lookup_insert_ne in Hm by exact Hne. now left.
    - right. now right. }
  intros H. destruct (G ∅ H) as [Hm|Hin]; [|exact Hin].
  rewrite lookup_empty in Hm. discriminate Hm.
Qed.

(** And it holds an entry for every name of the list. *)
Lemma props_map_has (l : list Entry) (n : string) :
  n ∈ (fst <$> l) -> is_Some (props_map l !! n).
Proof.
  unfold props_map.
  assert (G : forall (m : gmap string (option ColumnType)),
             is_Some (m !! n) \/ n ∈ (fst <$> l) ->
             is_Some (foldl (fun m e => <[fst e := snd e]> m) m l !! n)).
  { induction l as [|[k w] l IH]; intros m H; simpl in *.
    - destruct H as [H|H]; [exact H | now apply elem_of_nil in H].
    - apply IH. destruct H as [H|H].
      + left. destruct (decide (k = n)) as [->|Hne].
        * rewrite lookup_insert_eq. eauto.
        * now rewrite lookup_insert_ne.
      + apply elem_of_cons in H as [->|H]; [|now right].
        left. rewrite lookup_insert_eq. eauto. }
  intros H. apply G. now right.
Qed.

Section Layout.
Variable hiddenFields : gset string.
Variable properties : list Entry.

Lemma visible_member (e : Entry) :
  e ∈ visibleProps hiddenFields properties
  <-> (fst e ∉ hiddenFields) /\ supported e = true /\ e ∈ properties.
Proof.
  unfold visibleProps. rewrite list_elem_of_filter. tauto.
Qed.

Lemma ordered_by_member (propsMap : gmap string (option ColumnType))
    (fieldOrder : list string) (e : Entry) :
  e ∈ ordered_by hiddenFields propsMap fieldOrder
  <-> fst e ∈ fieldOrder /\ propsMap !! fst e = Some (snd e)
      /\ fst e ∉ hiddenFields.
Proof.
  induction fieldOrder as [|n rest IH]; simpl.
  - split; [intros H; now apply elem_of_nil in H|].
    intros [H _]. now apply elem_of_nil in H.
  - destruct (propsMap !! n) as [prop|] eqn:E.
    + case_bool_decide as Hv.
      * rewrite !elem_of_cons, IH. split.
        -- intros [->|(H1 & H2 & H3)]; simpl; [now auto|]. now auto.
        -- intros ([Hn|Hin] & Hl & Hvis).
           ++ left. destruct e as [k w]; simpl in *. subst k. congruence.
           ++ right. now auto.
      * rewrite IH, elem_of_cons. split; [now intuition|].
        intros ([Hn|Hin] & Hl & Hvis); [|now auto].
        subst n. contradiction.
    + rewrite IH, elem_of_cons. split; [now intuition|].
      intros ([Hn|Hin] & Hl & Hvis); [|now auto].
      subst n. congruence.
Qed.

Lemma ordered_by_names (propsMap : gmap string (option ColumnType))
    (fieldOrder : list string) :
  fst <$> ordered_by hiddenFields propsMap fieldOrder
  = filter (fun n => is_Some (propsMap !! n) /\ n ∉ hiddenFields) fieldOrder.
Proof.
  induction fieldOrder as [|n rest IH]; simpl; [reflexivity|].
  rewrite filter_cons.
  destruct (propsMap !! n) as [prop|] eqn:E.
  - case_bool_decide as Hv.
    + destruct (decide _) as [_|Hn]; [rewrite fmap_cons; simpl; f_equal; exact IH|].
      exfalso. apply Hn. split; [eauto | exact Hv].
    + destruct (decide _) as [[_ Hv']|_]; [contradiction | exact IH].
  - destruct (decide _) as [[[? Hs] _]|_]; [discriminate Hs | exact IH].
Qed.

Lemma filter_ext_in {A : Type} (P Q : A -> Prop) `{!forall x, Decision (P x)}
    `{!forall x, Decision (Q x)} (l : list A) :
  (forall x, x ∈ l -> P x <-> Q x) -> filter P l = filter Q l.
Proof.
  induction l as [|a l IH]; intros Hext; [reflexivity|].
  rewrite !filter_cons.
  assert (Ha : P a <-> Q a) by (apply Hext; left).
  rewrite IH by (intros x Hx; apply Hext; now right).
  destruct (decide (P a)), (decide (Q a)); tauto.
Qed.

Lemma filter_all {A : Type} (P : A -> Prop) `{!forall x, Decision (P x)}
    (l : list A) :
  (forall x, x ∈ l -> P x) -> filter P l = l.
Proof.
  induction l as [|a l IH]; intros Hall; [reflexivity|].
  rewrite filter_cons_True by (apply Hall; left).
  f_equal. apply IH. intros x Hx. apply Hall. now right.
Qed.

(** A visible entry has been put in place from [fieldOrder] exactly when
    its name is in [fieldOrder]. *)
Lemma seen_iff (fieldOrder : list string) (e : Entry) :
  e ∈ visibleProps hiddenFields properties ->
  fst e ∈ (list_to_set
             (fst <$> ordered_by hiddenFields
                        (props_map (visibleProps hiddenFields properties))
                        fieldOrder) : gset string)
  <-> fst e ∈ fieldOrder.
Proof.
  intros He. rewrite elem_of_list_to_set, ordered_by_names, list_elem_of_filter.
  split; [now intros [_ H]|]. intros H. split; [|exact H]. split.
  - apply props_map_has. now apply list_elem_of_fmap_2.
  - now apply visible_member in He.
Qed.

(** The shape of [sortedProps], with or without a saved order. *)
Lemma sortedProps_shape (fieldOrder : list string) :
  sortedProps hiddenFields fieldOrder properties
  = ordered_by hiddenFields (props_map (visibleProps hiddenFields properties))
      fieldOrder
    ++ sort_entries (filter (fun e => fst e ∉ fieldOrder)
                            (visibleProps hiddenFields properties)).
Proof.
  unfold sortedProps. destruct fieldOrder as [|n rest].
  - simpl. f_equal. symmetry. apply filter_all.
    intros x _ Hx. now apply elem_of_nil in Hx.
  - f_equal. f_equal. apply filter_ext_in.
    intros e He. now rewrite seen_iff.
Qed.

End Layout.

(** X1: every field [renderForm] shows is a column of the schema of a
    supported type whose name is not hidden, whatever the saved order
    holds. *)
Theorem rendered_fields_are_visible_columns (hiddenFields : gset string)
    (fieldOrder : list string) (properties : list Entry) :
  Forall (fun e => (fst e ∉ hiddenFields) /\ supported e = true /\ e ∈ properties)
         (sortedProps hiddenFields fieldOrder properties).
Proof.
  rewrite sortedProps_shape. apply Forall_app. split.
  - apply Forall_forall. intros e He.
    apply ordered_by_member in He as (_ & Hmap & _).
    apply (visible_member hiddenFields properties).
    destruct e as [n v]. now apply props_map_member.
  - apply Forall_forall. intros e He.
    rewrite sort_entries_perm in He.
    apply list_elem_of_filter in He as [_ He].
    now apply (visible_member hiddenFields properties).
Qed.

(** X2: when the columns of the schema have distinct names and the saved
    order names no field twice, the fields shown are exactly the visible
    columns of a supported type, each one once; in particular the groups
    of the form have distinct names. *)
Theorem rendered_fields_are_all_visible_columns (hiddenFields : gset string)
    (fieldOrder : list string) (properties : list Entry) :
  NoDup (fst <$> properties) ->
  NoDup fieldOrder ->
  sortedProps hiddenFields fieldOrder properties
    ≡ₚ visibleProps hiddenFields properties
  /\ NoDup (fst <$> sortedProps hiddenFields fieldOrder properties).
Proof.
  intros Hnames Horder.
  set (visible := visibleProps hiddenFields properties).
  assert (Hvn : NoDup (fst <$> visible)).
  { unfold visible, visibleProps.
    induction properties as [|e l IH]; [constructor|].
    rewrite fmap_cons in Hnames. apply NoDup_cons in Hnames as [Hfresh Hl].
    rewrite filter_cons. destruct (decide _); [|now apply IH].
    rewrite fmap_cons. apply NoDup_cons. split; [|now apply IH].
    intros Hin. apply Hfresh.
    apply list_elem_of_fmap in Hin as (x & -> & Hx).
    apply list_elem_of_filter in Hx as [_ Hx]. now apply list_elem_of_fmap_2. }
  assert (Hperm : sortedProps hiddenFields fieldOrder properties ≡ₚ visible).
  { rewrite sortedProps_shape. fold visible. rewrite sort_entries_perm.
    rewrite <- (filter_app_complement (fun e => fst e ∈ fieldOrder) visible) at 3.
    apply Permutation_app; [|reflexivity].
    apply NoDup_Permutation.
    - apply (NoDup_fmap_1 fst). rewrite ordered_by_names. now apply NoDup_filter.
    - apply NoDup_filter. now apply (NoDup_fmap_1 fst).
    - intros [n v]. rewrite ordered_by_member, list_elem_of_filter. simpl. split.
      + intros (Hin & Hmap & _). split; [exact Hin|]. now apply props_map_member.
      + intros (Hin & Hv). split; [exact Hin|]. split.
        * destruct (props_map_has visible n) as [w Hw];
            [now apply (list_elem_of_fmap_2 fst _ (n, v))|].
          rewrite Hw. f_equal.
          apply props_map_member in Hw.
          assert (Hinj : forall (x : string) (y1 y2 : option ColumnType),
                     (x, y1) ∈ visible -> (x, y2) ∈ visible -> y1 = y2).
          { clear -Hvn. induction visible as [|[k u] l IH]; intros x y1 y2 H1 H2.
            - now apply elem_of_nil in H1.
            - rewrite fmap_cons in Hvn. apply NoDup_cons in Hvn as [Hk Hl].
              apply elem_of_cons in H1 as [E1|H1]; apply elem_of_cons in H2 as [E2|H2].
              + congruence.
              + injection E1 as -> ->. exfalso. apply Hk.
                now apply (list_elem_of_fmap_2 fst _ (k, y2)).
              + injection E2 as -> ->. exfalso. apply Hk.
                now apply (list_elem_of_fmap_2 fst _ (k, y1)).
              + now apply (IH Hl x). }
          now apply (Hinj n).
        * now apply (visible_member hiddenFields properties) in Hv. }
  split; [exact Hperm|]. now rewrite Hperm.
Qed.

Lemma rendered_fields_are_all_visible_columns_witness :
  sortedProps {["Secret"]} ["Link"] job_entries
    ≡ₚ visibleProps {["Secret"]} job_entries
  /\ NoDup (fst <$> sortedProps {["Secret"]} ["Link"] job_entries).
Proof.
  apply rendered_fields_are_all_visible_columns.
  - apply (bool_decide_unpack (NoDup (fst <$> job_entries))). vm_compute. exact I.
  - apply NoDup_singleton.
Defined.

(** X3: the fields are shown in two runs: first the visible columns that
    the saved order names, in the saved order; then the other visible
    columns, sorted by the priority of their type, columns of equal
    priority in the order of the schema. *)
Theorem rendered_fields_order (hiddenFields : gset string)
    (fieldOrder : list string) (properties : list Entry) :
  let visible := visibleProps hiddenFields properties in
  exists ordered remaining,
    sortedProps hiddenFields fieldOrder properties = ordered ++ remaining
    /\ fst <$> ordered = filter (fun n => n ∈ (fst <$> visible)) fieldOrder
    /\ StronglySorted by_priority remaining
    /\ remaining ≡ₚ filter (fun e => fst e ∉ fieldOrder) visible
    /\ forall p, filter (fun e => priority e = p) remaining
                 = filter (fun e => priority e = p)
                          (filter (fun e => fst e ∉ fieldOrder) visible).
Proof.
  intros visible. eexists _, _. split; [apply sortedProps_shape|].
  fold visible. split; [|split; [|split]].
  - rewrite ordered_by_names. apply filter_ext_in. intros n _. split.
    + intros [[v Hv] _]. apply props_map_member in Hv.
      now apply (list_elem_of_fmap_2 fst _ (n, v)).
    + intros Hn. split; [now apply props_map_has|].
      apply list_elem_of_fmap in Hn as (e & -> & He).
      now apply (visible_member hiddenFields properties) in He.
  - apply sort_entries_sorted.
  - apply sort_entries_perm.
  - intros p. apply sort_entries_stable.
Qed.

(** A name is shown exactly when it is the name of a visible column. *)
Lemma sortedProps_names (hiddenFields : gset string) (fieldOrder : list string)
    (properties : list Entry) (n : string) :
  n ∈ (fst <$> sortedProps hiddenFields fieldOrder properties)
  <-> n ∈ (fst <$> visibleProps hiddenFields properties).
Proof.
  rewrite sortedProps_shape, fmap_app, elem_of_app, ordered_by_names.
  rewrite list_elem_of_filter. split.
  - intros [[[[v Hv] _] _]|Hin].
    + apply props_map_member in Hv.
      now apply (list_elem_of_fmap_2 fst _ (n, v)).
    + apply list_elem_of_fmap in Hin as (e & -> & He).
      rewrite sort_entries_perm in He.
      apply list_elem_of_filter in He as [_ He]. now apply list_elem_of_fmap_2.
  - intros Hin. destruct (decide (n ∈ fieldOrder)) as [Hfo|Hfo].
    + left. split; [|exact Hfo]. split; [now apply props_map_has|].
      apply list_elem_of_fmap in Hin as (e & -> & He).
      now apply (visible_member hiddenFields properties) in He.
    + right. apply list_elem_of_fmap in Hin as (e & -> & He).
      apply list_elem_of_fmap_2. rewrite sort_entries_perm.
      apply list_elem_of_filter. now split.
Qed.

Section Toggle.
Variable fieldName : string.
Variable p : Preferences.

(** What is hidden after a toggle: the field itself if it was not, and
    of the other fields those that were. *)
Lemma toggle_hidden (n : string) :
  n ∈ hidden (toggleFieldVisibility fieldName p)
  <-> if decide (n = fieldName) then fieldName ∉ hidden p else n ∈ hidden p.
Proof.
  unfold toggleFieldVisibility.
  case_bool_decide as Hh; cbn [hidden];
    [rewrite elem_of_difference | rewrite elem_of_union];
    rewrite elem_of_singleton;
    destruct (decide (n = fieldName)) as [->|Hne]; intuition congruence.
Qed.

(** Hiding takes the field out of the saved order; showing it again puts
    it at the end unless the order already names it. *)
Lemma toggle_order :
  order (toggleFieldVisibility fieldName p)
  = if bool_decide (fieldName ∈ hidden p)
    then if bool_decide (fieldName ∈ order p) then order p
         else order p ++ [fieldName]
    else filter (fun n => n ≠ fieldName) (order p).
Proof. unfold toggleFieldVisibility. now case_bool_decide. Qed.

End Toggle.

(** X4: toggling a field flips whether it is hidden and nothing else about
    the hidden set; toggling it twice gives the hidden set back. *)
Theorem toggle_flips_visibility (fieldName : string) (p : Preferences) :
  (fieldName ∈ hidden (toggleFieldVisibility fieldName p) <-> fieldName ∉ hidden p)
  /\ hidden (toggleFieldVisibility fieldName p) ∖ {[fieldName]}
     = hidden p ∖ {[fieldName]}
  /\ hidden (toggleFieldVisibility fieldName (toggleFieldVisibility fieldName p))
     = hidden p.
Proof.
  split; [|split].
  - rewrite toggle_hidden. now destruct (decide (fieldName = fieldName)).
  - apply set_eq. intros n.
    rewrite !elem_of_difference, toggle_hidden, elem_of_singleton.
    destruct (decide (n = fieldName)); tauto.
  - apply set_eq. intros n. rewrite toggle_hidden.
    destruct (decide (n = fieldName)) as [->|Hne]; rewrite toggle_hidden.
    + destruct (decide (fieldName = fieldName)); [|congruence].
      destruct (decide (fieldName ∈ hidden p)); tauto.
    + now destruct (decide (n = fieldName)).
Qed.

(** X5: toggling keeps the saved order free of repetitions and free of
    hidden names, if it was. *)
Theorem toggle_keeps_order_clean (fieldName : string) (p : Preferences) :
  NoDup (order p) ->
  (forall n, n ∈ hidden p -> n ∉ order p) ->
  NoDup (order (toggleFieldVisibility fieldName p))
  /\ forall n, n ∈ hidden (toggleFieldVisibility fieldName p) ->
               n ∉ order (toggleFieldVisibility fieldName p).
Proof.
  intros Hnd Hclean. split.
  - rewrite toggle_order. case_bool_decide as Hh.
    + case_bool_decide as Ho; [exact Hnd|].
      apply NoDup_app. split; [exact Hnd|]. split; [|apply NoDup_singleton].
      intros x Hx Hx'. apply list_elem_of_singleton in Hx'. now subst x.
    + now apply NoDup_filter.
  - intros n Hn. apply toggle_hidden in Hn. rewrite toggle_order.
    destruct (decide (n = fieldName)) as [->|Hne].
    + rewrite (bool_decide_eq_false_2 _ Hn).
      intros Hin. apply list_elem_of_filter in Hin as [Hin _]. now apply Hin.
    + intros Hin. apply (Hclean n Hn).
      case_bool_decide as Hh.
      * case_bool_decide as Ho; [exact Hin|].
        apply elem_of_app in Hin as [Hin|Hin]; [exact Hin|].
        apply list_elem_of_singleton in Hin. contradiction.
      * now apply list_elem_of_filter in Hin as [_ Hin].
Qed.

Lemma toggle_keeps_order_clean_witness :
  NoDup (order (toggleFieldVisibility "Link" job_preferences))
  /\ forall n, n ∈ hidden (toggleFieldVisibility "Link" job_preferences) ->
               n ∉ order (toggleFieldVisibility "Link" job_preferences).
Proof.
  apply toggle_keeps_order_clean.
  - apply (bool_decide_unpack (NoDup (order job_preferences))). vm_compute. exact I.
  - intros n Hn. change (n ∈ ({["Secret"]} : gset string)) in Hn.
    apply elem_of_singleton in Hn. subst n.
    apply (bool_decide_unpack ("Secret" ∉ order job_preferences)).
    vm_compute. exact I.
Defined.

(** X6: a field that is hidden by a toggle is not shown by the render that
    follows, and a column of a supported type that a toggle shows again is
    shown by it. *)
Theorem toggle_then_render (fieldName : string) (p : Preferences)
    (properties : list Entry) :
  let p' := toggleFieldVisibility fieldName p in
  (fieldName ∉ hidden p ->
     fieldName ∉ (fst <$> sortedProps (hidden p') (order p') properties))
  /\ (fieldName ∈ hidden p ->
      (exists ty, (fieldName, Some ty) ∈ properties) ->
      fieldName ∈ (fst <$> sortedProps (hidden p') (order p') properties)).
Proof.
  intros p'.
  assert (Hflip : fieldName ∈ hidden p' <-> fieldName ∉ hidden p).
  { unfold p'. rewrite toggle_hidden. now destruct (decide (fieldName = fieldName)). }
  split.
  - intros Hvis Hin. apply sortedProps_names in Hin.
    apply list_elem_of_fmap in Hin as (e & -> & He).
    apply visible_member in He as (Hnot & _). apply Hnot, Hflip, Hvis.
  - intros Hhid [ty Hty]. apply sortedProps_names.
    apply (list_elem_of_fmap_2 fst _ (fieldName, Some ty)).
    apply visible_member. simpl. split; [|now split].
    intros Hin. now apply Hflip in Hin.
Qed.

Lemma toggle_then_render_witness :
  "Secret" ∈ (fst <$> sortedProps
                        (hidden (toggleFieldVisibility "Secret" job_preferences))
                        (order (toggleFieldVisibility "Secret" job_preferences))
                        job_entries).
Proof.
  pose proof (toggle_then_render "Secret" job_preferences job_entries) as H.
  cbv zeta in H. destruct H as [_ H]. apply H.
  - change ("Secret" ∈ ({["Secret"]} : gset string)). now apply elem_of_singleton.
  - exists rich_text. apply list_elem_of_further, list_elem_of_here.
Defined.

Section Move.
Variable fieldName : string.

Lemma findIndex_found (items : list string) (i : nat) :
  findIndex fieldName items = Some i ->
  items !! i = Some fieldName /\ forall j, j < i -> items !! j ≠ Some fieldName.
Proof.
  revert i. induction items as [|n rest IH]; intros i; simpl; [discriminate|].
  destruct (String.eqb_spec n fieldName) as [->|Hne].
  - intros [= <-]. split; [reflexivity|]. intros j Hj. lia.
  - destruct (findIndex fieldName rest) as [k|]; simpl; [|discriminate].
    intros [= <-]. destruct (IH k eq_refl) as [Hk Hbefore]. split; [exact Hk|].
    intros [|j] Hj; simpl; [congruence|]. apply Hbefore. lia.
Qed.

Lemma findIndex_first (items : list string) (i : nat) :
  items !! i = Some fieldName ->
  (forall j, j < i -> items !! j ≠ Some fieldName) ->
  findIndex fieldName items = Some i.
Proof.
  revert i. induction items as [|n rest IH]; intros i Hi Hbefore; [discriminate Hi|].
  simpl. destruct i as [|i]; simpl in Hi.
  - injection Hi as ->. now rewrite String.eqb_refl.
  - destruct (String.eqb_spec n fieldName) as [->|Hne].
    + exfalso. apply (Hbefore 0); [lia | reflexivity].
    + rewrite (IH i Hi); [reflexivity|].
      intros j Hj. apply (Hbefore (S j)). lia.
Qed.

Lemma swap_at_twice (k : nat) (items : list string) :
  swap_at k (swap_at k items) = items.
Proof.
  revert items. induction k as [|k IH]; intros [|a rest]; simpl;
    try reflexivity.
  - now destruct rest.
  - now rewrite IH.
Qed.

Lemma swap_at_perm (k : nat) (items : list string) : swap_at k items ≡ₚ items.
Proof.
  revert items. induction k as [|k IH]; intros [|a rest]; simpl;
    try reflexivity.
  - destruct rest; [reflexivity | apply Permutation_swap].
  - constructor. apply IH.
Qed.

(** The place two items exchange, read afterwards. *)
Lemma swap_at_lookup (k : nat) (items : list string) (a b : string) :
  items !! k = Some a -> items !! S k = Some b ->
  swap_at k items !! k = Some b /\ swap_at k items !! S k = Some a
  /\ forall j, j ≠ k -> j ≠ S k -> swap_at k items !! j = items !! j.
Proof.
  revert items. induction k as [|k IH]; intros [|x rest]; simpl;
    try discriminate.
  - destruct rest as [|y rest]; simpl; [discriminate|].
    intros [= ->] [= ->]. repeat split. intros [|[|j]] H0 H1; simpl; congruence.
  - intros Ha Hb. destruct (IH rest Ha Hb) as (H1 & H2 & H3).
    repeat split; try assumption.
    intros [|j] Hj Hj'; simpl; [reflexivity|]. apply H3; congruence.
Qed.

Lemma swap_at_filter (k : nat) (items : list string) :
  items !! k = Some fieldName \/ items !! S k = Some fieldName ->
  filter (fun n => n ≠ fieldName) (swap_at k items)
  = filter (fun n => n ≠ fieldName) items.
Proof.
  revert items. induction k as [|k IH]; intros [|a rest]; simpl;
    try reflexivity.
  - destruct rest as [|b rest]; [reflexivity|]. simpl.
    intros [[= ->]|[= ->]]; rewrite !filter_cons;
      destruct (decide (fieldName ≠ fieldName)); try congruence;
      now destruct (decide _).
  - intros Hk. rewrite !(filter_cons _ a). now rewrite (IH rest Hk).
Qed.

End Move.

(** X7: moving a field in the customize list changes the place of that
    field only: the list keeps its items and its length, and the other
    fields keep their order. *)
Theorem moveField_moves_one_field (fieldName : string) (up : bool)
    (items : list string) :
  moveField fieldName up items ≡ₚ items
  /\ filter (fun n => n ≠ fieldName) (moveField fieldName up items)
     = filter (fun n => n ≠ fieldName) items.
Proof.
  unfold moveField.
  destruct (findIndex fieldName items) as [i|] eqn:E; [|now split].
  apply findIndex_found in E as [Hi _].
  destruct up.
  - destruct i as [|i]; [now split|]. split; [apply swap_at_perm|].
    apply swap_at_filter. now right.
  - destruct (Nat.leb (length items) (i + 1)); [now split|].
    split; [apply swap_at_perm|]. apply swap_at_filter. now left.
Qed.

(** X8: a field that is not the first goes up one place, and moving it
    down again puts the list back as it was. *)
Theorem moveField_up_then_down (fieldName : string) (items : list string)
    (i : nat) :
  findIndex fieldName items = Some (S i) ->
  findIndex fieldName (moveField fieldName true items) = Some i
  /\ moveField fieldName false (moveField fieldName true items) = items.
Proof.
  intros E. pose proof (findIndex_found fieldName items (S i) E) as [Hn Hbefore].
  assert (Hup : moveField fieldName true items = swap_at i items).
  { unfold moveField. now rewrite E. }
  destruct (items !! i) as [a|] eqn:Ha.
  2:{ apply lookup_ge_None in Ha. apply lookup_lt_Some in Hn. lia. }
  destruct (swap_at_lookup i items a fieldName Ha Hn) as (H1 & H2 & H3).
  assert (Hfound : findIndex fieldName (swap_at i items) = Some i).
  { apply findIndex_first; [exact H1|].
    intros j Hj. rewrite H3 by lia. apply Hbefore. lia. }
  rewrite Hup. split; [exact Hfound|].
  unfold moveField. rewrite Hfound.
  assert (Hlen : length (swap_at i items) = length items)
    by (apply Permutation_length, swap_at_perm).
  apply lookup_lt_Some in Hn.
  destruct (Nat.leb_spec (length (swap_at i items)) (i + 1)) as [Hle|_]; [lia|].
  apply swap_at_twice.
Qed.

Lemma moveField_up_then_down_witness :
  findIndex "Link" (moveField "Link" true ["Name"; "Link"; "Notes"]) = Some 0
  /\ moveField "Link" false (moveField "Link" true ["Name"; "Link"; "Notes"])
     = ["Name"; "Link"; "Notes"].
Proof. apply moveField_up_then_down. reflexivity. Defined.

(** The first field stays where it is when asked to go up, the last one
    when asked to go down, and a name that is not in the list moves
    nothing. *)
Lemma moveField_at_the_ends (fieldName : string) (items : list string) :
  (findIndex fieldName items = Some 0 -> moveField fieldName true items = items)
  /\ (findIndex fieldName items = Some (length items - 1) ->
      moveField fieldName false items = items)
  /\ (findIndex fieldName items = None ->
      forall up, moveField fieldName up items = items).
Proof.
  unfold moveField. repeat split.
  - now intros ->.
  - intros ->. destruct (Nat.leb_spec (length items) (length items - 1 + 1));
      [reflexivity | lia].
  - now intros ->.
Qed.

End FormLayoutFacts.

(* ===================================================================== *)
(** * Looking for an existing entry, then saving *)
(* ===================================================================== *)

Module ReconcileFacts.
Import JsString JsStringFacts TextFacts NotionApi Popup FormLayout Reconcile.
Import Samples Fixtures.
#[local] Open Scope list_scope.

(** The URL field found is the first column of type [url]. *)
Lemma findUrlField_found (properties : list Entry) (n : string) :
  findUrlField properties = Some n ->
  exists before_it after_it,
    properties = before_it ++ (n, Some url) :: after_it
    /\ Forall (fun e => snd e ≠ Some url) before_it.
Proof.
  unfold findUrlField.
  induction properties as [|[k ty] rest IH]; simpl; [discriminate|].
  case_bool_decide as Hty; simpl in *.
  - intros [= <-]. subst ty. exists [], rest. split; [reflexivity | constructor].
  - intros H. destruct (IH H) as (b & a & -> & Hb).
    exists ((k, ty) :: b), a. split; [reflexivity|]. now constructor.
Qed.

Lemma findUrlField_none (properties : list Entry) :
  findUrlField properties = None <-> Forall (fun e => snd e ≠ Some url) properties.
Proof.
  unfold findUrlField.
  induction properties as [|[k ty] rest IH]; simpl.
  - split; [constructor | reflexivity].
  - case_bool_decide as Hty; simpl in *.
    + split; [discriminate|]. intros H. apply Forall_cons in H as [H _]. contradiction.
    + rewrite IH. split; [now constructor|]. intros H. now apply Forall_cons in H.
Qed.

(** A case in which the check returns what it was given and asks nothing. *)
Ltac easy_case :=
  simpl; repeat split; try lia; try discriminate; intros; reflexivity.

(** The page found when the query has rows: the first one. *)
Lemma findPageByUrl_first (queryDatabase : Query -> QueryResponse)
    (pageUrl urlField : string) (first : Page) (others : list Page) :
  pageUrl <> "" -> urlField <> "" ->
  queryDatabase (urlField, pageUrl) = QueryResolved (first :: others) ->
  findPageByUrl queryDatabase pageUrl urlField = (Some first, [(urlField, pageUrl)]).
Proof.
  intros Hurl Hfield Hq. unfold findPageByUrl.
  rewrite (truthy_true _ Hurl), (truthy_true _ Hfield). simpl. now rewrite Hq.
Qed.

(** X9: with a URL for the tab and a schema whose first URL column is
    [urlField], the check makes exactly one query, for the rows whose
    [urlField] equals the URL; the first row of the answer becomes the
    existing entry, its properties parsed after the schema. *)
Theorem existing_entry_found (queryDatabase : Query -> QueryResponse)
    (pageUrl urlField : string) (columns : Columns)
    (before : Existing) (first : Page) (others : list Page) :
  pageUrl <> "" -> urlField <> "" ->
  findUrlField (entries_of columns) = Some urlField ->
  queryDatabase (urlField, pageUrl) = QueryResolved (first :: others) ->
  checkForExistingEntry queryDatabase pageUrl (Some columns) before
  = ({| existing_id := Some (page_id first);
        existing_data := Some (parseNotionPage (page_properties first)
                                 (schema_of columns)) |},
     [(urlField, pageUrl)]).
Proof.
  intros Hurl Hfield Hfind Hq. unfold checkForExistingEntry.
  rewrite (truthy_true _ Hurl), Hfind, (truthy_true _ Hfield). simpl.
  now rewrite (findPageByUrl_first queryDatabase pageUrl urlField first others).
Qed.

Lemma existing_entry_found_witness :
  checkForExistingEntry one_row_store job_url (Some job_columns) no_entry
  = ({| existing_id := Some "1f2e-77";
        existing_data := Some (parseNotionPage (page_properties job_page)
                                 (schema_of job_columns)) |},
     [("Link", job_url)]).
Proof.
  apply (existing_entry_found one_row_store job_url "Link" job_columns no_entry
           job_page []); (discriminate || reflexivity).
Defined.

(** X10: the check never leaves an entry behind unless a row was found:
    when the query fails or finds no row the popup is on a new entry, and
    when there is no schema, no URL or no URL column no query is made and
    the state stays as it was. *)
Theorem no_entry_unless_found (queryDatabase : Query -> QueryResponse)
    (pageUrl : string) (databaseSchema : option Columns) (before : Existing) :
  let result := checkForExistingEntry queryDatabase pageUrl databaseSchema before in
  length (snd result) <= 1
  /\ (snd result = [] -> fst result = before)
  /\ (forall q, snd result = [q] ->
        match queryDatabase q with
        | QueryResolved (first :: _) => existing_id (fst result) = Some (page_id first)
        | _ => fst result = no_entry
        end)
  /\ ((pageUrl = "" \/ databaseSchema = None
       \/ (exists columns, databaseSchema = Some columns
                           /\ findUrlField (entries_of columns) = None)) ->
      result = (before, [])).
Proof.
  intros result. subst result. unfold checkForExistingEntry, findPageByUrl.
  destruct databaseSchema as [columns|]; [|easy_case].
  destruct (truthy pageUrl) eqn:Tu; simpl; [|easy_case].
  destruct (findUrlField (entries_of columns)) as [urlField|] eqn:Hfind;
    [|easy_case].
  destruct (truthy urlField) eqn:Tf; simpl; [|easy_case].
  assert (Hlast : pageUrl = "" \/ Some columns = None
                  \/ (exists c, Some columns = Some c
                                 /\ findUrlField (entries_of c) = None) -> False).
  { intros [->|[H|(c & [= <-] & H)]]; [discriminate Tu | discriminate H | congruence]. }
  destruct (queryDatabase (urlField, pageUrl)) as [[|first others]|] eqn:Hq; simpl;
    (split; [lia|]); (split; [discriminate|]);
    (split; [intros q [= <-]; now rewrite Hq | intros H; now apply Hlast in H]).
Qed.

Lemma no_entry_unless_found_witness :
  checkForExistingEntry one_row_store "" (Some job_columns) no_entry
  = (no_entry, []).
Proof.
  pose proof (no_entry_unless_found one_row_store "" (Some job_columns) no_entry) as H.
  cbv zeta in H. destruct H as (_ & _ & _ & H). apply H. now left.
Defined.

(** X11: the submit that follows a check that found a row is one update
    call on the id of that row, with the payload of the form, whatever the
    popup held before. *)
Theorem found_entry_is_updated (queryDatabase : Query -> QueryResponse)
    (notionApi : ApiCall -> Response)
    (pageUrl urlField : string) (columns : Columns) (before : Existing)
    (first : Page) (others : list Page) (s : Session) :
  pageUrl <> "" -> urlField <> "" ->
  findUrlField (entries_of columns) = Some urlField ->
  queryDatabase (urlField, pageUrl) = QueryResolved (first :: others) ->
  page_id first <> "" ->
  let found := fst (checkForExistingEntry queryDatabase pageUrl (Some columns) before) in
  calls (handleSubmit notionApi (with_existing s found))
  = [updatePage (page_id first) (buildPayload (hiddenFields s) (formFields s))].
Proof.
  intros Hurl Hfield Hfind Hq Hid found. subst found.
  unfold checkForExistingEntry.
  rewrite (truthy_true _ Hurl), Hfind, (truthy_true _ Hfield). simpl.
  rewrite (findPageByUrl_first queryDatabase pageUrl urlField first others)
    by assumption.
  unfold handleSubmit, editing, with_existing; simpl.
  rewrite (truthy_true _ Hid). now destruct (notionApi _).
Qed.

Lemma found_entry_is_updated_witness :
  calls (handleSubmit accepting_store
           (with_existing new_entry
              (fst (checkForExistingEntry one_row_store job_url (Some job_columns)
                      no_entry))))
  = [updatePage "1f2e-77"
       (buildPayload (hiddenFields new_entry) (formFields new_entry))].
Proof.
  apply (found_entry_is_updated one_row_store accepting_store job_url "Link"
           job_columns no_entry job_page [] new_entry);
    (discriminate || reflexivity).
Defined.

(** X12: a save makes one call to the store, an update of the page being
    edited or else a creation, with the payload of the form.  When the store
    rejects that call, the save changes nothing in the popup and the error
    shown carries the message of the rejection; the submit does not show
    the success screen.  When the store accepts it, no error is shown and
    the submit shows the success screen.  So an error is shown exactly when
    the store rejects the call, and then the session is unchanged; in no
    case does a save change the form or the hidden fields. *)
Theorem rejected_save_changes_nothing (notionApi : ApiCall -> Response)
    (s : Session) :
  let properties := buildPayload (hiddenFields s) (formFields s) in
  let call := match editing s with
              | Some id => updatePage id properties
              | None => createPage properties
              end in
  let submitted := handleSubmit notionApi s in
  let saved := handleBackgroundSave notionApi s in
  (forall message,
     notionApi call = Rejected message ->
     submitted = {| session := s; calls := [call]; shown_error := Some message |}
     /\ saved = {| session := s; calls := [call]; shown_error := Some message |})
  /\ (forall id,
       notionApi call = Resolved id ->
       calls submitted = [call] /\ shown_error submitted = None
       /\ screen (session submitted) = SuccessScreen
       /\ calls saved = [call] /\ shown_error saved = None
       /\ screen (session saved) = screen s)
  /\ match shown_error submitted with
     | Some _ => session submitted = s
     | None => True
     end
  /\ match shown_error saved with
     | Some _ => session saved = s
     | None => True
     end
  /\ formFields (session submitted) = formFields s
  /\ formFields (session saved) = formFields s
  /\ hiddenFields (session submitted) = hiddenFields s
  /\ hiddenFields (session saved) = hiddenFields s.
Proof.
  cbv zeta. unfold handleSubmit, handleBackgroundSave.
  destruct (editing s) as [id|];
    match goal with
    | |- context [notionApi ?c] => destruct (notionApi c) as [id'|message']
    end; cbn [session calls shown_error showSuccess with_existingPageId screen
              formFields hiddenFields];
    (split; [intros message [= <-] || intros message [=]; now split|]);
    (split; [intros id'' [= <-] || intros id'' [=]; now repeat split|]);
    now repeat split.
Qed.

Lemma rejected_save_changes_nothing_witness :
  handleSubmit rejecting_store new_entry
  = {| session := new_entry;
       calls := [createPage (buildPayload (hiddenFields new_entry)
                               (formFields new_entry))];
       shown_error := Some "Unauthorized" |}
  /\ handleBackgroundSave rejecting_store new_entry
     = {| session := new_entry;
          calls := [createPage (buildPayload (hiddenFields new_entry)
                                  (formFields new_entry))];
          shown_error := Some "Unauthorized" |}.
Proof.
  pose proof (rejected_save_changes_nothing rejecting_store new_entry) as H.
  cbv zeta in H. destruct H as [H _].
  apply (H "Unauthorized"). reflexivity.
Defined.

(** X13: after a background save that created the page, a submit from the
    same popup updates that page; it does not create a second one. *)
Theorem submit_after_background_save (notionApi : ApiCall -> Response)
    (s : Session) (id : string) :
  editing s = None ->
  notionApi (createPage (buildPayload (hiddenFields s) (formFields s))) = Resolved id ->
  id <> "" ->
  calls (handleSubmit notionApi (session (handleBackgroundSave notionApi s)))
  = [updatePage id (buildPayload (hiddenFields s) (formFields s))].
Proof.
  intros Hnew Hcreated Hne.
  unfold handleBackgroundSave. rewrite Hnew, Hcreated. simpl.
  unfold handleSubmit, editing. simpl. rewrite (truthy_true _ Hne).
  destruct (notionApi (updatePage id _)); reflexivity.
Qed.

Lemma submit_after_background_save_witness :
  calls (handleSubmit accepting_store
           (session (handleBackgroundSave accepting_store new_entry)))
  = [updatePage "1f2e-77"
       (buildPayload (hiddenFields new_entry) (formFields new_entry))].
Proof.
  apply submit_after_background_save; (discriminate || reflexivity).
Defined.

End ReconcileFacts.

(* ===================================================================== *)
(** * Filling the form from the AI response *)
(* ===================================================================== *)

Module AiFieldsFacts.
Import JsString JsStringFacts NotionApi Popup AiFields Samples Fixtures.
#[local] Open Scope list_scope.

Lemma with_tags_same (g : FormGroup) : with_tags g (tags g) (hidden_values g) = g.
Proof. now destruct g. Qed.

(** Selecting on a test that no tag passes selects nothing. *)
Lemma select_none (should : string -> bool) (ts : list (string * bool)) :
  existsb (fun t => should (fst t)) ts = false ->
  map (fun t => (fst t, snd t || should (fst t))) ts = ts.
Proof.
  induction ts as [|[v sel] ts IH]; simpl; [reflexivity|].
  intros H. apply orb_false_iff in H as [Hv Hts].
  rewrite Hv, orb_false_r, IH by exact Hts. reflexivity.
Qed.

Section Fields.
Variable iso_date : string -> option string.

(** A fill never changes the name or the type of a group. *)
Lemma fill_group_same_field (group : FormGroup) (value : string) :
  propertyName (fst (fill_group iso_date group value)) = propertyName group
  /\ propertyType (fst (fill_group iso_date group value)) = propertyType group.
Proof.
  unfold fill_group.
  destruct (propertyType group) eqn:Ety;
    repeat match goal with
           | |- context [match ?x with _ => _ end] =>
               lazymatch x with
               | propertyType _ => fail
               | _ => destruct x eqn:?
               end
           end; simpl; auto.
Qed.

(** A fill that reports nothing filled has changed nothing. *)
Lemma fill_group_unfilled (group : FormGroup) (value : string) :
  snd (fill_group iso_date group value) = false ->
  fst (fill_group iso_date group value) = group.
Proof.
  unfold fill_group.
  destruct (propertyType group) eqn:Ety;
    try (repeat match goal with
                | |- context [match ?x with _ => _ end] =>
                    lazymatch x with
                    | propertyType _ => fail
                    | _ => destruct x eqn:?
                    end
                end; simpl; now auto).
  (* multi_select *)
  simpl. intros Hnone. rewrite Hnone.
  rewrite select_none by exact Hnone.
  destruct (hidden_values group) eqn:Eh; rewrite <- Eh; apply with_tags_same.
Qed.

End Fields.

(** What [some] answers on a tag no value matches. *)
Lemma select_tags_same_field (values : list JsValue) (ts : list (string * bool)) :
  fst <$> fst (select_tags values ts) = fst <$> ts.
Proof.
  induction ts as [|t ts IH]; [reflexivity|]. cbn [select_tags].
  destruct (some_matches values (fst t)); [|reflexivity].
  destruct (select_tags values ts) as [rest filled]. cbn [fst] in *.
  rewrite !fmap_cons. cbn [fst]. now rewrite IH.
Qed.

(** A pass over the tags that selects none leaves them as they were. *)
Lemma select_tags_unfilled (values : list JsValue) (ts : list (string * bool)) :
  snd (select_tags values ts) = Some false -> fst (select_tags values ts) = ts.
Proof.
  induction ts as [|t ts IH]; [reflexivity|]. cbn [select_tags].
  destruct (some_matches values (fst t)) as [should|]; [|discriminate].
  destruct (select_tags values ts) as [rest [filled|]]; cbn [fst snd] in *;
    [|discriminate].
  intros [= H]. apply orb_false_iff in H as [-> ->].
  rewrite orb_false_r, IH by reflexivity. now destruct t.
Qed.

Section Values.
Variable iso_date : string -> option string.
Variable to_text : JsValue -> string.
Variable to_date : JsValue -> option string.
Variable css_query : string -> list string -> Lookup.

Lemma fill_tags_with_same_field (group : FormGroup) (values : list JsValue) :
  propertyName (fst (fill_tags_with group values)) = propertyName group
  /\ propertyType (fst (fill_tags_with group values)) = propertyType group.
Proof.
  unfold fill_tags_with.
  destruct (select_tags values (tags group)) as [ts [filled|]]; now split.
Qed.

Lemma fill_tags_with_unfilled (group : FormGroup) (values : list JsValue) :
  snd (fill_tags_with group values) = Returned false ->
  fst (fill_tags_with group values) = group.
Proof.
  unfold fill_tags_with.
  pose proof (select_tags_unfilled values (tags group)) as Hsame.
  destruct (select_tags values (tags group)) as [ts [filled|]]; cbn [fst snd] in *;
    [|discriminate].
  intros [= ->]. rewrite (Hsame eq_refl).
  destruct (hidden_values group) eqn:Eh; rewrite <- Eh; apply with_tags_same.
Qed.

(** A fill never changes the name or the type of a group, whatever the
    value and however it ends. *)
Lemma fill_value_same_field (group : FormGroup) (value : JsValue) :
  propertyName (fst (fill_value iso_date to_text to_date group value))
  = propertyName group
  /\ propertyType (fst (fill_value iso_date to_text to_date group value))
     = propertyType group.
Proof.
  destruct value as [s| | | |items|];
    try (pose proof (fill_group_same_field iso_date group s) as H;
         unfold fill_value;
         destruct (fill_group iso_date group s) as [group' filled]; exact H);
    unfold fill_value;
    (destruct (propertyType group) eqn:Ety;
     try (rewrite <- Ety; apply fill_tags_with_same_field);
     repeat match goal with
            | |- context [match ?x with _ => _ end] =>
                lazymatch x with
                | propertyType _ => fail
                | _ => destruct x eqn:?
                end
            end; simpl; auto).
Qed.

(** A fill that returns that nothing was filled has changed nothing. *)
Lemma fill_value_unfilled (group : FormGroup) (value : JsValue) :
  snd (fill_value iso_date to_text to_date group value) = Returned false ->
  fst (fill_value iso_date to_text to_date group value) = group.
Proof.
  destruct value as [s| | | |items|];
    try (pose proof (fill_group_unfilled iso_date group s) as H;
         unfold fill_value;
         destruct (fill_group iso_date group s) as [group' filled];
         cbn [fst snd] in *; intros [= ->]; now apply H);
    unfold fill_value;
    (destruct (propertyType group) eqn:Ety;
     try apply fill_tags_with_unfilled;
     repeat match goal with
            | |- context [match ?x with _ => _ end] =>
                lazymatch x with
                | propertyType _ => fail
                | _ => destruct x eqn:?
                end
            end; simpl; (reflexivity || discriminate)).
Qed.

(** A value that is a string does not make the fill throw. *)
Lemma fill_value_string (group : FormGroup) (s : string) :
  snd (fill_value iso_date to_text to_date group (JString s)) <> Thrown.
Proof.
  unfold fill_value. now destruct (fill_group iso_date group s).
Qed.

Lemma fillFormField_same_fields (form : list FormGroup) (fieldName : string)
    (value : JsValue) :
  propertyName <$> fst (fillFormField iso_date to_text to_date css_query
                          form fieldName value)
  = propertyName <$> form
  /\ propertyType <$> fst (fillFormField iso_date to_text to_date css_query
                             form fieldName value)
     = propertyType <$> form.
Proof.
  unfold fillFormField.
  destruct (querySelector css_query form fieldName) as [i| |]; try now split.
  destruct (form !! i) as [group|] eqn:Ei; [|now split].
  pose proof (fill_value_same_field group value) as [Hn Ht].
  destruct (fill_value iso_date to_text to_date group value) as [group' completion].
  cbn [fst] in *. rewrite !list_fmap_insert, Hn, Ht.
  split; apply list_insert_id; now rewrite list_lookup_fmap, Ei.
Qed.

Lemma fillFormField_unfilled (form : list FormGroup) (fieldName : string)
    (value : JsValue) :
  snd (fillFormField iso_date to_text to_date css_query form fieldName value)
  = Returned false ->
  fst (fillFormField iso_date to_text to_date css_query form fieldName value) = form.
Proof.
  unfold fillFormField.
  destruct (querySelector css_query form fieldName) as [i| |]; try reflexivity.
  destruct (form !! i) as [group|] eqn:Ei; [|reflexivity].
  pose proof (fill_value_unfilled group value) as Hun.
  destruct (fill_value iso_date to_text to_date group value) as [group' completion].
  cbn [fst snd] in *. intros ->. rewrite (Hun eq_refl). now apply list_insert_id.
Qed.

(** The call throws only on a field name that the selector does not take
    as it stands, or on a value that is no string. *)
Lemma fillFormField_throws (form : list FormGroup) (fieldName : string)
    (value : JsValue) :
  snd (fillFormField iso_date to_text to_date css_query form fieldName value)
  = Thrown ->
  plain_selector fieldName = false \/ forall s, value <> JString s.
Proof.
  unfold fillFormField, querySelector.
  destruct (plain_selector fieldName); [|now left].
  destruct (index_of fieldName form) as [i|]; [|discriminate].
  destruct (form !! i) as [group|]; [|discriminate].
  destruct value as [s| | | |items|]; try (intros _; right; discriminate).
  pose proof (fill_value_string group s) as Hs.
  destruct (fill_value iso_date to_text to_date group (JString s))
    as [group' completion].
  cbn [snd] in *. intros ->. contradiction.
Qed.

Lemma fillFields_count (extractedFields : list (string * JsValue)) :
  forall form count,
    let filling :=
      fillFields iso_date to_text to_date css_query form extractedFields count in
    count <= filledCount filling
    /\ filledCount filling <= count + length extractedFields
    /\ (filledCount filling = count -> thrown_at filling = None ->
        filled_form filling = form).
Proof.
  induction extractedFields as [|[fieldName value] rest IH]; intros form count;
    cbn [fillFields length].
  - cbn. repeat split; lia.
  - destruct (skipped value).
    + destruct (IH form count) as (H1 & H2 & H3). repeat split; try lia. exact H3.
    + pose proof (fillFormField_unfilled form fieldName value) as Hun.
      destruct (fillFormField iso_date to_text to_date css_query form fieldName value)
        as [form' [filled|]]; cbn [fst snd] in *.
      * destruct filled.
        -- destruct (IH form' (S count)) as (H1 & H2 & _).
           repeat split; try lia.
        -- destruct (IH form' count) as (H1 & H2 & H3).
           rewrite (Hun eq_refl) in *. repeat split; try lia. exact H3.
      * cbn. repeat split; try lia. discriminate.
Qed.

Lemma fillFields_thrown (extractedFields : list (string * JsValue)) :
  forall form count fieldName value,
    thrown_at (fillFields iso_date to_text to_date css_query
                 form extractedFields count) = Some (fieldName, value) ->
    (fieldName, value) ∈ extractedFields
    /\ (plain_selector fieldName = false \/ forall s, value <> JString s).
Proof.
  induction extractedFields as [|[f v] rest IH]; intros form count fieldName value;
    cbn [fillFields]; [discriminate|].
  destruct (skipped v).
  - intros H. destruct (IH _ _ _ _ H) as [Hin Hwhy].
    split; [now right | exact Hwhy].
  - pose proof (fillFormField_throws form f v) as Hthrows.
    destruct (fillFormField iso_date to_text to_date css_query form f v)
      as [form' [filled|]]; cbn [snd] in *.
    + intros H. destruct (IH _ _ _ _ H) as [Hin Hwhy].
      split; [now right | exact Hwhy].
    + cbn. intros [= <- <-]. split; [left | now apply Hthrows].
Qed.

End Values.

(** X14: filling from the answer of the AI never adds, removes, renames
    or retypes a field, whatever the names and the values of the answer
    and also when the filling is left by a throw: the groups of the form
    carry the same names and types, in the same order, as before. *)
Theorem ai_fill_keeps_the_fields (iso_date : string -> option string)
    (to_text : JsValue -> string) (to_date : JsValue -> option string)
    (css_query : string -> list string -> Lookup)
    (form : list FormGroup) (extractedFields : list (string * JsValue))
    (count : nat) :
  let after :=
    filled_form (fillFields iso_date to_text to_date css_query
                   form extractedFields count) in
  propertyName <$> after = propertyName <$> form
  /\ propertyType <$> after = propertyType <$> form.
Proof.
  cbv zeta. revert form count.
  induction extractedFields as [|[fieldName value] rest IH]; intros form count;
    cbn [fillFields].
  - now split.
  - destruct (skipped value); [apply IH|].
    pose proof (fillFormField_same_fields iso_date to_text to_date css_query
                  form fieldName value) as [Hn Ht].
    destruct (fillFormField iso_date to_text to_date css_query form fieldName value)
      as [form' [filled|]]; cbn [fst] in *.
    + destruct (IH form' (if filled then S count else count)) as [IHn IHt].
      now rewrite IHn, IHt.
    + now split.
Qed.

(** X15: the count of filled fields is at most the number of entries of
    the answer, and the form afterwards is the one the loop left.  When the
    loop runs to its end, a count of zero means that the form is exactly as
    it was and that nothing is sent to the store, and any other count that
    exactly one call is made, by the background save.  The loop is left by
    a throw only at an entry whose name the selector does not take as it
    stands or whose value is no string; then nothing is sent to the store,
    whatever was filled before, and the toast shows the error. *)
Theorem ai_fill_then_save (iso_date : string -> option string)
    (to_text : JsValue -> string) (to_date : JsValue -> option string)
    (css_query : string -> list string -> Lookup)
    (error_message : string -> JsValue -> string)
    (notionApi : ApiCall -> Response) (s : Session)
    (extractedFields : list (string * JsValue)) :
  let filling :=
    fillFields iso_date to_text to_date css_query (formFields s) extractedFields 0 in
  let result :=
    fillAndSave iso_date to_text to_date css_query error_message notionApi s
      extractedFields in
  snd result = filledCount filling
  /\ filledCount filling <= length extractedFields
  /\ formFields (session (fst result)) = filled_form filling
  /\ match thrown_at filling with
     | None =>
         match filledCount filling with
         | O => filled_form filling = formFields s
                /\ calls (fst result) = []
                /\ shown_error (fst result)
                   = Some "Couldn't extract any fields from the content"
         | S _ => fst result
                  = handleBackgroundSave notionApi
                      (with_formFields s (filled_form filling))
                  /\ length (calls (fst result)) = 1
         end
     | Some (fieldName, value) =>
         (fieldName, value) ∈ extractedFields
         /\ (plain_selector fieldName = false \/ forall text, value <> JString text)
         /\ calls (fst result) = []
         /\ shown_error (fst result)
            = Some (error_toast (error_message fieldName value))
     end.
Proof.
  intros filling result. subst result. unfold fillAndSave. fold filling.
  pose proof (fillFields_count iso_date to_text to_date css_query
                extractedFields (formFields s) 0) as (_ & Hle & Hsame).
  pose proof (fillFields_thrown iso_date to_text to_date css_query
                extractedFields (formFields s) 0) as Hthrown.
  cbv zeta in Hle, Hsame. fold filling in Hle, Hsame, Hthrown.
  destruct (thrown_at filling) as [[fieldName value]|] eqn:Et.
  - cbn. destruct (Hthrown fieldName value eq_refl) as [Hin Hwhy].
    repeat split; try assumption; lia.
  - destruct (filledCount filling) as [|count] eqn:Ec.
    + cbn. repeat split; try lia. now apply Hsame.
    + cbn [fst snd]. split; [reflexivity|]. split; [lia|].
      split; [|split; [reflexivity|]].
      * unfold handleBackgroundSave.
        destruct (editing _);
          repeat match goal with
                 | |- context [notionApi ?c] => destruct (notionApi c)
                 end; reflexivity.
      * unfold handleBackgroundSave.
        destruct (editing _);
          repeat match goal with
                 | |- context [notionApi ?c] => destruct (notionApi c)
                 end; reflexivity.
Qed.

(** The values of the tags selected are values of tags. *)
Lemma selected_are_tags (should : string * bool -> bool) (ts : list (string * bool)) :
  Forall (fun v => v ∈ (fst <$> ts))
         (map fst (filter (fun t => snd t = true)
                          (map (fun t => (fst t, should t)) ts))).
Proof.
  induction ts as [|t ts IH]; simpl; [constructor|].
  rewrite filter_cons. simpl.
  assert (Hrest : Forall (fun v => v ∈ fst t :: (fst <$> ts))
                    (map fst (filter (fun t => snd t = true)
                                     (map (fun t => (fst t, should t)) ts)))).
  { eapply Forall_impl; [exact IH|]. intros v Hv. now right. }
  destruct (decide (should t = true)); [|exact Hrest].
  simpl. constructor; [left | exact Hrest].
Qed.

Lemma ai_fill_then_save_witness :
  let result :=
    fillAndSave no_date text_of_value no_date_of_value strict_query substring_error
      accepting_store new_entry boolean_answer in
  formFields (session (fst result)) = [text_group "Name" title "true"]
  /\ calls (fst result) = []
  /\ shown_error (fst result) = Some "value.substring is not a function".
Proof.
  pose proof (ai_fill_then_save no_date text_of_value no_date_of_value strict_query
                substring_error accepting_store new_entry boolean_answer) as H.
  cbv zeta in H. destruct H as (_ & _ & Hform & Hend).
  cbv zeta. split; [exact Hform|].
  change (thrown_at
            (fillFields no_date text_of_value no_date_of_value strict_query
               (formFields new_entry) boolean_answer 0))
    with (Some ("Name", JBool true)) in Hend.
  destruct Hend as (_ & _ & Hcalls & Hshown). now split.
Defined.

(** X16: filling a tag picker selects tags and never deselects one: the
    picker keeps its tags, a tag is selected afterwards exactly when it was
    before or equals one of the proposed values up to case, and the list in
    the hidden input, when it is rewritten, holds values of tags of the
    picker only. *)
Theorem fill_tags_only_selects (group : FormGroup) (values : list string) :
  let after := fst (fill_tags group values) in
  fst <$> tags after = fst <$> tags group
  /\ Forall2 (fun t' t =>
                snd t' = snd t
                         || existsb (fun v => same_ignoring_case v (fst t)) values)
             (tags after) (tags group)
  /\ match hidden_values after with
     | Some selected =>
         hidden_values group = Some selected
         \/ Forall (fun v => v ∈ (fst <$> tags group)) selected
     | None => hidden_values group = None
     end.
Proof.
  unfold fill_tags; simpl. split; [|split].
  - induction (tags group) as [|t ts IH]; [reflexivity|].
    simpl. f_equal. exact IH.
  - induction (tags group) as [|t ts IH]; simpl; constructor; auto.
  - destruct (hidden_values group) as [old|]; simpl; [|reflexivity].
    destruct (existsb _ (tags group)); simpl; [|now left].
    right. apply selected_are_tags.
Qed.

(** For a single value the branch of [fill_group] is this fill. *)
Lemma fill_group_is_fill_tags (iso_date : string -> option string)
    (group : FormGroup) (value : string) :
  propertyType group = multi_select ->
  fill_group iso_date group value = fill_tags group [value].
Proof.
  intros Hty. unfold fill_group, fill_tags. rewrite Hty.
  assert (E : forall tagValue,
             existsb (fun v => same_ignoring_case v tagValue) [value]
             = same_ignoring_case value tagValue).
  { intros tagValue. simpl. apply orb_false_r. }
  assert (Ee : existsb (fun t => existsb (fun v => same_ignoring_case v (fst t)) [value])
                       (tags group)
               = existsb (fun t => same_ignoring_case value (fst t)) (tags group)).
  { induction (tags group) as [|t ts IH]; simpl; [reflexivity|].
    now rewrite orb_false_r, <- IH. }
  assert (Em : map (fun t => (fst t, snd t
                                     || existsb (fun v => same_ignoring_case v (fst t))
                                          [value])) (tags group)
               = map (fun t => (fst t, snd t || same_ignoring_case value (fst t)))
                     (tags group)).
  { apply map_ext. intros t. now rewrite E. }
  now rewrite Ee, Em.
Qed.

End AiFieldsFacts.

(* ===================================================================== *)
(** * The title of the tab and the page text *)
(* ===================================================================== *)

Module ServiceWorkerFacts.
Import JsString JsStringFacts TextFacts ServiceWorker.

(** Reading over text without a bar, before a unit that is not a bar,
    finds no separator. *)
Lemma split_from_no_bar (r rest current : string) :
  no_bar r ->
  (forall t, rest <> String "|" t) ->
  split_from " | " (r +:+ rest) 0 current
  = split_from " | " rest 0 (current +:+ r).
Proof.
  revert current. induction r as [|c r IH]; intros current Hr Hrest.
  - now rewrite app_nil_l, app_empty_r.
  - unfold no_bar in Hr. simpl in Hr. apply andb_true_iff in Hr as [Hc Hr].
    rewrite app_cons.
    assert (Hp : String.prefix " | " (String c (r +:+ rest)) = false).
    { change " | " with (String " " (String "|" " ")).
      rewrite prefix_cons. destruct (ascii_dec " " c) as [_|_]; [|reflexivity].
      destruct r as [|d r].
      - rewrite app_nil_l. destruct rest as [|e rest]; [reflexivity|].
        rewrite prefix_cons.
        destruct (ascii_dec "|" e) as [<-|_]; [|reflexivity].
        exfalso. now apply (Hrest rest).
      - rewrite app_cons, prefix_cons. simpl in Hr.
        apply andb_true_iff in Hr as [Hd _].
        destruct (ascii_dec "|" d) as [<-|_]; [discriminate Hd | reflexivity]. }
    cbn [split_from]. rewrite Hp.
    rewrite (IH (current +:+ String c "") Hr Hrest).
    f_equal. now rewrite app_assoc.
Qed.

Lemma split_from_separator (rest current : string) :
  split_from " | " (" | " +:+ rest) 0 current
  = current :: split_from " | " rest 0 "".
Proof. destruct rest; reflexivity. Qed.

Lemma split_from_end (current : string) :
  split_from " | " "" 0 current = [current].
Proof. reflexivity. Qed.

(** X17: a title without the separator is the role name as it stands, and
    the company name is empty. *)
Theorem title_without_separator (tabTitle : string) :
  includes tabTitle " | " = false -> parseTitle tabTitle = (tabTitle, "").
Proof.
  intros H. unfold parseTitle. rewrite H, andb_false_r.
  now rewrite or_else_empty.
Qed.

Lemma title_without_separator_witness :
  parseTitle "Backend Engineer at Acme" = ("Backend Engineer at Acme", "").
Proof. apply title_without_separator. reflexivity. Defined.

(** The parts of a title of a role and a company. *)
Lemma split_two (role company : string) :
  no_bar role -> no_bar company ->
  split " | " (role +:+ " | " +:+ company) = [role; company].
Proof.
  intros Hr Hc. unfold split.
  rewrite split_from_no_bar by (try exact Hr; discriminate).
  rewrite split_from_separator.
  rewrite <- (app_empty_r company) at 1.
  rewrite split_from_no_bar by (try exact Hc; discriminate).
  now rewrite split_from_end, !app_nil_l.
Qed.

(** And of a title that goes on after a second separator. *)
Lemma split_more (role company site : string) :
  no_bar role -> no_bar company ->
  split " | " (role +:+ " | " +:+ company +:+ " | " +:+ site)
  = role :: company :: split " | " site.
Proof.
  intros Hr Hc. unfold split.
  rewrite split_from_no_bar by (try exact Hr; discriminate).
  rewrite split_from_separator.
  rewrite split_from_no_bar by (try exact Hc; discriminate).
  rewrite split_from_separator. now rewrite !app_nil_l.
Qed.

(** The title is not empty and has the separator in it. *)
Lemma separated (role rest : string) :
  truthy (role +:+ " | " +:+ rest) && includes (role +:+ " | " +:+ rest) " | "
  = true.
Proof. rewrite includes_after. now destruct role. Qed.

(** X18: from a title made of a role and a company, neither with a
    vertical bar in it, joined by the separator, the role name is the
    role and the company name the company, both trimmed; anything after
    a further separator is ignored. *)
Theorem title_with_separator (role company : string) :
  no_bar role -> no_bar company ->
  parseTitle (role +:+ " | " +:+ company) = (trim role, trim company)
  /\ forall site,
       parseTitle (role +:+ " | " +:+ company +:+ " | " +:+ site)
       = (trim role, trim company).
Proof.
  intros Hr Hc. split; [|intros site]; unfold parseTitle; rewrite separated.
  - now rewrite split_two.
  - now rewrite split_more.
Qed.

Lemma title_with_separator_witness :
  parseTitle ("Backend Engineer " +:+ " | " +:+ " Acme")
  = (trim "Backend Engineer ", trim " Acme")
  /\ forall site,
       parseTitle ("Backend Engineer " +:+ " | " +:+ " Acme" +:+ " | " +:+ site)
       = (trim "Backend Engineer ", trim " Acme").
Proof. apply title_with_separator; reflexivity. Defined.

(** The truncation at any limit. *)
Lemma truncate_to_spec (max : nat) (mainContent : string) :
  String.length (truncate_to max mainContent) <= max + 15
  /\ take max (truncate_to max mainContent) = take max mainContent
  /\ (String.length mainContent <= max ->
      truncate_to max mainContent = mainContent)
  /\ (max < String.length mainContent ->
      truncate_to max mainContent = take max mainContent +:+ "... [truncated]").
Proof.
  unfold truncate_to.
  destruct (Nat.ltb_spec max (String.length mainContent)) as [Hlong|Hshort].
  - repeat split; try lia.
    + rewrite length_app, length_take_exact by lia. simpl. lia.
    + rewrite <- (length_take_exact max mainContent) at 1 by lia.
      apply take_app_exact.
  - repeat split; try lia.
Qed.

(** X19: the page text handed over by [extractContent] is never longer
    than 12000 + 15 code units and begins as the text of the page does: a
    text of at most 12000 units is handed over whole, a longer one is cut
    after its first 12000 units and marked as truncated. *)
Theorem page_text_is_bounded (mainContent : string) :
  String.length (truncateContent mainContent) <= maxLength + 15
  /\ take maxLength (truncateContent mainContent) = take maxLength mainContent
  /\ (String.length mainContent <= maxLength ->
      truncateContent mainContent = mainContent)
  /\ (maxLength < String.length mainContent ->
      truncateContent mainContent
      = take maxLength mainContent +:+ "... [truncated]").
Proof. apply truncate_to_spec. Qed.

Lemma page_text_is_bounded_witness :
  truncateContent "We are hiring." = "We are hiring.".
Proof.
  destruct (page_text_is_bounded "We are hiring.") as (_ & _ & H & _).
  apply H. apply Nat.leb_le. vm_compute. reflexivity.
Defined.

End ServiceWorkerFacts.

(* ===================================================================== *)
(** * The database ID field *)
(* ===================================================================== *)

Module OptionsFacts.
Import JsString JsStringFacts TextFacts JsRegExp Options.
#[local] Open Scope list_scope.

Lemma keep_units_all (cls : ascii -> bool) (s : string) :
  all_units cls (keep_units cls s) = true.
Proof.
  induction s as [|c s IH]; [reflexivity|]. simpl.
  destruct (cls c) eqn:E; [simpl; now rewrite E | exact IH].
Qed.

Lemma keep_units_same (cls : ascii -> bool) (s : string) :
  all_units cls s = true -> keep_units cls s = s.
Proof.
  induction s as [|c s IH]; [reflexivity|]. simpl.
  intros H. apply andb_true_iff in H as [Hc Hs]. now rewrite Hc, IH.
Qed.

Lemma all_units_weaken (p q : ascii -> bool) (s : string) :
  (forall c, p c = true -> q c = true) ->
  all_units p s = true -> all_units q s = true.
Proof.
  intros Hpq. induction s as [|c s IH]; [reflexivity|]. simpl.
  intros H. apply andb_true_iff in H as [Hc Hs].
  now rewrite (Hpq c Hc), IH.
Qed.

Lemma hex_is_id_unit (c : ascii) : is_hex_i c = true -> is_id_unit c = true.
Proof.
  destruct c as [[] [] [] [] [] [] [] []]; vm_compute; congruence.
Qed.

(** A text of units of a class without the letter n has no "notion" in
    it. *)
Lemma no_notion (cls : ascii -> bool) (s : string) :
  cls "n"%char = false -> all_units cls s = true ->
  includes s "notion" = false.
Proof.
  intros Hn. induction s as [|c s IH]; [reflexivity|]. simpl all_units.
  intros H. apply andb_true_iff in H as [Hc Hs].
  cbn [includes]. rewrite (IH Hs), orb_false_r.
  change "notion"%string with (String "n" "otion").
  cbn [String.prefix]. destruct (ascii_dec "n" c) as [<-|_]; [congruence | reflexivity].
Qed.

(** What a match of [c{n}] is: [n] units of the class, passed over. *)
Lemma run_times (ignoreCase : bool) (cls : ascii -> bool) (n : nat) (p q : position) :
  In q (run ignoreCase (times n (Chr cls)) p) ->
  n <= String.length (ahead p)
  /\ all_units cls (take n (ahead p)) = true
  /\ ahead q = drop n (ahead p)
  /\ captures q = captures p.
Proof.
  revert p. induction n as [|n IH]; intros p Hq.
  - simpl in Hq. destruct Hq as [<-|[]]. simpl.
    repeat split; lia.
  - cbn [times run] in Hq. apply in_flat_map in Hq as (p' & Hp' & Hq).
    destruct (ahead p) as [|c t] eqn:Ea; [destruct Hp'|].
    destruct (cls c) eqn:Ec; [|destruct Hp'].
    destruct Hp' as [<-|[]].
    destruct (IH _ Hq) as (Hlen & Hall & Hahead & Hcaps). simpl in *.
    rewrite Ec, Hall. repeat split; try lia; assumption.
Qed.

(** A match found by [search] starts at some unit of the text. *)
Lemma search_found (ignoreCase : bool) (r : regex) (s : string) (prev : option ascii)
    (q : position) :
  search ignoreCase r prev s = Some q ->
  exists prev' s', In q (run ignoreCase r (Pos prev' s' [])).
Proof.
  revert prev. induction s as [|c s IH]; intros prev; cbn [search];
    destruct (run ignoreCase r (Pos prev _ [])) as [|q0 l] eqn:E; intros H;
    try discriminate.
  - injection H as <-. exists prev, EmptyString. rewrite E. now left.
  - now apply IH in H.
  - injection H as <-. exists prev, (String c s). rewrite E. now left.
Qed.

(** What [value.match(/([a-f0-9]{32})/i)] gives when it matches: one
    capture, of 32 units of the class. *)
Lemma idPattern_match (value : string) (groups : list string) :
  match_groups true idPattern value = Some groups ->
  exists id, groups = [id] /\ String.length id = 32
             /\ all_units is_hex_i id = true.
Proof.
  unfold match_groups.
  destruct (search true idPattern None value) as [q|] eqn:E; [|discriminate].
  intros H. injection H as <-.
  apply search_found in E as (prev & s & Hq).
  unfold idPattern in Hq. cbn [run] in Hq.
  apply in_map_iff in Hq as (q0 & <- & Hq0).
  apply run_times in Hq0 as (Hlen & Hall & Hahead & Hcaps).
  cbn [captures ahead] in *. rewrite Hcaps, Hahead, length_drop.
  replace (String.length s - (String.length s - 32)) with 32 by lia.
  exists (take 32 s). split; [reflexivity|].
  split; [now apply length_take_exact | exact Hall].
Qed.

Lemma autoFormat_cases (input : string) :
  autoFormatDatabaseId input = keep_units is_id_unit input
  \/ (includes (keep_units is_id_unit input) "notion" = true
      /\ String.length (autoFormatDatabaseId input) = 32
      /\ all_units is_hex_i (autoFormatDatabaseId input) = true).
Proof.
  unfold autoFormatDatabaseId. cbv zeta.
  destruct (includes (keep_units is_id_unit input) "notion") eqn:En; [|now left].
  destruct (match_groups true idPattern _) as [groups|] eqn:Em; [|now left].
  apply idPattern_match in Em as (id & -> & Hlen & Hall).
  right. now repeat split.
Qed.

Lemma autoFormat_without_notion (value : string) :
  all_units is_id_unit value = true ->
  includes value "notion" = false ->
  autoFormatDatabaseId value = value.
Proof.
  intros Hall Hn. unfold autoFormatDatabaseId. cbv zeta.
  now rewrite (keep_units_same _ _ Hall), Hn.
Qed.

(** X20: whatever is typed or pasted, the database ID field holds only
    letters, digits and hyphens afterwards, and formatting its value again
    changes nothing. *)
Theorem database_id_is_clean (input : string) :
  all_units is_id_unit (autoFormatDatabaseId input) = true
  /\ autoFormatDatabaseId (autoFormatDatabaseId input)
     = autoFormatDatabaseId input.
Proof.
  destruct (autoFormat_cases input) as [Hsame|(Hn & Hlen & Hhex)].
  - split; [rewrite Hsame; apply keep_units_all|].
    rewrite Hsame at 1.
    unfold autoFormatDatabaseId at 1. cbv zeta.
    rewrite (keep_units_same _ _ (keep_units_all _ _)).
    reflexivity.
  - assert (Hid : all_units is_id_unit (autoFormatDatabaseId input) = true)
      by exact (all_units_weaken _ _ _ hex_is_id_unit Hhex).
    split; [exact Hid|].
    apply autoFormat_without_notion; [exact Hid|].
    now apply (no_notion is_hex_i).
Qed.

(** Where units of the class stand, [c{n}] matches. *)
Lemma run_times_some (ignoreCase : bool) (cls : ascii -> bool) (n : nat) (p : position) :
  starts_with_run n cls (ahead p) = true ->
  run ignoreCase (times n (Chr cls)) p <> [].
Proof.
  unfold starts_with_run. revert p. induction n as [|n IH]; intros p H.
  - discriminate.
  - apply andb_true_iff in H as [Hlen Hall]. apply Nat.leb_le in Hlen.
    cbn [times run]. destruct (ahead p) as [|c t] eqn:Ea; [simpl in Hlen; lia|].
    cbn [take all_units] in Hall. apply andb_true_iff in Hall as [Hc Hall].
    rewrite Hc. cbn [flat_map]. rewrite app_nil_r. apply IH. cbn [ahead].
    apply andb_true_iff. split; [|exact Hall].
    apply Nat.leb_le. simpl in Hlen. lia.
Qed.

Lemma idPattern_none (prev : option ascii) (s : string) :
  run true idPattern (Pos prev s []) = [] -> starts_with_id s = false.
Proof.
  intros Hrun. destruct (starts_with_id s) eqn:E; [|reflexivity].
  apply (run_times_some true is_hex_i 32 (Pos prev s [])) in E.
  unfold idPattern in Hrun. cbn [run] in Hrun.
  apply map_eq_nil in Hrun. contradiction.
Qed.

(** What a match of the pattern at a position is: the 32 units ahead are
    of the class, and they are the one capture. *)
Lemma idPattern_at (prev : option ascii) (s : string) (q : position) :
  In q (run true idPattern (Pos prev s [])) ->
  starts_with_id s = true /\ rev (captures q) = [take 32 s].
Proof.
  intros Hq. unfold idPattern in Hq. cbn [run] in Hq.
  apply in_map_iff in Hq as (q0 & <- & Hq0).
  apply run_times in Hq0 as (Hlen & Hall & Hahead & Hcaps).
  cbn [captures ahead] in *. rewrite Hcaps, Hahead, length_drop.
  replace (String.length s - (String.length s - 32)) with 32 by lia.
  split; [|reflexivity].
  unfold starts_with_id, starts_with_run. apply andb_true_iff.
  split; [now apply Nat.leb_le | exact Hall].
Qed.

(** The search stops at the first position at which 32 units of the class
    stand. *)
Lemma search_idPattern (s : string) :
  forall prev q,
    search true idPattern prev s = Some q ->
    exists front rest,
      s = front +:+ rest
      /\ starts_with_id rest = true
      /\ rev (captures q) = [take 32 rest]
      /\ forall k, k < String.length front -> starts_with_id (drop k s) = false.
Proof.
  induction s as [|c s IH]; intros prev q; cbn [search];
    destruct (run true idPattern (Pos prev _ [])) as [|q0 l] eqn:E; intros H;
    try discriminate.
  - apply IH in H as (front & rest & -> & Hid & Hcap & Hfirst).
    exists (String c front), rest. rewrite app_cons.
    repeat split; try assumption.
    intros [|k] Hk.
    + cbn [drop]. rewrite <- app_cons. apply (idPattern_none prev).
      now rewrite app_cons.
    + cbn [drop]. apply Hfirst. simpl in Hk. lia.
  - injection H as <-.
    destruct (idPattern_at prev (String c s) q0) as [Hid Hcap]; [rewrite E; now left|].
    exists EmptyString, (String c s). repeat split; try assumption.
    intros k Hk. simpl in Hk. lia.
Qed.

Lemma search_idPattern_nothing (s : string) :
  forall prev,
    search true idPattern prev s = None ->
    forall k, starts_with_id (drop k s) = false.
Proof.
  induction s as [|c s IH]; intros prev; cbn [search];
    destruct (run true idPattern (Pos prev _ [])) as [|q0 l] eqn:E; intros H;
    try discriminate.
  - intros k. now destruct k.
  - intros [|k].
    + cbn [drop]. now apply (idPattern_none prev).
    + cbn [drop]. now apply (IH (Some c)).
Qed.

(** X21: a text without "notion" among its letters, digits and hyphens is
    kept, stripped of its other units.  Of a text with it, the first run of
    32 hexadecimal digits of the stripped text is kept if there is one: the
    field then holds 32 hexadecimal digits that stand in the stripped text,
    and no such run begins before them.  If there is no such run, all its
    letters, digits and hyphens are kept. *)
Theorem database_id_from_a_link (input : string) :
  let value := keep_units is_id_unit input in
  (includes value "notion" = false -> autoFormatDatabaseId input = value)
  /\ (includes value "notion" = true ->
      (test true idPattern value = true
       /\ String.length (autoFormatDatabaseId input) = 32
       /\ all_units is_hex_i (autoFormatDatabaseId input) = true
       /\ exists front back,
            value = front +:+ autoFormatDatabaseId input +:+ back
            /\ forall k, k < String.length front ->
                         starts_with_id (drop k value) = false)
      \/ (test true idPattern value = false
          /\ autoFormatDatabaseId input = value
          /\ forall k, starts_with_id (drop k value) = false)).
Proof.
  cbv zeta. unfold autoFormatDatabaseId, test, match_groups. cbv zeta.
  split; [now intros ->|]. intros ->.
  destruct (search true idPattern None (keep_units is_id_unit input))
    as [q|] eqn:E.
  - left. apply search_idPattern in E as (front & rest & Hvalue & Hid & Hcap & Hfirst).
    rewrite Hcap.
    unfold starts_with_id, starts_with_run in Hid.
    apply andb_true_iff in Hid as [Hlen Hall]. apply Nat.leb_le in Hlen.
    split; [reflexivity|]. split; [now apply length_take_exact|].
    split; [exact Hall|].
    exists front, (drop 32 rest). split; [|exact Hfirst].
    now rewrite take_drop.
  - right. split; [reflexivity|]. split; [reflexivity|].
    now apply (search_idPattern_nothing _ None).
Qed.

Lemma database_id_from_a_link_witness :
  autoFormatDatabaseId "0123-ab cd/ef" = "0123-abcdef".
Proof.
  pose proof (database_id_from_a_link "0123-ab cd/ef") as H.
  cbv zeta in H. destruct H as [H _]. apply H. reflexivity.
Defined.

(** The run of 32 digits is looked for in the text already stripped of
    its slashes, so it may begin in what stands before the ID in the
    link. *)
Example database_id_after_a_hex_letter :
  autoFormatDatabaseId
    "https://www.notion.so/acme/0123456789abcdef0123456789abcdef?v=1"
  = "e0123456789abcdef0123456789abcde".
Proof. vm_compute. reflexivity. Qed.

End OptionsFacts.

(* ===================================================================== *)
(** * The matcher on free texts that differ in case or blanks *)
(* ===================================================================== *)

Module MatcherEdges.
Import JsString JsStringFacts TextFacts NotionApi Popup Samples.
#[local] Open Scope list_scope.

Lemma first_option_head (p : SelectOption -> bool) (o : SelectOption)
    (rest : list SelectOption) :
  p o = true -> first_option p (o :: rest) = Some (name o).
Proof. intros H. unfold first_option. simpl. now rewrite H. Qed.

(** The first option with an empty name, if any. *)
Lemma first_unnamed (opts : list SelectOption) :
  first_option (fun o => String.eqb (toLowerCase (name o)) "") opts
  = if existsb (fun o => String.eqb (name o) "") opts then Some "" else None.
Proof.
  unfold first_option. induction opts as [|o opts IH]; [reflexivity|].
  simpl. destruct (name o) as [|c t] eqn:E; simpl.
  - now rewrite E.
  - exact IH.
Qed.

(** X22: two free texts, neither empty, that differ only in the case of
    their letters and in the blanks around them select the same option. *)
Theorem matcher_ignores_case_and_blanks (a b : string) (opts : list SelectOption) :
  a <> "" -> b <> "" ->
  trim (toLowerCase a) = trim (toLowerCase b) ->
  findBestLocationMatch a opts = findBestLocationMatch b opts.
Proof.
  intros Ha Hb H. unfold findBestLocationMatch.
  rewrite (truthy_true a Ha), (truthy_true b Hb), H. reflexivity.
Qed.

Lemma matcher_ignores_case_and_blanks_witness :
  findBestLocationMatch "  Remote " [option_named "On site"; option_named "Remote"]
  = findBestLocationMatch "REMOTE" [option_named "On site"; option_named "Remote"].
Proof.
  apply matcher_ignores_case_and_blanks; (discriminate || reflexivity).
Defined.

(** X23: a free text of blanks only is not taken as empty: it selects the
    first option (or the first option without a name, if there is one). *)
Theorem blank_location_selects_first_option (blank : string) (o : SelectOption)
    (rest : list SelectOption) :
  blank <> "" -> trim (toLowerCase blank) = "" ->
  findBestLocationMatch blank (o :: rest)
  = Some (if existsb (fun o => String.eqb (name o) "") (o :: rest)
          then "" else name o).
Proof.
  intros Hne Hblank. unfold findBestLocationMatch.
  rewrite (truthy_true blank Hne), Hblank. cbn [negb orb length Nat.eqb].
  rewrite first_unnamed.
  destruct (existsb _ (o :: rest)); [reflexivity|].
  rewrite first_option_head; [reflexivity | apply includes_empty].
Qed.

Lemma blank_location_selects_first_option_witness :
  findBestLocationMatch "  " [option_named "On site"; option_named "Remote"]
  = Some "On site".
Proof.
  apply (blank_location_selects_first_option "  " (option_named "On site")
           [option_named "Remote"]); (discriminate || reflexivity).
Defined.

End MatcherEdges.

(* ===================================================================== *)
(** * What a new entry is prefilled with *)
(* ===================================================================== *)

Module Prefill.
Import JsString JsStringFacts TextFacts Dom DomFacts NotionApi Popup ServiceWorker Samples.
#[local] Open Scope list_scope.

(** X24: the title field of a new entry is handed a text that is not
    empty whenever the title of the tab is not: the role name, the company
    name or the title of the tab, and the first two only when they are not
    empty.  The field holds that text as its text input keeps it, which for
    a text without line breaks is the text itself. *)
Theorem new_title_is_prefilled (number_text : NumberValue -> string)
    (n : string) (tab : TabInfo) :
  tab_title tab <> "" ->
  exists assigned,
    assigned <> ""
    /\ (assigned = roleName tab \/ assigned = companyName tab
        \/ assigned = tab_title tab)
    /\ field_value (renderTitleField number_text n tab None)
       = Some (sanitize TextInput assigned)
    /\ (single_line assigned ->
        field_value (renderTitleField number_text n tab None) = Some assigned).
Proof.
  intros Ht.
  assert (Hgen : exists assigned,
             assigned <> ""
             /\ (assigned = roleName tab \/ assigned = companyName tab
                 \/ assigned = tab_title tab)
             /\ field_value (renderTitleField number_text n tab None)
                = Some (sanitize TextInput assigned)).
  { unfold renderTitleField, existing_or, has_existing.
    cbn [field_value text_group]. rewrite or_else_empty.
    destruct (isRoleField n && truthy (roleName tab)) eqn:E1.
    { apply andb_true_iff in E1 as [_ E1]. apply truthy_not_empty in E1.
      exists (roleName tab). split; [exact E1|]. split; [now left | reflexivity]. }
    destruct (isCompanyNameField n && truthy (companyName tab)) eqn:E2.
    { apply andb_true_iff in E2 as [_ E2]. apply truthy_not_empty in E2.
      exists (companyName tab). split; [exact E2|].
      split; [now right; left | reflexivity]. }
    exists (tab_title tab). split; [exact Ht|].
    split; [now right; right | reflexivity]. }
  destruct Hgen as (assigned & Hne & Hwhich & Hshown).
  exists assigned. repeat split; try assumption.
  intros Hline. rewrite Hshown.
  now destruct (sanitize_single_line assigned Hline) as [-> _].
Qed.

Lemma new_title_is_prefilled_witness :
  exists assigned,
    assigned <> ""
    /\ (assigned = roleName acme_tab \/ assigned = companyName acme_tab
        \/ assigned = tab_title acme_tab)
    /\ field_value (renderTitleField no_number_text "Name" acme_tab None)
       = Some (sanitize TextInput assigned)
    /\ (single_line assigned ->
        field_value (renderTitleField no_number_text "Name" acme_tab None)
        = Some assigned).
Proof. apply new_title_is_prefilled. discriminate. Defined.

(** X25: a title of the form role, separator, company (and possibly more)
    fills the title field of a new entry with the role if the column is a
    role column, and with the company if it is a company-name column and
    no role column, each trimmed and provided it is not empty.  The field
    holds the text as its text input keeps it, which for a text without
    line breaks is the text itself. *)
Theorem linkedin_title_fills_the_title_field
    (number_text : NumberValue -> string) (role company n : string)
    (url extractedLocation selected : string) :
  no_bar role -> no_bar company ->
  forall tabTitle,
    (tabTitle = role +:+ " | " +:+ company
     \/ exists site, tabTitle = role +:+ " | " +:+ company +:+ " | " +:+ site) ->
    let tab := getActiveTabInfo url tabTitle extractedLocation selected in
    let shown := field_value (renderTitleField number_text n tab None) in
    (isRoleField n = true -> trim role <> "" ->
     shown = Some (sanitize TextInput (trim role))
     /\ (single_line (trim role) -> shown = Some (trim role)))
    /\ (isRoleField n = false -> isCompanyNameField n = true ->
        trim company <> "" ->
        shown = Some (sanitize TextInput (trim company))
        /\ (single_line (trim company) -> shown = Some (trim company))).
Proof.
  intros Hr Hc tabTitle Htitle. cbv zeta.
  assert (Hp : parseTitle tabTitle = (trim role, trim company)).
  { unfold parseTitle.
    destruct Htitle as [->|[site ->]]; rewrite ServiceWorkerFacts.separated.
    - now rewrite ServiceWorkerFacts.split_two.
    - now rewrite ServiceWorkerFacts.split_more. }
  unfold renderTitleField, existing_or, has_existing, getActiveTabInfo.
  cbn [field_value text_group roleName companyName tab_title].
  rewrite Hp. cbn [fst snd]. split.
  - intros -> Hne. rewrite (truthy_true _ Hne).
    cbn [andb existing_entry mbind option_bind negb].
    split; [reflexivity|]. intros Hline.
    now destruct (sanitize_single_line _ Hline) as [-> _].
  - intros -> -> Hne. rewrite (truthy_true _ Hne).
    cbn [andb existing_entry mbind option_bind negb].
    split; [reflexivity|]. intros Hline.
    now destruct (sanitize_single_line _ Hline) as [-> _].
Qed.

Lemma linkedin_title_fills_the_title_field_witness :
  field_value
    (renderTitleField no_number_text "Role"
       (getActiveTabInfo "https://jobs.acme.test/123"
          ("Backend Engineer" +:+ " | " +:+ "Acme" +:+ " | " +:+ "LinkedIn") "" "")
       None)
  = Some (trim "Backend Engineer").
Proof.
  pose proof (linkedin_title_fills_the_title_field no_number_text
                "Backend Engineer" "Acme" "Role"
                "https://jobs.acme.test/123" "" "" eq_refl eq_refl
                ("Backend Engineer" +:+ " | " +:+ "Acme" +:+ " | " +:+ "LinkedIn")
                (or_intror (ex_intro _ "LinkedIn" eq_refl))) as H.
  cbv zeta in H. destruct H as [H _].
  destruct H as [_ H]; [reflexivity | discriminate |].
  apply H. reflexivity.
Defined.




End Prefill.

(* ===================================================================== *)
(** * Where the entries of the payload come from, and how they read back *)
(* ===================================================================== *)

Module SaveAndReopen.
Import JsString JsStringFacts JsNumber NotionApi Popup Fixtures.
#[local] Open Scope list_scope.

Section Origin.
Variable hidden : gset string.

Lemma add_group_origin (properties : gmap string Property) (group : FormGroup)
    (n : string) (p : Property) :
  add_group hidden properties group !! n = Some p ->
  properties !! n = Some p
  \/ ((n ∉ hidden)
      /\ propertyName group = n
      /\ payload_entry (propertyType group)
           (getFieldValue group (propertyType group)) = Some p).
Proof.
  unfold add_group.
  destruct (decide (propertyName group ∈ hidden)) as [|Hvis]; [now left|].
  destruct (payload_entry _ _) as [q|]; [|now left].
  unfold assign. destruct (String.eqb (propertyName group) "__proto__"); [now left|].
  destruct (decide (n = propertyName group)) as [->|Hne].
  - rewrite lookup_insert_eq. intros [= ->]. now right.
  - rewrite lookup_insert_ne by congruence. now left.
Qed.

Lemma foldl_origin (groups : list FormGroup) (n : string) (p : Property) :
  forall properties,
    foldl (add_group hidden) properties groups !! n = Some p ->
    properties !! n = Some p
    \/ ((n ∉ hidden)
        /\ exists group,
             group ∈ groups /\ propertyName group = n
             /\ payload_entry (propertyType group)
                  (getFieldValue group (propertyType group)) = Some p).
Proof.
  induction groups as [|g groups IH]; intros properties H; simpl in H.
  - now left.
  - apply IH in H as [H|(Hvis & group & Hin & Hc)].
    + apply add_group_origin in H as [H|[Hvis Hc]]; [now left|].
      right. split; [exact Hvis|]. exists g. split; [apply list_elem_of_here | exact Hc].
    + right. split; [exact Hvis|]. exists group.
      split; [now apply list_elem_of_further | exact Hc].
Qed.

End Origin.

(** X27: every entry of the payload comes from a group of the form: its
    key is the name of a group that is not hidden, and its value what that
    group contributes. *)
Theorem payload_entries_come_from_the_form (hidden : gset string)
    (groups : list FormGroup) (n : string) (p : Property) :
  buildPayload hidden groups !! n = Some p ->
  (n ∉ hidden)
  /\ exists group,
       group ∈ groups /\ propertyName group = n
       /\ payload_entry (propertyType group)
            (getFieldValue group (propertyType group)) = Some p.
Proof.
  intros H. apply foldl_origin in H as [H|(Hvis & group & Hin & Hn & Hp)].
  - now rewrite lookup_empty in H.
  - split; [exact Hvis|]. now exists group.
Qed.

Lemma payload_entries_come_from_the_form_witness :
  ("Name" ∉ (∅ : gset string))
  /\ exists group,
       group ∈ job_form /\ propertyName group = "Name"
       /\ payload_entry (propertyType group)
            (getFieldValue group (propertyType group))
          = Some (P_title [text_block "Engineer"]).
Proof. apply payload_entries_come_from_the_form. reflexivity. Defined.

Lemma parseNotionPage_lookup (page : gmap string Property)
    (schema : gmap string SchemaProperty) (n : string) :
  n <> "__proto__" ->
  parseNotionPage page schema !! n
  = match page !! n, schema !! n with
    | Some p, Some sp => Some (parsed_of (type sp) (parse (type sp) p))
    | _, _ => None
    end.
Proof.
  intros Hn. unfold parseNotionPage.
  rewrite lookup_delete_ne by congruence. rewrite lookup_merge.
  destruct (page !! n), (schema !! n); reflexivity.
Qed.

(** A value within the limits of [round_trips] is parsed back from what the
    store returns for it. *)
Lemma parse_stored_format (ty : ColumnType) (v : FormValue ty) :
  round_trips ty v -> parse ty (stored (format ty v)) = v.
Proof.
  destruct ty; intros H;
    try apply RoundTrip.or_empty_or_null; try reflexivity.
  - change (or_empty (Some (or_else v "")) = v).
    unfold or_empty. now rewrite !or_else_empty.
  - change (PropertyParsers.rich_text (stored (PropertyFormatters.rich_text v)) = v).
    rewrite RoundTrip.rich_text_parsed_back. now apply RoundTrip.take_all.
  - destruct v as [| |x|s]; try contradiction.
    + simpl in *. now rewrite H.
    + simpl in H. subst s. reflexivity.
Qed.

(** X28: what is saved is what is read when the entry is opened again.  For
    a form of distinct names, a store that returns the properties it was
    sent, and a field that is not hidden, is not named [__proto__] and has
    a column of its type in the schema: a value of the field within the
    limits of the round trip is the parsed value of the existing entry; a
    title left empty is read back as [Untitled].  A field named
    [__proto__] is neither saved nor read. *)
Theorem saved_field_is_read_back (hidden : gset string) (groups : list FormGroup)
    (schema : gmap string SchemaProperty) (page : gmap string Property)
    (group : FormGroup) (column : SchemaProperty) :
  buildPayload hidden groups !! "__proto__" = None
  /\ parseNotionPage page schema !! "__proto__" = None
  /\ (NoDup (propertyName <$> groups) ->
  group ∈ groups ->
  propertyName group ∉ hidden ->
  propertyName group <> "__proto__" ->
  (forall n p, buildPayload hidden groups !! n = Some p ->
               page !! n = Some (stored p)) ->
  schema !! propertyName group = Some column ->
  type column = propertyType group ->
  let ty := propertyType group in
  let value := getFieldValue group ty in
  (has_value ty value = true -> round_trips ty value ->
   parseNotionPage page schema !! propertyName group = Some (parsed_of ty value))
  /\ (ty = title -> has_value ty value = false ->
      parseNotionPage page schema !! propertyName group
      = Some (ParsedText "Untitled"))).
Proof.
  split; [unfold buildPayload; rewrite Payload.foldl_proto; apply lookup_empty|].
  split; [apply lookup_delete_eq|].
  intros Hnd Hin Hvis Hown Hstore Hschema Htype. cbv zeta.
  pose proof (Payload.buildPayload_entry hidden groups group Hnd Hin Hvis Hown)
    as Hentry.
  rewrite parseNotionPage_lookup, Hschema, Htype by exact Hown.
  split.
  - intros Hhas Hround. unfold payload_entry in Hentry. rewrite Hhas in Hentry.
    rewrite (Hstore _ _ Hentry). now rewrite parse_stored_format.
  - intros Hty Hhas.
    destruct group as [n ty fv cc hv so ts].
    cbn [propertyType propertyName] in *. clear Htype. subst ty.
    rewrite Payload.title_entry in Hentry. rewrite (Hstore _ _ Hentry).
    cbn [has_value] in Hhas. apply truthy_empty in Hhas. rewrite Hhas.
    reflexivity.
Qed.

Lemma saved_field_is_read_back_witness :
  parseNotionPage job_row job_schema !! "Link" = Some (ParsedText job_url).
Proof.
  pose proof (saved_field_is_read_back ∅ job_form job_schema job_row
                (text_group "Link" url job_url)
                {| type := url; options := None |}) as H.
  cbv zeta in H. destruct H as (_ & _ & H). apply H.
  - apply (bool_decide_unpack (NoDup (propertyName <$> job_form))). vm_compute. exact I.
  - apply list_elem_of_further, list_elem_of_here.
  - apply not_elem_of_empty.
  - discriminate.
  - intros n p Hp. unfold job_row. rewrite lookup_fmap, Hp. reflexivity.
  - reflexivity.
  - reflexivity.
  - reflexivity.
  - exact I.
Defined.

End SaveAndReopen.

(* ===================================================================== *)
(** * The row of a sheet *)
(* ===================================================================== *)

Module SheetsFacts.
Import JsString JsStringFacts JsNumber NotionApi Popup Sheets Fixtures.
#[local] Open Scope list_scope.




End SheetsFacts.
